(** * ShadowOps Digest: the semantic clustering and similarity engine

    A shallow embedding of [backend/clustering.py] and
    [backend/vector_store.py], and the properties of the text normalizer,
    the cluster count heuristic, the vector similarity store and the
    clustering controller.

    Conventions of the embedding.
    - A Python [str] is a list of characters; a character is its code point,
      and the embedding covers the code points below 256 ([ascii] read as
      Latin-1), on which [str.lower], [str.isspace] and the regular
      expression classes [\w] and [\s] are tabulated below.
    - A Python [int] is a [Z]; list positions and ticket indices are [nat].
    - NumPy floating point numbers are read as real numbers: rounding,
      overflow and NaN are outside the embedding.  Where NumPy would produce
      a NaN (a zero denominator) the embedding says so explicitly.
    - A Python call that may raise returns a [result]; code that also
      mutates an object threads that object through a state monad. *)

From Stdlib Require Import Ascii String.
From Stdlib Require Import ZArith Lia List Bool Arith.
From Stdlib Require Import Permutation Sorted Reals Lra Psatz.
From Stdlib Require DecimalString DecimalNat DecimalFacts Finite.
Import ListNotations.

Set Implicit Arguments.

(* ================================================================== *)
(** * Part I: definitions *)
(* ================================================================== *)

(** ** Exceptions *)

(** The exceptions that the embedded code raises itself or receives from
    its collaborators. *)
Inductive exn : Type :=
| ValueError (msg : string)
| IndexError
| AssertionError
| RuntimeError
| AttributeError
| ProviderError (msg : string).

Inductive result (A : Type) : Type :=
| Ok (a : A)
| Raise (e : exn).

Arguments Ok {A} a.
Arguments Raise {A} e.

Definition raises {A : Type} (r : result A) : Prop :=
  exists e, r = Raise e.

Definition is_ok {A : Type} (r : result A) : bool :=
  match r with Ok _ => true | Raise _ => false end.

(** ** Text normalizer ([TicketClusteringEngine._preprocess_ticket]) *)

Module Text.

Definition str := list ascii.

Definition code (c : ascii) : N := N_of_ascii c.

Definition in_range (lo hi : N) (c : ascii) : bool :=
  (lo <=? code c)%N && (code c <=? hi)%N.

(** [str.isspace] and the regular expression class [\s]. *)
Definition isspace (c : ascii) : bool :=
  in_range 9 13 c || in_range 28 32 c
  || (code c =? 133)%N || (code c =? 160)%N.

(** Letters and digits: [str.isalnum]. *)
Definition isalnum (c : ascii) : bool :=
  in_range 48 57 c || in_range 65 90 c || in_range 97 122 c
  || (code c =? 170)%N || in_range 178 179 c || (code c =? 181)%N
  || in_range 185 186 c || in_range 188 190 c
  || in_range 192 214 c || in_range 216 246 c || in_range 248 255 c.

(** The regular expression class [\w]: letters, digits and the underscore. *)
Definition isword (c : ascii) : bool :=
  isalnum c || (code c =? 95)%N.

(** [str.lower] on one character. *)
Definition lower_char (c : ascii) : ascii :=
  if in_range 65 90 c || in_range 192 214 c || in_range 216 222 c
  then ascii_of_N (code c + 32)
  else c.

Definition lower (s : str) : str := map lower_char s.

Fixpoint lstrip (s : str) : str :=
  match s with
  | [] => []
  | c :: r => if isspace c then lstrip r else s
  end.

Definition rstrip (s : str) : str := rev (lstrip (rev s)).

(** [str.strip()] *)
Definition strip (s : str) : str := rstrip (lstrip s).

Definition space : ascii := " "%char.

(** [re.sub(r'[^\w\s]', ' ', text)], for the class [keep] in place of [\w]. *)
Definition sub_special (keep : ascii -> bool) (s : str) : str :=
  map (fun c => if keep c || isspace c then c else space) s.

(** [re.sub(r'\s+', ' ', text)]: every maximal run of whitespace becomes one
    space.  [in_run] tells that the previous character was whitespace. *)
Fixpoint sub_spaces_from (in_run : bool) (s : str) : str :=
  match s with
  | [] => []
  | c :: r =>
      if isspace c
      then (if in_run then sub_spaces_from true r
            else space :: sub_spaces_from true r)
      else c :: sub_spaces_from false r
  end.

Definition sub_spaces (s : str) : str := sub_spaces_from false s.

(** [str.split()] without a separator: the maximal runs of characters that
    are not whitespace.  [cur] is the current word, reversed. *)
Fixpoint split_from (cur : str) (s : str) : list str :=
  match s with
  | [] => match cur with [] => [] | _ => [rev cur] end
  | c :: r =>
      if isspace c
      then match cur with
           | [] => split_from [] r
           | _ => rev cur :: split_from [] r
           end
      else split_from (c :: cur) r
  end.

Definition split (s : str) : list str := split_from [] s.

(** [sep.join(words)] *)
Fixpoint join (sep : str) (words : list str) : str :=
  match words with
  | [] => []
  | [w] => w
  | w :: ws => w ++ sep ++ join sep ws
  end.

Definition long_enough (w : str) : bool := 2 <=? length w.

(** The body of [_preprocess_ticket], on lists of characters. *)
Definition preprocess (ticket : str) : str :=
  let text := strip (lower ticket) in
  let text := sub_special isword text in
  let text := sub_spaces text in
  let words := filter long_enough (split text) in
  join [space] words.

(** [str.split(sep)] with an explicit one character separator: the fields
    between the separators, empty ones included. *)
Fixpoint split_on_from (sep : ascii) (cur : str) (s : str) : list str :=
  match s with
  | [] => [rev cur]
  | c :: r =>
      if Ascii.eqb c sep
      then rev cur :: split_on_from sep [] r
      else split_on_from sep (c :: cur) r
  end.

Definition split_on (sep : ascii) (s : str) : list str :=
  split_on_from sep [] s.

(** The normalizer as the specification words it: lower-case; replace every
    character outside [keep] that is not whitespace with a space; collapse
    runs of whitespace to one space; drop the tokens shorter than two
    characters; trim. *)
Definition normalize_spec (keep : ascii -> bool) (text : str) : str :=
  let text := lower text in
  let text := sub_special keep text in
  let text := sub_spaces text in
  let tokens := filter long_enough (split_on space text) in
  strip (join [space] tokens).

Definition not_nil (w : str) : bool :=
  match w with [] => false | _ => true end.

(** Predicates on words, for the statements below. *)
Definition nospace (w : str) : Prop := Forall (fun c => isspace c = false) w.
Definition allspace (w : str) : Prop := Forall (fun c => isspace c = true) w.

(** Non-empty words without whitespace: what [split] produces. *)
Definition good_words (ws : list str) : Prop :=
  Forall (fun w => w <> [] /\ nospace w) ws.

(** A lower-case character of the class [\w], or whitespace. *)
Definition normal_char (c : ascii) : Prop :=
  lower_char c = c /\ (isword c || isspace c) = true.

End Text.

Definition _preprocess_ticket (ticket : string) : string :=
  string_of_list_ascii (Text.preprocess (list_ascii_of_string ticket)).

(** The specification's [normalize], word for word: "alphanumeric" is
    [str.isalnum]. *)
Definition normalize_as_specified (text : string) : string :=
  string_of_list_ascii
    (Text.normalize_spec Text.isalnum (list_ascii_of_string text)).

(** The same pipeline with the class [\w] of the source's regular
    expression. *)
Definition normalize_word_class (text : string) : string :=
  string_of_list_ascii
    (Text.normalize_spec Text.isword (list_ascii_of_string text)).

(** ** Cluster count heuristic ([_determine_cluster_count]) *)

Definition _determine_cluster_count (num_tickets : Z) : Z :=
  if (num_tickets <=? 2)%Z then 1%Z
  else if (num_tickets <=? 5)%Z then 2%Z
  else if (num_tickets <=? 10)%Z then 3%Z
  else if (num_tickets <=? 20)%Z then Z.min 4 (num_tickets / 3)
  else if (num_tickets <=? 50)%Z then Z.min 6 (num_tickets / 5)
  else Z.min 10 (num_tickets / 8).

(** ** State and exceptions *)

(** A method of an object with state [S]: it returns or raises, and leaves
    the object in a new state either way. *)
Definition M (S A : Type) : Type := S -> result A * S.

Definition ret {S A : Type} (a : A) : M S A := fun s => (Ok a, s).

Definition raise {S A : Type} (e : exn) : M S A := fun s => (Raise e, s).

Definition bind {S A B : Type} (m : M S A) (f : A -> M S B) : M S B :=
  fun s => match m s with
           | (Ok a, s') => f a s'
           | (Raise e, s') => (Raise e, s')
           end.

(** [try: m  except Exception as e: h e] *)
Definition try_except {S A : Type} (m : M S A) (h : exn -> M S A) : M S A :=
  fun s => match m s with
           | (Ok a, s') => (Ok a, s')
           | (Raise e, s') => h e s'
           end.

Definition get {S : Type} : M S S := fun s => (Ok s, s).
Definition put {S : Type} (s : S) : M S unit := fun _ => (Ok tt, s).

Definition lift {S A : Type} (r : result A) : M S A := fun s => (r, s).

Declare Scope monad_scope.
Delimit Scope monad_scope with monad.
Notation "x <- m ;; k" := (bind m (fun x => k))
  (at level 61, m at next level, right associativity) : monad_scope.
Notation "m ;;; k" := (bind m (fun _ => k))
  (at level 61, right associativity) : monad_scope.

(** ** Vectors and matrices *)

(** The numbers of NumPy and FAISS are floating-point numbers ([float64]
    and [float32]); they are read as real numbers here.  What is proved of
    a sum, a norm or an inner product is therefore proved of real
    arithmetic: a run agrees with it up to rounding only (the cohesion of
    two equal rows [1, 5] comes out as 1.0000000000000002, and rows as
    large as 2**700 overflow), and the statements that depend on it say
    so. *)
Definition vector : Type := list R.
(** A two-dimensional array, row by row. *)
Definition matrix : Type := list vector.

Module Np.
Local Open Scope R_scope.

Fixpoint sum (l : list R) : R :=
  match l with
  | [] => 0
  | x :: r => x + sum r
  end.

(** [np.dot] of two vectors. *)
Fixpoint dot (u v : vector) : R :=
  match u, v with
  | x :: u', y :: v' => x * y + dot u' v'
  | _, _ => 0
  end.

(** [np.linalg.norm] of one row. *)
Definition norm (v : vector) : R := sqrt (dot v v).

(** [np.mean] of a non-empty list of numbers. *)
Definition mean (l : list R) : R := sum l / INR (length l).

(** [np.dot(a, b.T)]: all inner products of a row of [a] and a row of [b]. *)
Definition dot_T (a b : matrix) : matrix :=
  map (fun u => map (fun v => dot u v) b) a.

Fixpoint imap_from {A B : Type} (i : nat) (f : nat -> A -> B) (l : list A)
  : list B :=
  match l with
  | [] => []
  | a :: r => f i a :: imap_from (S i) f r
  end.

Definition imap {A B : Type} (f : nat -> A -> B) (l : list A) : list B :=
  imap_from 0 f l.

(** [np.triu(m, k=1)]: the entries on and below the diagonal become zero. *)
Definition triu1 (m : matrix) : matrix :=
  imap (fun i row => imap (fun j x => if (i <? j)%nat then x else 0) row) m.

Definition positive (x : R) : bool := if Rlt_dec 0 x then true else false.

(** [m[m > 0]]: the positive entries, row by row. *)
Definition positive_entries (m : matrix) : list R :=
  filter positive (concat m).

Fixpoint vadd (u v : vector) : vector :=
  match u, v with
  | x :: u', y :: v' => (x + y) :: vadd u' v'
  | _, _ => []
  end.

(** [np.mean(rows, axis=0)] of a non-empty array. *)
Definition mean_axis0 (rows : matrix) : vector :=
  match rows with
  | [] => []
  | r0 :: rest =>
      map (fun x => x / INR (length rows)) (fold_left vadd rest r0)
  end.

(** [np.argmax] of a list in which [None] is a NaN: the first NaN when there
    is one, else the first maximum. *)
Fixpoint first_nan (l : list (option R)) : option nat :=
  match l with
  | [] => None
  | None :: _ => Some 0%nat
  | Some _ :: r => option_map S (first_nan r)
  end.

Fixpoint argmax_from (best : nat) (best_val : R) (i : nat) (l : list R)
  : nat :=
  match l with
  | [] => best
  | x :: r =>
      if Rlt_dec best_val x then argmax_from i x (S i) r
      else argmax_from best best_val (S i) r
  end.

Definition argmax (l : list (option R)) : nat :=
  match first_nan l with
  | Some i => i
  | None =>
      match map (fun o => match o with Some x => x | None => 0 end) l with
      | [] => 0%nat
      | x :: r => argmax_from 0 x 1 r
      end
  end.

End Np.

(** ** The FAISS index, as far as the store uses it *)

(** Modelled from the spec: the FAISS library, which is no part of the
    repository.  The index "holds normalized embedding vectors"; its search
    is "a top-k inner-product search over normalized vectors" for the flat
    variant, which the source builds as [IndexFlatIP].  The approximate,
    partitioned variant "requires a training step once enough vectors have
    been accumulated" and searches the vectors of the inverted list of the
    query; the source builds it as [IndexIVFFlat(quantizer, dimension,
    nlist)] and passes no metric, so the index compares by the default of
    the library, the squared Euclidean distance, and returns the nearest
    vectors first.  As in the Python interface of the library, [add],
    [train] and [search] refuse an array of another dimension, [search]
    refuses [k <= 0], and a search that finds fewer than [k] vectors pads
    its result with the label [-1].

    The scores are real numbers here.  The library computes them in
    [float32]: a score of the model and the score of a run agree up to
    rounding (the inner product of a normalized vector with itself comes
    out as 1.0000001 in a run), so a statement about the scores is a
    statement about real arithmetic.

    An array is a list of rows, and the empty list stands for an array
    without rows of the width the index expects: [np.array([])], which has
    one axis only and fails in [_normalize_embeddings], has no counterpart
    here. *)
Module Faiss.
Local Open Scope R_scope.

Inductive index_kind : Type := IndexFlatIP | IndexIVFFlat.

(** [xb] holds the vectors in the order they were added; the label of a
    vector is its position.  [quantizer] is the coarse quantizer of an
    inverted file index, fixed by training: it sends a vector to one of the
    [nlist] inverted lists. *)
Record index : Type := mk_index {
  d : nat;
  kind : index_kind;
  index_trained : bool;
  quantizer : vector -> nat;
  xb : matrix
}.

Definition nlist : nat := 100.

Definition new_flat (dim : nat) : index :=
  mk_index dim IndexFlatIP true (fun _ => 0%nat) [].

Definition new_ivf (dim : nat) : index :=
  mk_index dim IndexIVFFlat false (fun _ => 0%nat) [].

Definition ntotal (ix : index) : nat := length (xb ix).

Definition well_shaped (ix : index) (x : matrix) : bool :=
  forallb (fun row => (length row =? d ix)%nat) x.

(** [index.train(x)]; [trained_quantizer x] is the coarse quantizer that the
    training on [x] produces. *)
Definition train (trained_quantizer : matrix -> vector -> nat)
  (ix : index) (x : matrix) : result index :=
  if negb (well_shaped ix x) then Raise AssertionError
  else if (length x <? nlist)%nat then Raise RuntimeError
  else Ok (mk_index (d ix) (kind ix) true (trained_quantizer x) (xb ix)).

(** [index.add(x)] *)
Definition add (ix : index) (x : matrix) : result index :=
  if negb (well_shaped ix x) then Raise AssertionError
  else if negb (index_trained ix) then Raise RuntimeError
  else Ok (mk_index (d ix) (kind ix) true (quantizer ix) (xb ix ++ x)).

(** The smallest and the largest [float32], the scores of the padding
    entries of an inner-product search and of a distance search. *)
Definition lowest : R :=
  IZR (- 340282346638528859811704183484516925440).

Definition highest : R :=
  IZR 340282346638528859811704183484516925440.

Definition hit : Type := (R * Z)%type.

(** The squared Euclidean distance of two vectors. *)
Fixpoint l2sqr (u v : vector) : R :=
  match u, v with
  | x :: u', y :: v' => (x - y) * (x - y) + l2sqr u' v'
  | _, _ => 0
  end.

(** What the index computes for a query and a stored vector: the inner
    product in [IndexFlatIP], the squared Euclidean distance in an
    [IndexIVFFlat] built without a metric. *)
Definition score (ix : index) (q x : vector) : R :=
  match kind ix with
  | IndexFlatIP => Np.dot q x
  | IndexIVFFlat => l2sqr q x
  end.

(** Insertion into a list ordered by descending score; among equal scores
    the earlier label stays first. *)
Fixpoint insert_desc (h : hit) (l : list hit) : list hit :=
  match l with
  | [] => [h]
  | h' :: r =>
      if Rlt_dec (fst h) (fst h') then h' :: insert_desc h r else h :: l
  end.

Definition sort_desc (l : list hit) : list hit :=
  fold_right insert_desc [] l.

(** Insertion into a list ordered by ascending distance; among equal
    distances the earlier label stays first. *)
Fixpoint insert_asc (h : hit) (l : list hit) : list hit :=
  match l with
  | [] => [h]
  | h' :: r =>
      if Rlt_dec (fst h') (fst h) then h' :: insert_asc h r else h :: l
  end.

Definition sort_asc (l : list hit) : list hit :=
  fold_right insert_asc [] l.

(** The best hits first: the largest inner products, the smallest
    distances. *)
Definition best_first (ix : index) (l : list hit) : list hit :=
  match kind ix with
  | IndexFlatIP => sort_desc l
  | IndexIVFFlat => sort_asc l
  end.

(** The score of a padding entry. *)
Definition worst (ix : index) : R :=
  match kind ix with
  | IndexFlatIP => lowest
  | IndexIVFFlat => highest
  end.

(** The stored vectors that a search for [q] compares with [q]: all of them
    in a flat index, those of the inverted list of [q] otherwise (one list
    is probed). *)
Definition visited (ix : index) (q : vector) : list (nat * vector) :=
  let all := combine (seq 0 (ntotal ix)) (xb ix) in
  match kind ix with
  | IndexFlatIP => all
  | IndexIVFFlat =>
      filter (fun p => (quantizer ix (snd p) =? quantizer ix q)%nat) all
  end.

Definition pad (filler : R) (k : nat) (l : list hit) : list hit :=
  l ++ repeat (filler, (-1)%Z) (k - length l).

(** One row of the result of a search: [k] pairs of a score and a label,
    the best first, padded with the label [-1]. *)
Definition search_row (ix : index) (k : nat) (q : vector) : list hit :=
  let hits :=
    map (fun p => (score ix q (snd p), Z.of_nat (fst p))) (visited ix q) in
  pad (worst ix) k (firstn k (best_first ix hits)).

(** [index.search(x, k)]: one row of scores and labels for each query. *)
Definition search (ix : index) (x : matrix) (k : Z)
  : result (list (list hit)) :=
  if negb (well_shaped ix x) then Raise AssertionError
  else if (k <=? 0)%Z then Raise AssertionError
  else if negb (index_trained ix) then Raise RuntimeError
  else Ok (map (search_row ix (Z.to_nat k)) x).

End Faiss.

(** ** The vector store ([vector_store.py]) *)

Module TicketVectorStore.
Local Open Scope R_scope.
Local Open Scope monad_scope.

Inductive index_type_t : Type := flat | ivf.

(** The metadata dictionary of one ticket, as the clustering engine
    builds it. *)
Record ticket_metadata : Type := mk_metadata {
  ticket_index : nat;
  description : string
}.

(** One search result: a copy of the metadata with the score added. *)
Record similar_ticket : Type := mk_similar {
  similar_metadata : ticket_metadata;
  similarity_score : R
}.

Record t : Type := mk_store {
  dimension : nat;
  index_type : index_type_t;
  index : Faiss.index;
  metadata : list ticket_metadata;
  is_trained : bool
}.

Definition set_index (ix : Faiss.index) (st : t) : t :=
  mk_store (dimension st) (index_type st) ix (metadata st) (is_trained st).

Definition set_is_trained (b : bool) (st : t) : t :=
  mk_store (dimension st) (index_type st) (index st) (metadata st) b.

Definition set_metadata (md : list ticket_metadata) (st : t) : t :=
  mk_store (dimension st) (index_type st) (index st) md (is_trained st).

Definition _initialize_index : M t unit :=
  fun st =>
    match index_type st with
    | flat =>
        (Ok tt, set_is_trained true
                  (set_index (Faiss.new_flat (dimension st)) st))
    | ivf =>
        (Ok tt, set_is_trained false
                  (set_index (Faiss.new_ivf (dimension st)) st))
    end.

(** [TicketVectorStore(dimension, index_type)]; the index, [None] until
    [_initialize_index] has run, is written as an empty flat index. *)
Definition __init__ (dim : nat) (ty : index_type_t) : t :=
  snd (_initialize_index (mk_store dim ty (Faiss.new_flat dim) [] false)).

Definition _normalize_embeddings (embeddings : matrix) : matrix :=
  map (fun row =>
         let norms := Np.norm row in
         let norms := if Req_dec_T norms 0 then 1 else norms in
         map (fun x => x / norms) row)
      embeddings.

Section Store.

Variable trained_quantizer : matrix -> vector -> nat.

Definition store_embeddings (embeddings : matrix)
  (new_metadata : list ticket_metadata) : M t bool :=
  try_except
    (if negb (length embeddings =? length new_metadata)%nat
     then raise (ValueError
                   "Number of embeddings must match number of metadata entries")
     else
       let normalized_embeddings := _normalize_embeddings embeddings in
       self <- get ;;
       (if negb (is_trained self)
           && match index_type self with ivf => true | flat => false end
        then
          if (100 <=? length normalized_embeddings)%nat
          then
            ix <- lift (Faiss.train trained_quantizer (index self)
                          normalized_embeddings) ;;
            put (set_is_trained true (set_index ix self))
          else _initialize_index
        else ret tt) ;;;
       self <- get ;;
       if is_trained self
       then
         ix <- lift (Faiss.add (index self) normalized_embeddings) ;;
         put (set_index ix self) ;;;
         self <- get ;;
         put (set_metadata (metadata self ++ new_metadata) self) ;;;
         ret true
       else ret false)
    (fun _ => ret false).

(** [update_vector_index] *)
Definition update_vector_index := store_embeddings.

End Store.

(** [a_list[idx]] for a Python [int]: a negative index counts from
    the end. *)
Definition getitem {A : Type} (l : list A) (idx : Z) : result A :=
  let i := if (idx <? 0)%Z then (Z.of_nat (length l) + idx)%Z else idx in
  if (i <? 0)%Z then Raise IndexError
  else match nth_error l (Z.to_nat i) with
       | Some a => Ok a
       | None => Raise IndexError
       end.

(** The loop of [search_similar_tickets] over the pairs of a score and a
    label. *)
Fixpoint collect_results (md : list ticket_metadata) (threshold : R)
  (hits : list Faiss.hit) : result (list similar_ticket) :=
  match hits with
  | [] => Ok []
  | (score, idx) :: rest =>
      if negb (idx =? -1)%Z && (if Rle_dec threshold score then true else false)
      then
        match getitem md idx with
        | Ok m =>
            match collect_results md threshold rest with
            | Ok results => Ok (mk_similar m score :: results)
            | Raise e => Raise e
            end
        | Raise e => Raise e
        end
      else collect_results md threshold rest
  end.

Definition search_similar_tickets (query_embedding : vector) (k : Z)
  (threshold : R) : M t (list similar_ticket) :=
  try_except
    (self <- get ;;
     if (Faiss.ntotal (index self) =? 0)%nat then ret []
     else
       let normalized_query := _normalize_embeddings [query_embedding] in
       found <- lift (Faiss.search (index self) normalized_query k) ;;
       first_row <- lift (getitem found 0) ;;
       lift (collect_results (metadata self) threshold first_row))
    (fun _ => ret []).

Definition _calculate_cluster_cohesion (cluster_embeddings : matrix) : R :=
  if (length cluster_embeddings <=? 1)%nat then 1
  else
    let normalized := _normalize_embeddings cluster_embeddings in
    let similarity_matrix := Np.dot_T normalized normalized in
    let upper_triangle := Np.triu1 similarity_matrix in
    let similarities := Np.positive_entries upper_triangle in
    if (0 <? length similarities)%nat then Np.mean similarities else 0.

Record cluster_stats : Type := mk_stats {
  centroid : vector;
  representative_ticket_idx : nat;
  cohesion_score : R;
  size : nat
}.

(** [embeddings[cluster_indices]] *)
Fixpoint take_rows (embeddings : matrix) (cluster_indices : list nat)
  : result matrix :=
  match cluster_indices with
  | [] => Ok []
  | i :: rest =>
      match nth_error embeddings i, take_rows embeddings rest with
      | Some row, Ok rows => Ok (row :: rows)
      | None, _ => Raise IndexError
      | _, Raise e => Raise e
      end
  end.

(** [None] is the empty dictionary that the source returns for an empty
    cluster and after an exception.  A similarity with a zero denominator
    is a NaN. *)
Definition get_cluster_representatives (cluster_indices : list nat)
  (embeddings : matrix) : option cluster_stats :=
  match cluster_indices with
  | [] => None
  | _ =>
      match take_rows embeddings cluster_indices with
      | Raise _ => None
      | Ok cluster_embeddings =>
          let centroid := Np.mean_axis0 cluster_embeddings in
          let similarities :=
            map (fun row =>
                   let den := Np.norm row * Np.norm centroid in
                   if Req_dec_T den 0 then None
                   else Some (Np.dot row centroid / den))
                cluster_embeddings in
          let most_representative_idx :=
            nth (Np.argmax similarities) cluster_indices 0%nat in
          let cohesion := _calculate_cluster_cohesion cluster_embeddings in
          Some (mk_stats centroid most_representative_idx cohesion
                  (length cluster_indices))
      end
  end.

(** One row of [_normalize_embeddings]. *)
Definition normalize_row (row : vector) : vector :=
  map (fun x => x / (if Req_dec_T (Np.norm row) 0 then 1 else Np.norm row))
      row.

(** *** Cohesion as the specification words it *)

(** The cosine similarity of two vectors; it is undefined ([None]) when one
    of them has norm zero. *)
Definition cosine_similarity (u v : vector) : option R :=
  let den := Np.norm u * Np.norm v in
  if Req_dec_T den 0 then None else Some (Np.dot u v / den).

(** The pairs of the upper triangle: every element with each later one. *)
Fixpoint pairs {A : Type} (l : list A) : list (A * A) :=
  match l with
  | [] => []
  | a :: r => map (pair a) r ++ pairs r
  end.

(** All pairwise cosine similarities of the selected vectors. *)
Definition pairwise_cosines (selected : matrix) : list (option R) :=
  map (fun p => cosine_similarity (fst p) (snd p)) (pairs selected).

(** The defined and strictly positive ones among them. *)
Definition positive_cosines (selected : matrix) : list R :=
  flat_map (fun o => match o with
                     | Some x => if Np.positive x then [x] else []
                     | None => []
                     end)
           (pairwise_cosines selected).

(** The values of the defined ones. *)
Definition defined_cosines (selected : matrix) : list R :=
  flat_map (fun o => match o with Some x => [x] | None => [] end)
           (pairwise_cosines selected).

(** The store after a sequence of insertions, whatever each returned. *)
Definition inserts (trained_quantizer : matrix -> vector -> nat)
  (batches : list (matrix * list ticket_metadata)) (st : t) : t :=
  fold_left
    (fun st b => snd (store_embeddings trained_quantizer (fst b) (snd b) st))
    batches st.

(** The store with a whole batch appended to the index and to the
    metadata; an inverted file index is trained on its first batch. *)
Definition appended (trained_quantizer : matrix -> vector -> nat)
  (normalized : matrix) (md : list ticket_metadata) (st : t) : t :=
  let ix := index st in
  mk_store (dimension st) (index_type st)
    (Faiss.mk_index (Faiss.d ix) (Faiss.kind ix) true
       (if is_trained st then Faiss.quantizer ix
        else trained_quantizer normalized)
       (Faiss.xb ix ++ normalized))
    (metadata st ++ md) true.

(** What the methods of the class keep true of a store. *)
Definition consistent (st : t) : Prop :=
  Faiss.d (index st) = dimension st
  /\ Faiss.index_trained (index st) = is_trained st
  /\ Faiss.kind (index st)
     = match index_type st with
       | flat => Faiss.IndexFlatIP
       | ivf => Faiss.IndexIVFFlat
       end
  /\ (is_trained st = false -> index st = Faiss.new_ivf (dimension st))
  /\ length (metadata st) = Faiss.ntotal (index st).

(** The rows of the index are normalized: none is longer than 1. *)
Definition normalized_index (st : t) : Prop :=
  Forall (fun x => (Np.dot x x <= 1)%R) (Faiss.xb (index st)).

(** The test of the loop of [search_similar_tickets] on one pair. *)
Definition above_threshold (threshold : R) (h : Faiss.hit) : bool :=
  negb (snd h =? -1)%Z && (if Rle_dec threshold (fst h) then true else false).

(** The order of the hits of a search. *)
Definition by_score (a b : Faiss.hit) : Prop := (fst a >= fst b)%R.

(** A list of scores in descending order. *)
Definition descending (scores : list R) : Prop := StronglySorted Rge scores.

(** [create_vector_store] *)
Definition create_vector_store (dim : nat) (ty : index_type_t) : t :=
  __init__ dim ty.

End TicketVectorStore.

(** ** Dictionaries *)

(** A Python [dict]: the items in insertion order, every key once. *)
Module Dict.
Section Dict.

Variables K V : Type.
Variable eqb : K -> K -> bool.

Definition t : Type := list (K * V).

Fixpoint get (k : K) (d : t) : option V :=
  match d with
  | [] => None
  | (k', v) :: r => if eqb k k' then Some v else get k r
  end.

(** [k in d] *)
Definition mem (k : K) (d : t) : bool :=
  match get k d with Some _ => true | None => false end.

(** [d[k] = v]: an existing key keeps its place and takes the new value,
    a new key goes to the end. *)
Fixpoint set (k : K) (v : V) (d : t) : t :=
  match d with
  | [] => [(k, v)]
  | (k', v') :: r => if eqb k k' then (k, v) :: r else (k', v') :: set k v r
  end.

End Dict.
End Dict.

(** A cluster map by label, and one by name. *)
Definition clusters_by_label : Type := Dict.t nat (list nat).
Definition named_clusters : Type := Dict.t string (list nat).

(** All ticket indices of a cluster map, cluster by cluster. *)
Definition all_indices {K : Type} (clusters : Dict.t K (list nat)) : list nat :=
  concat (map snd clusters).

(** The partition invariant: every index of [0 .. n-1] exactly once. *)
Definition is_partition {K : Type} (n : nat) (clusters : Dict.t K (list nat))
  : Prop :=
  Permutation (all_indices clusters) (seq 0 n).

(** ** The clustering engine ([clustering.py]) *)

(** What the engine gets from outside: the OpenAI client, scikit-learn and
    the training of a FAISS inverted file index.
    - [embeddings_create texts] is the embeddings request followed by the
      conversion of the response to an array, one row per text.
    - [_ask_openai_for_cluster_name sample] is the naming request for up to
      five sample tickets together with the clean-up of the answer (strip,
      quotes removed, title case, at most 50 characters, "General Issues"
      for an empty answer).
    - [fit_transform texts] is [TfidfVectorizer.fit_transform].
    - [fit_predict k x] is [KMeans(n_clusters=k, random_state=42,
      n_init=10).fit_predict(x)]: one label per row. *)
Record collaborators : Type := mk_collaborators {
  trained_quantizer : matrix -> vector -> nat;
  embeddings_create : list string -> result matrix;
  _ask_openai_for_cluster_name : list string -> result string;
  fit_transform : list string -> result matrix;
  fit_predict : Z -> matrix -> result (list nat)
}.

(** [str(n)] for a natural number. *)
Definition str_of_nat (n : nat) : string :=
  DecimalString.NilZero.string_of_uint (Nat.to_uint n).

Definition lower_string (s : string) : string :=
  string_of_list_ascii (Text.lower (list_ascii_of_string s)).

Fixpoint is_prefix (p s : Text.str) : bool :=
  match p, s with
  | [], _ => true
  | _ :: _, [] => false
  | a :: p', b :: s' => Ascii.eqb a b && is_prefix p' s'
  end.

(** [needle in hay] for strings. *)
Fixpoint contains (needle hay : Text.str) : bool :=
  is_prefix needle hay
  || match hay with
     | [] => false
     | _ :: hay' => contains needle hay'
     end.

Module TicketClusteringEngine.
Import TicketVectorStore.
Local Open Scope string_scope.
Local Open Scope list_scope.
Local Open Scope monad_scope.

Record t : Type := mk_engine {
  use_openai : bool;
  use_vector_store : bool;
  vector_store : option TicketVectorStore.t
}.

(** [TicketClusteringEngine(use_vector_store)]; [client_ok] tells that an
    API key is configured and the client could be constructed. *)
Definition __init__ (client_ok : bool) (use_vector_store : bool) : t :=
  mk_engine client_ok use_vector_store
    (if use_vector_store && client_ok
     then Some (create_vector_store 1536 flat)
     else None).

(** A method of the store called on [self.vector_store]. *)
Definition on_store {A : Type} (m : M TicketVectorStore.t A)
  (vs : TicketVectorStore.t) : M t A :=
  fun self =>
    let (r, vs') := m vs in
    (r, mk_engine (use_openai self) (use_vector_store self) (Some vs')).

(** [[tickets[i] for i in indices]] *)
Fixpoint getitems {A : Type} (l : list A) (indices : list nat)
  : result (list A) :=
  match indices with
  | [] => Ok []
  | i :: rest =>
      match nth_error l i, getitems l rest with
      | Some a, Ok r => Ok (a :: r)
      | None, _ => Raise IndexError
      | _, Raise e => Raise e
      end
  end.

(** The grouping loop: [clusters[label].append(i)] for each ticket. *)
Definition group_by_label (cluster_labels : list nat) : clusters_by_label :=
  fold_left
    (fun clusters il =>
       let '(i, label) := il in
       let clusters :=
         if Dict.mem Nat.eqb label clusters then clusters
         else Dict.set Nat.eqb label [] clusters in
       match Dict.get Nat.eqb label clusters with
       | Some indices => Dict.set Nat.eqb label (indices ++ [i]) clusters
       | None => clusters
       end)
    (combine (seq 0 (length cluster_labels)) cluster_labels)
    [].

(** The positions at which a label occurs in the label array, in
    increasing order. *)
Definition positions_of (label : nat) (cluster_labels : list nat)
  : list nat :=
  map fst
    (filter (fun il => (snd il =? label)%nat)
       (combine (seq 0 (length cluster_labels)) cluster_labels)).

Definition general_issues : string := "General Issues".

(** *** Rule-based names *)

Definition category_keywords : list (string * list string) :=
  [ ("Network Issues",
     ["vpn"; "connection"; "network"; "internet"; "wifi"; "ethernet"; "dns"]);
    ("Authentication Problems",
     ["password"; "login"; "access"; "account"; "authentication";
      "credentials"]);
    ("Email Issues",
     ["outlook"; "email"; "mail"; "exchange"; "smtp"; "inbox"]);
    ("Hardware Problems",
     ["printer"; "monitor"; "keyboard"; "mouse"; "hardware"; "device"]);
    ("Software Issues",
     ["application"; "software"; "program"; "install"; "update"; "crash"]);
    ("Phone Issues",
     ["phone"; "voip"; "call"; "dial"; "telephone"; "extension"]);
    ("Security Issues",
     ["virus"; "malware"; "security"; "firewall"; "antivirus"; "threat"]);
    ("File Access",
     ["file"; "folder"; "share"; "drive"; "storage"; "permission"]) ].

Definition keyword_score (cluster_text : string) (keywords : list string)
  : nat :=
  length
    (filter (fun keyword =>
               contains (list_ascii_of_string keyword)
                 (list_ascii_of_string cluster_text))
            keywords).

Definition best_matching_category (cluster_text : string) : string :=
  fst (fold_left
         (fun best ck =>
            let score := keyword_score cluster_text (snd ck) in
            if (snd best <? score)%nat then (fst ck, score) else best)
         category_keywords
         (general_issues, 0%nat)).

(** The loop [while best_category in named_clusters] with at most [fuel]
    rounds; [length named_clusters] rounds always reach a name that is not
    in the dictionary ([unique_name_fresh] below). *)
Fixpoint unique_name (fuel : nat) (named : named_clusters)
  (original_name best_category : string) (counter : nat) : string :=
  if Dict.mem String.eqb best_category named
  then match fuel with
       | O => best_category
       | S fuel' =>
           unique_name fuel' named original_name
             (original_name ++ " " ++ str_of_nat counter)%string (S counter)
       end
  else best_category.

(** The names that the uniqueness loop tries for [original_name], in
    order: the name itself, then the name with the suffix 1, 2, ... *)
Definition candidate (original_name : string) (j : nat) : string :=
  match j with
  | O => original_name
  | S _ => (original_name ++ " " ++ str_of_nat j)%string
  end.

Fixpoint rule_based_names_loop (tickets : list string)
  (items : list (nat * list nat)) (named : named_clusters)
  : result named_clusters :=
  match items with
  | [] => Ok named
  | (cluster_id, ticket_indices) :: rest =>
      match getitems tickets ticket_indices with
      | Raise e => Raise e
      | Ok selected =>
          let cluster_tickets := map lower_string selected in
          let cluster_text :=
            string_of_list_ascii
              (Text.join [Text.space]
                 (map list_ascii_of_string cluster_tickets)) in
          let original_name := best_matching_category cluster_text in
          let best_category :=
            unique_name (length named) named original_name original_name 1 in
          rule_based_names_loop tickets rest
            (Dict.set String.eqb best_category ticket_indices named)
      end
  end.

Definition _generate_rule_based_names (tickets : list string)
  (clusters : clusters_by_label) : result named_clusters :=
  rule_based_names_loop tickets clusters [].

(** *** Similarity refinement *)

Fixpoint remove_first (x : nat) (l : list nat) : list nat :=
  match l with
  | [] => []
  | y :: r => if (x =? y)%nat then r else y :: remove_first x r
  end.

Definition mem_nat (x : nat) (l : list nat) : bool :=
  existsb (Nat.eqb x) l.

Definition indices_of (cluster_id : nat) (clusters : clusters_by_label)
  : list nat :=
  match Dict.get Nat.eqb cluster_id clusters with
  | Some indices => indices
  | None => []
  end.

(** The body of the loop over the similar tickets.  [enhanced] stands for
    the lists shared by [clusters] and [enhanced_clusters]; the list of
    [cluster_id] is read again at every round, as the source reads the
    list object it appends to. *)
Definition move_similar_ticket (cluster_id : nat)
  (enhanced : clusters_by_label) (similar : similar_ticket)
  : clusters_by_label :=
  let ticket_idx := ticket_index (similar_metadata similar) in
  let score := similarity_score similar in
  let ticket_indices := indices_of cluster_id enhanced in
  if (if Rlt_dec (85 / 100) score then true else false)
     && negb (mem_nat ticket_idx ticket_indices)
  then
    match find (fun item => mem_nat ticket_idx (snd item)) enhanced with
    | Some (current_cluster, indices) =>
        if (length indices <=? 2)%nat
        then
          let enhanced :=
            Dict.set Nat.eqb current_cluster
              (remove_first ticket_idx indices) enhanced in
          Dict.set Nat.eqb cluster_id
            (indices_of cluster_id enhanced ++ [ticket_idx]) enhanced
        else enhanced
    | None => enhanced
    end
  else enhanced.

Definition enhance_cluster (vs : TicketVectorStore.t) (tickets : list string)
  (embeddings : matrix) (cluster_id : nat) : M clusters_by_label unit :=
  enhanced <- get ;;
  let ticket_indices := indices_of cluster_id enhanced in
  if (length ticket_indices <? 2)%nat then ret tt
  else
    match get_cluster_representatives ticket_indices embeddings with
    | None => ret tt
    | Some cluster_stats =>
        let representative_idx := representative_ticket_idx cluster_stats in
        representative_embedding <-
          lift (getitem embeddings (Z.of_nat representative_idx)) ;;
        similar_tickets <-
          lift (fst (search_similar_tickets representative_embedding
                       (Z.min 10 (Z.of_nat (length tickets))) (8 / 10) vs)) ;;
        put (fold_left (move_similar_ticket cluster_id) similar_tickets
               enhanced)
    end.

Fixpoint enhance_loop (vs : TicketVectorStore.t) (tickets : list string)
  (embeddings : matrix) (cluster_ids : list nat) : M clusters_by_label unit :=
  match cluster_ids with
  | [] => ret tt
  | cluster_id :: rest =>
      enhance_cluster vs tickets embeddings cluster_id ;;;
      enhance_loop vs tickets embeddings rest
  end.

(** After an exception the source returns [clusters], whose lists are the
    ones the loop has been changing. *)
Definition _enhance_clusters_with_similarity (vs : TicketVectorStore.t)
  (tickets : list string) (clusters : clusters_by_label)
  (embeddings : matrix) : clusters_by_label :=
  match enhance_loop vs tickets embeddings (map fst clusters) clusters with
  | (Ok _, enhanced) =>
      filter (fun item => match snd item with [] => false | _ => true end)
             enhanced
  | (Raise _, changed) => changed
  end.

(** A metadata entry of a batch, as [_cluster_with_openai] stores them:
    it pairs a position of the batch with the ticket at that position. *)
Definition of_batch (tickets : list string) (m : ticket_metadata) : Prop :=
  nth_error tickets (ticket_index m) = Some (description m).

(** *** Cluster insights *)

(** The dictionary of one cluster in the result of [get_cluster_insights];
    the key ["representative_index"] is there only when the statistics of
    the cluster could be computed. *)
Record cluster_insight : Type := mk_insight {
  insight_size : nat;
  insight_cohesion_score : R;
  representative_ticket : string;
  representative_index : option nat
}.

(** [tickets[i]] for a position [i]. *)
Definition ticket_at (tickets : list string) (i : nat) : result string :=
  match nth_error tickets i with
  | Some ticket => Ok ticket
  | None => Raise IndexError
  end.

(** The loop of [get_cluster_insights] over the clusters. *)
Fixpoint insights_loop (tickets : list string) (embeddings : matrix)
  (items : list (string * list nat)) (insights : Dict.t string cluster_insight)
  : result (Dict.t string cluster_insight) :=
  match items with
  | [] => Ok insights
  | (cluster_name, ticket_indices) :: rest =>
      if (length ticket_indices <? 2)%nat
      then
        match match ticket_indices with
              | i :: _ => ticket_at tickets i
              | [] => Ok ""
              end with
        | Raise e => Raise e
        | Ok representative =>
            insights_loop tickets embeddings rest
              (Dict.set String.eqb cluster_name
                 (mk_insight (length ticket_indices) 1%R representative None)
                 insights)
        end
      else
        match get_cluster_representatives ticket_indices embeddings with
        | Some cluster_stats =>
            let representative_idx :=
              representative_ticket_idx cluster_stats in
            match ticket_at tickets representative_idx with
            | Raise e => Raise e
            | Ok representative =>
                insights_loop tickets embeddings rest
                  (Dict.set String.eqb cluster_name
                     (mk_insight (size cluster_stats)
                        (cohesion_score cluster_stats) representative
                        (Some representative_idx))
                     insights)
            end
        | None =>
            match match ticket_indices with
                  | i :: _ => ticket_at tickets i
                  | [] => Raise IndexError
                  end with
            | Raise e => Raise e
            | Ok representative =>
                insights_loop tickets embeddings rest
                  (Dict.set String.eqb cluster_name
                     (mk_insight (length ticket_indices) 0%R representative
                        None)
                     insights)
            end
        end
  end.

Section Engine.

Variable env : collaborators.

Definition _generate_embeddings (tickets : list string) : M t matrix :=
  try_except
    (let processed_tickets := map _preprocess_ticket tickets in
     lift (embeddings_create env processed_tickets))
    (fun e => raise e).

(** The loop of [_generate_cluster_names].  The sample is taken outside
    the [try] block of the source, the naming request inside. *)
Fixpoint cluster_names_loop (tickets : list string)
  (items : list (nat * list nat)) (named : named_clusters)
  : result named_clusters :=
  match items with
  | [] => Ok named
  | (cluster_id, ticket_indices) :: rest =>
      match getitems tickets (firstn 5 ticket_indices) with
      | Raise e => Raise e
      | Ok sample_tickets =>
          let named :=
            match _ask_openai_for_cluster_name env sample_tickets with
            | Ok cluster_name =>
                Dict.set String.eqb cluster_name ticket_indices named
            | Raise _ =>
                Dict.set String.eqb
                  ("Issue Category " ++ str_of_nat (cluster_id + 1))%string
                  ticket_indices named
            end in
          cluster_names_loop tickets rest named
      end
  end.

Definition _generate_cluster_names (tickets : list string)
  (clusters : clusters_by_label) : result named_clusters :=
  cluster_names_loop tickets clusters [].

Definition _cluster_with_openai (tickets : list string)
  : M t named_clusters :=
  embeddings <- _generate_embeddings tickets ;;
  self <- get ;;
  match vector_store self with
  | Some vs =>
      let metadata :=
        map (fun it => mk_metadata (fst it) (snd it))
            (combine (seq 0 (length tickets)) tickets) in
      on_store (store_embeddings (trained_quantizer env) embeddings metadata)
               vs ;;;
      ret tt
  | None => ret tt
  end ;;;
  let n_clusters := _determine_cluster_count (Z.of_nat (length tickets)) in
  cluster_labels <- lift (fit_predict env n_clusters embeddings) ;;
  let clusters := group_by_label cluster_labels in
  self <- get ;;
  let clusters :=
    match vector_store self with
    | Some vs => _enhance_clusters_with_similarity vs tickets clusters
                   embeddings
    | None => clusters
    end in
  named_clusters <- lift (_generate_cluster_names tickets clusters) ;;
  ret named_clusters.

Definition _cluster_with_sklearn (tickets : list string)
  : M t named_clusters :=
  let processed_tickets := map _preprocess_ticket tickets in
  tfidf_matrix <- lift (fit_transform env processed_tickets) ;;
  let n_clusters := _determine_cluster_count (Z.of_nat (length tickets)) in
  cluster_labels <- lift (fit_predict env n_clusters tfidf_matrix) ;;
  let clusters := group_by_label cluster_labels in
  named_clusters <- lift (_generate_rule_based_names tickets clusters) ;;
  ret named_clusters.

Definition single_cluster (tickets : list string) : named_clusters :=
  [(general_issues, seq 0 (length tickets))].

Definition cluster_tickets (tickets : list string) : M t named_clusters :=
  if (length tickets =? 1)%nat then ret [(general_issues, [0%nat])]
  else
    try_except
      (self <- get ;;
       if use_openai self then _cluster_with_openai tickets
       else _cluster_with_sklearn tickets)
      (fun _ => ret (single_cluster tickets)).

Definition find_similar_tickets (query_ticket : string) (k : Z)
  : M t (list similar_ticket) :=
  self <- get ;;
  match vector_store self with
  | None => ret []
  | Some _ =>
      if negb (use_openai self) then ret []
      else
        try_except
          (embeddings <- _generate_embeddings [query_ticket] ;;
           query_embedding <- lift (getitem embeddings 0) ;;
           self <- get ;;
           match vector_store self with
           | Some vs =>
               on_store
                 (search_similar_tickets query_embedding k (5 / 10)) vs
           | None => raise AttributeError
           end)
          (fun _ => ret [])
  end.

Definition get_cluster_insights (tickets : list string)
  (clusters : named_clusters) : M t (Dict.t string cluster_insight) :=
  self <- get ;;
  match vector_store self with
  | None => ret []
  | Some _ =>
      try_except
        (embeddings <- _generate_embeddings tickets ;;
         lift (insights_loop tickets embeddings clusters []))
        (fun _ => ret [])
  end.

End Engine.
End TicketClusteringEngine.

(** The module level functions of [clustering.py]; [client_ok] as in
    [TicketClusteringEngine.__init__]. *)
Definition cluster_tickets (env : collaborators) (client_ok : bool)
  (tickets : list string) (use_vector_store : bool) : result named_clusters :=
  let engine := TicketClusteringEngine.__init__ client_ok use_vector_store in
  fst (TicketClusteringEngine.cluster_tickets env tickets engine).

Definition find_similar_tickets (env : collaborators) (client_ok : bool)
  (query_ticket : string) (tickets : list string) (k : Z)
  : result (list TicketVectorStore.similar_ticket) :=
  let engine := TicketClusteringEngine.__init__ client_ok true in
  match TicketClusteringEngine.cluster_tickets env tickets engine with
  | (Ok _, engine) =>
      fst (TicketClusteringEngine.find_similar_tickets env query_ticket k
             engine)
  | (Raise e, _) => Raise e
  end.

Definition get_cluster_insights (env : collaborators) (client_ok : bool)
  (tickets : list string) (clusters : named_clusters)
  : result (Dict.t string TicketClusteringEngine.cluster_insight) :=
  let engine := TicketClusteringEngine.__init__ client_ok true in
  fst (TicketClusteringEngine.get_cluster_insights env tickets clusters
         engine).

(** ** The validators of the request and of the response ([models.py]) *)

Module Models.
Local Open Scope string_scope.
Local Open Scope list_scope.

(** [s.strip()] on a string. *)
Definition strip (s : string) : string :=
  string_of_list_ascii (Text.strip (list_ascii_of_string s)).

(** [not s or not s.strip()] *)
Definition blank (s : string) : bool :=
  match s with
  | EmptyString => true
  | _ => match strip s with EmptyString => true | _ => false end
  end.

(** The loop of [TicketRequest.validate_tickets] over [enumerate(v)]. *)
Fixpoint check_tickets (i : nat) (v : list string) : result unit :=
  match v with
  | [] => Ok tt
  | ticket :: rest =>
      if blank ticket
      then Raise (ValueError ("Ticket " ++ str_of_nat i ++ " cannot be empty"))
      else if (String.length (strip ticket) <? 5)%nat
      then Raise (ValueError ("Ticket " ++ str_of_nat i
                              ++ " must be at least 5 characters long"))
      else if (500 <? String.length (strip ticket))%nat
      then Raise (ValueError ("Ticket " ++ str_of_nat i
                              ++ " must be less than 500 characters"))
      else check_tickets (S i) rest
  end.

Definition validate_tickets (v : list string) : result (list string) :=
  match v with
  | [] => Raise (ValueError "At least one ticket must be provided")
  | _ =>
      match check_tickets 0 v with
      | Raise e => Raise e
      | Ok _ => Ok (map strip v)
      end
  end.

(** The clusters of a response: names and lists of Python integers. *)
Definition clusters_t : Type := Dict.t string (list Z).

(** The first loop of [ClusterResult.validate_clusters], over the names. *)
Fixpoint check_names (names : list string) : result unit :=
  match names with
  | [] => Ok tt
  | cluster_name :: rest =>
      if blank cluster_name
      then Raise (ValueError "Cluster names cannot be empty")
      else if (50 <? String.length (strip cluster_name))%nat
      then Raise (ValueError "Cluster names must be less than 50 characters")
      else check_names rest
  end.

(** [str(idx)] for a Python integer. *)
Definition str_of_Z (z : Z) : string :=
  DecimalString.NilZero.string_of_int (Z.to_int z).

(** The inner loop over the indices of one cluster; it returns the indices
    seen so far. *)
Fixpoint check_indices (cluster_name : string) (indices : list Z)
  (all_indices : list Z) : result (list Z) :=
  match indices with
  | [] => Ok all_indices
  | idx :: rest =>
      if (idx <? 0)%Z
      then Raise (ValueError ("Invalid ticket index " ++ str_of_Z idx
                              ++ " in cluster '" ++ cluster_name ++ "'"))
      else if existsb (Z.eqb idx) all_indices
      then Raise (ValueError ("Ticket index " ++ str_of_Z idx
                              ++ " appears in multiple clusters"))
      else check_indices cluster_name rest (all_indices ++ [idx])
  end.

(** The second loop, over the items. *)
Fixpoint check_items (items : list (string * list Z)) (all_indices : list Z)
  : result unit :=
  match items with
  | [] => Ok tt
  | (cluster_name, indices) :: rest =>
      match indices with
      | [] => Raise (ValueError ("Cluster '" ++ cluster_name
                                 ++ "' cannot be empty"))
      | _ =>
          match check_indices cluster_name indices all_indices with
          | Raise e => Raise e
          | Ok all_indices => check_items rest all_indices
          end
      end
  end.

Definition validate_clusters (v : clusters_t) : result clusters_t :=
  match v with
  | [] => Raise (ValueError "At least one cluster must be generated")
  | _ =>
      if (10 <? length v)%nat
      then Raise (ValueError "Maximum of 10 clusters allowed")
      else
        match check_names (map fst v) with
        | Raise e => Raise e
        | Ok _ =>
            match check_items v [] with
            | Raise e => Raise e
            | Ok _ => Ok v
            end
        end
  end.

(** The clusters of [cluster_tickets] as the response model receives
    them. *)
Definition response_clusters (named : named_clusters) : clusters_t :=
  map (fun item => (fst item, map Z.of_nat (snd item))) named.

End Models.

(** ** Collaborators for the examples *)

Module Examples.
Import TicketVectorStore.
Local Open Scope string_scope.
Local Open Scope list_scope.

Definition vpn_down : ticket_metadata := mk_metadata 0 "vpn down".
Definition printer_jam : ticket_metadata := mk_metadata 1 "printer jam".

(** A flat store of dimension 2 that holds the two unit vectors. *)
Definition two_axes : TicketVectorStore.t :=
  mk_store 2 flat
    (Faiss.mk_index 2 Faiss.IndexFlatIP true (fun _ => 0%nat)
       [[1; 0]; [0; 1]]%R)
    [vpn_down; printer_jam] true.

(** Three tickets, as in [test_openai_integration_success]. *)
Definition three_tickets : list string :=
  ["VPN connection fails on Windows 10";
   "Cannot connect to VPN from home";
   "Outlook password reset needed"].

(** A provider that answers, a k-means that puts the two VPN tickets
    together, and a naming request that answers "Network Issues" for every
    cluster, as the mock of [test_openai_integration_success] does. *)
Definition one_name_for_all : collaborators :=
  mk_collaborators
    (fun _ _ => 0%nat)
    (fun _ => Ok [[1; 0]; [1; 0]; [0; 1]]%R)
    (fun _ => Ok "Network Issues")
    (fun _ => Ok [[1; 0]; [1; 0]; [0; 1]]%R)
    (fun _ _ => Ok [0; 0; 1]%nat).

(** A provider that raises on every call, next to a scikit-learn that
    works. *)
Definition provider_down : collaborators :=
  mk_collaborators
    (fun _ _ => 0%nat)
    (fun _ => Raise (ProviderError "insufficient_quota"))
    (fun _ => Raise (ProviderError "insufficient_quota"))
    (fun _ => Ok [[1; 0]; [1; 0]; [0; 1]]%R)
    (fun _ _ => Ok [0; 0; 1]%nat).

(** No provider, and a scikit-learn that gives every text the same vector
    and every row the label 0. *)
Definition local_only : collaborators :=
  mk_collaborators
    (fun _ _ => 0%nat)
    (fun _ => Raise (ProviderError "no client"))
    (fun _ => Raise (ProviderError "no client"))
    (fun texts => Ok (map (fun _ => [1; 0]%R) texts))
    (fun _ x => Ok (map (fun _ => 0%nat) x)).

(** A provider that answers: every text gets the same embedding, k-means
    gives the rows the labels 0 and 1 in turn, and the naming request
    answers with its first sample ticket. *)
Definition provider_up : collaborators :=
  mk_collaborators
    (fun _ _ => 0%nat)
    (fun texts => Ok (map (fun _ => [1; 0]%R) texts))
    (fun sample => Ok (match sample with
                       | ticket :: _ => ticket
                       | [] => "General Issues"
                       end))
    (fun texts => Ok (map (fun _ => [1; 0]%R) texts))
    (fun _ x => Ok (map (fun i => (i mod 2)%nat) (seq 0 (length x)))).



End Examples.

(* ================================================================== *)
(** * Part II: theorems *)
(* ================================================================== *)

Example preprocess_vpn :
  _preprocess_ticket "VPN Connection Failed!" = "vpn connection failed"%string.
Proof. reflexivity. Qed.

Example preprocess_email :
  _preprocess_ticket "Email@domain.com not working!!!"
  = "email domain com not working"%string.
Proof. reflexivity. Qed.

Example preprocess_underscore :
  _preprocess_ticket " a_b  Cd! e " = "a_b cd"%string.
Proof. reflexivity. Qed.

(** ** The cluster count heuristic *)

Example cluster_count_samples :
  map _determine_cluster_count [1; 2; 5; 15; 100]%Z = [1; 1; 2; 4; 10]%Z.
Proof. reflexivity. Qed.

(** C6.  For every ticket count [n >= 1] the heuristic returns 1 for
    [n <= 2], 2 for [3 <= n <= 5], 3 for [6 <= n <= 10], [min 4 (n / 3)] for
    [11 <= n <= 20], [min 6 (n / 5)] for [21 <= n <= 50] and
    [min 10 (n / 8)] above 50, and the result lies between 1 and 10. *)
Theorem determine_cluster_count_policy (n : Z) (Hn : (1 <= n)%Z) :
  let k := _determine_cluster_count n in
  ((n <= 2 -> k = 1)
   /\ (3 <= n <= 5 -> k = 2)
   /\ (6 <= n <= 10 -> k = 3)
   /\ (11 <= n <= 20 -> k = Z.min 4 (n / 3))
   /\ (21 <= n <= 50 -> k = Z.min 6 (n / 5))
   /\ (50 < n -> k = Z.min 10 (n / 8))
   /\ 1 <= k <= 10)%Z.
Proof.
  unfold _determine_cluster_count.
  repeat match goal with
         | |- context [(?a <=? ?b)%Z] => destruct (Z.leb_spec a b)
         end;
    repeat split; intros; try lia.
  - assert (3 <= n / 3)%Z by (apply Z.div_le_lower_bound; lia). lia.
  - assert (4 <= n / 5)%Z by (apply Z.div_le_lower_bound; lia). lia.
  - assert (6 <= n / 8)%Z by (apply Z.div_le_lower_bound; lia). lia.
Qed.

Lemma determine_cluster_count_policy_witness :
  (1 <= 17)%Z /\ _determine_cluster_count 17 = 4%Z.
Proof.
  split; [lia |].
  apply (determine_cluster_count_policy (n := 17)); lia.
Defined.

(** ** The text normalizer *)

Section TextFacts.
Import Text.

(** *** Characters *)

Ltac by_cases_on_char c :=
  destruct c as [[] [] [] [] [] [] [] []]; vm_compute; try reflexivity;
  try discriminate; auto.

Lemma lower_char_idempotent (c : ascii) :
  lower_char (lower_char c) = lower_char c.
Proof. by_cases_on_char c. Qed.

Lemma isword_not_space (c : ascii) : isword c = true -> isspace c = false.
Proof. by_cases_on_char c. Qed.

Lemma isspace_space : isspace space = true.
Proof. reflexivity. Qed.

Lemma eqb_space_isspace (c : ascii) :
  isspace c = false -> Ascii.eqb c space = false.
Proof. by_cases_on_char c. Qed.

(** *** Words *)

Lemma rev_not_nil (A : Type) (l : list A) : l <> [] -> rev l <> [].
Proof.
  destruct l as [|a l]; [congruence |].
  intros _ H. apply (f_equal (@length A)) in H.
  rewrite length_rev in H. discriminate.
Qed.

Lemma nospace_rev (w : str) : nospace w -> nospace (rev w).
Proof. unfold nospace. apply Forall_rev. Qed.

Lemma split_from_good (s cur : str) :
  nospace cur -> good_words (split_from cur s).
Proof.
  revert cur. induction s as [|c r IH]; intros cur Hcur; simpl.
  - destruct cur as [|a cur']; constructor; [|constructor].
    split; [apply rev_not_nil; discriminate | now apply nospace_rev].
  - destruct (isspace c) eqn:Hc.
    + destruct cur as [|a cur'].
      * apply IH. constructor.
      * constructor; [|apply IH; constructor].
        split; [apply rev_not_nil; discriminate | now apply nospace_rev].
    + apply IH. constructor; assumption.
Qed.

Lemma split_good (s : str) : good_words (split s).
Proof. apply split_from_good. constructor. Qed.

(** Every character of every word of [split s] is a character of [s]. *)
Lemma split_from_Forall (P : ascii -> Prop) (s cur : str) :
  Forall P cur -> Forall P s -> Forall (Forall P) (split_from cur s).
Proof.
  revert cur. induction s as [|c r IH]; intros cur Hcur Hs; simpl.
  - destruct cur; constructor; [now apply Forall_rev | constructor].
  - inversion Hs; subst.
    destruct (isspace c).
    + destruct cur as [|a cur'].
      * apply IH; auto.
      * constructor; [now apply Forall_rev | apply IH; auto].
    + apply IH; auto.
Qed.

Lemma split_from_word (w cur s : str) :
  nospace w -> split_from cur (w ++ s) = split_from (rev w ++ cur) s.
Proof.
  revert cur. induction w as [|c w IH]; intros cur Hw; simpl; [reflexivity |].
  inversion Hw as [|? ? Hc Hw']; subst. rewrite Hc.
  rewrite IH by assumption. now rewrite <- app_assoc.
Qed.

Lemma join_cons2 (sep w w' : str) (ws : list str) :
  join sep (w :: w' :: ws) = w ++ sep ++ join sep (w' :: ws).
Proof. reflexivity. Qed.

(** [split] undoes [join] on good words. *)
Lemma split_join (ws : list str) :
  good_words ws -> split (join [space] ws) = ws.
Proof.
  unfold split. induction ws as [|w ws IH]; intros Hws; [reflexivity |].
  inversion Hws as [|? ? [Hne Hw] Hws']; subst.
  destruct ws as [|w' ws'].
  - simpl. rewrite <- (app_nil_r w) at 1.
    rewrite split_from_word by assumption. simpl. rewrite app_nil_r.
    destruct (rev w) eqn:E; [now apply rev_not_nil in E |].
    now rewrite <- E, rev_involutive.
  - rewrite join_cons2, split_from_word by assumption.
    rewrite app_nil_r. cbn [app split_from]. rewrite isspace_space.
    destruct (rev w) eqn:E; [now apply rev_not_nil in E |].
    rewrite <- E, rev_involutive. f_equal. now apply IH.
Qed.

(** *** Stripping *)

Lemma lstrip_decompose (s : str) :
  exists l, allspace l /\ s = l ++ lstrip s.
Proof.
  induction s as [|c r [l [Hl E]]]; simpl.
  - exists []. split; [constructor | reflexivity].
  - destruct (isspace c) eqn:Hc.
    + exists (c :: l). split; [now constructor | simpl; congruence].
    + exists []. split; [constructor | reflexivity].
Qed.

Lemma strip_decompose (s : str) :
  exists l r, allspace l /\ allspace r /\ s = l ++ strip s ++ r.
Proof.
  destruct (lstrip_decompose s) as [l [Hl El]].
  destruct (lstrip_decompose (rev (lstrip s))) as [r [Hr Er]].
  exists l, (rev r). split; [assumption |]. split.
  - now apply Forall_rev.
  - unfold strip, rstrip. rewrite <- rev_app_distr, <- Er, rev_involutive.
    exact El.
Qed.

Lemma lstrip_head (c : ascii) (s : str) :
  isspace c = false -> lstrip (c :: s) = c :: s.
Proof. intros H. simpl. now rewrite H. Qed.

Lemma join_good_not_nil (w : str) (ws : list str) :
  w <> [] -> join [space] (w :: ws) <> [].
Proof.
  intros Hw. destruct ws; simpl; [assumption |].
  destruct w; [congruence | discriminate].
Qed.

(** A joined list of good words neither starts nor ends with whitespace. *)
Lemma join_good_ends (ws : list str) :
  good_words ws ->
  let y := join [space] ws in
  (y = [] \/ exists c r, y = c :: r /\ isspace c = false)
  /\ (y = [] \/ exists r c, y = r ++ [c] /\ isspace c = false).
Proof.
  induction ws as [|w ws IH]; intros Hws; [simpl; auto |].
  inversion Hws as [|? ? [Hne Hw] Hws']; subst.
  assert (Hlast : exists r c, w = r ++ [c] /\ isspace c = false).
  { destruct (exists_last Hne) as [r [c E]]. exists r, c. split; [exact E |].
    subst w. unfold nospace in Hw. rewrite Forall_app in Hw.
    destruct Hw as [_ Hc]. now inversion Hc. }
  assert (Hfirst : exists c r, w = c :: r /\ isspace c = false).
  { destruct w as [|c r]; [congruence |]. exists c, r. split; [reflexivity |].
    now inversion Hw. }
  destruct ws as [|w' ws'].
  - simpl. split; right; assumption.
  - rewrite join_cons2. split; right.
    + destruct Hfirst as [c [r [E Hc]]]. subst w. simpl. eauto.
    + destruct (IH Hws') as [_ [Hnil | [r [c [E Hc]]]]].
      * inversion Hws' as [|? ? [Hne' _] _]; subst.
        now apply (@join_good_not_nil w' ws') in Hne'.
      * exists (w ++ [space] ++ r), c. split; [|assumption].
        cbv zeta in E. rewrite E. now rewrite !app_assoc.
Qed.

Lemma strip_join_good (ws : list str) :
  good_words ws -> strip (join [space] ws) = join [space] ws.
Proof.
  intros Hws. destruct (join_good_ends Hws) as [Hfirst Hlast]. cbv zeta in *.
  unfold strip, rstrip.
  assert (El : lstrip (join [space] ws) = join [space] ws).
  { destruct Hfirst as [-> | [c [r [-> Hc]]]]; [reflexivity |].
    now apply lstrip_head. }
  rewrite El.
  destruct Hlast as [-> | [r [c [-> Hc]]]]; [reflexivity |].
  rewrite rev_app_distr. simpl. rewrite Hc. simpl.
  now rewrite rev_involutive.
Qed.

(** *** The two substitutions *)

Lemma sub_spaces_from_word (w s : str) (b : bool) :
  nospace w -> w <> [] ->
  sub_spaces_from b (w ++ s) = w ++ sub_spaces_from false s.
Proof.
  revert b. induction w as [|c w IH]; intros b Hw Hne; [congruence |].
  inversion Hw as [|? ? Hc Hw']; subst. simpl. rewrite Hc. f_equal.
  destruct w as [|c' w']; [reflexivity |].
  apply IH; [assumption | discriminate].
Qed.

Lemma sub_spaces_from_join_good (ws : list str) (b : bool) :
  good_words ws -> sub_spaces_from b (join [space] ws) = join [space] ws.
Proof.
  revert b. induction ws as [|w ws IH]; intros b Hws; [reflexivity |].
  inversion Hws as [|? ? [Hne Hw] Hws']; subst.
  destruct ws as [|w' ws'].
  - simpl. rewrite <- (app_nil_r w) at 1.
    rewrite sub_spaces_from_word by assumption. simpl. apply app_nil_r.
  - rewrite join_cons2, sub_spaces_from_word by assumption.
    cbn [app sub_spaces_from]. rewrite isspace_space.
    now rewrite IH.
Qed.

Lemma sub_special_fixed (keep : ascii -> bool) (s : str) :
  Forall (fun c => (keep c || isspace c) = true) s -> sub_special keep s = s.
Proof.
  unfold sub_special. induction 1 as [|c r Hc _ IH]; simpl; [reflexivity |].
  now rewrite Hc, IH.
Qed.

Lemma lower_fixed (s : str) :
  Forall (fun c => lower_char c = c) s -> lower s = s.
Proof.
  unfold lower. induction 1 as [|c r Hc _ IH]; simpl; [reflexivity |].
  now rewrite Hc, IH.
Qed.

(** [split] does not see the collapsing of whitespace runs. *)
Lemma split_from_sub_spaces (s cur : str) (b : bool) :
  (b = true -> cur = []) ->
  split_from cur (sub_spaces_from b s) = split_from cur s.
Proof.
  revert cur b. induction s as [|c r IH]; intros cur b Hb; [reflexivity |].
  simpl. destruct (isspace c) eqn:Hc.
  - destruct b.
    + rewrite (Hb eq_refl). apply IH. auto.
    + simpl. destruct cur; rewrite IH; auto.
  - simpl. rewrite Hc. apply IH. discriminate.
Qed.

Lemma split_from_allspace_l (l s : str) :
  allspace l -> split_from [] (l ++ s) = split_from [] s.
Proof.
  induction 1 as [|c l Hc _ IH]; simpl; [reflexivity |]. now rewrite Hc.
Qed.

Lemma split_from_allspace_r (s r cur : str) :
  allspace r -> split_from cur (s ++ r) = split_from cur s.
Proof.
  intros Hr. revert cur. induction s as [|c s IH]; intros cur; simpl.
  - revert cur. induction Hr as [|c r Hc _ IH]; intros cur; [reflexivity |].
    simpl. rewrite Hc. destruct cur; rewrite IH; reflexivity.
  - destruct (isspace c); [destruct cur|]; now rewrite IH.
Qed.

Lemma sub_special_allspace (keep : ascii -> bool) (l : str) :
  allspace l -> allspace (sub_special keep l).
Proof.
  unfold sub_special. induction 1 as [|c l Hc _ IH]; simpl; constructor; auto.
  now rewrite Hc, orb_true_r.
Qed.

(** [split] after the substitution does not see the stripping either. *)
Lemma split_sub_special_strip (keep : ascii -> bool) (s : str) :
  split (sub_special keep (strip s)) = split (sub_special keep s).
Proof.
  destruct (strip_decompose s) as [l [r [Hl [Hr E]]]].
  rewrite E at 2. unfold split, sub_special. rewrite !map_app.
  rewrite split_from_allspace_l by now apply sub_special_allspace.
  rewrite split_from_allspace_r by now apply sub_special_allspace.
  reflexivity.
Qed.

(** *** Splitting on the space character *)

(** In a text whose only whitespace is the space character, [split] yields
    the non-empty fields of [split_on space]. *)
Lemma split_from_split_on (s cur : str) :
  Forall (fun c => isspace c = true -> c = space) s ->
  split_from cur s = filter not_nil (split_on_from space cur s).
Proof.
  intros Hs. revert cur. induction Hs as [|c r Hc _ IH]; intros cur; simpl.
  - destruct cur as [|a cur']; [reflexivity |].
    destruct (rev (a :: cur')) eqn:E; [|reflexivity].
    apply rev_not_nil in E; [contradiction | discriminate].
  - destruct (isspace c) eqn:Hsp.
    + rewrite (Hc eq_refl). simpl. rewrite <- IH.
      destruct cur as [|a cur']; [reflexivity |].
      destruct (rev (a :: cur')) eqn:E; [|reflexivity].
      apply rev_not_nil in E; [contradiction | discriminate].
    + rewrite (eqb_space_isspace _ Hsp). apply IH.
Qed.

Lemma sub_spaces_from_only_space (s : str) (b : bool) :
  Forall (fun c => isspace c = true -> c = space) (sub_spaces_from b s).
Proof.
  revert b. induction s as [|c r IH]; intros b; simpl; [constructor |].
  destruct (isspace c) eqn:Hc.
  - destruct b; [apply IH | constructor; [reflexivity | apply IH]].
  - constructor; [congruence | apply IH].
Qed.

Lemma filter_long_enough_not_nil (l : list str) :
  filter long_enough (filter not_nil l) = filter long_enough l.
Proof.
  induction l as [|w l IH]; simpl; [reflexivity |].
  destruct w as [|c w]; simpl; [assumption |]. now rewrite IH.
Qed.

Lemma filter_idempotent (A : Type) (f : A -> bool) (l : list A) :
  filter f (filter f l) = filter f l.
Proof.
  induction l as [|a l IH]; simpl; [reflexivity |].
  destruct (f a) eqn:E; simpl; [rewrite E|]; now rewrite IH.
Qed.

Lemma good_words_filter (f : str -> bool) (ws : list str) :
  good_words ws -> good_words (filter f ws).
Proof.
  unfold good_words. rewrite !Forall_forall. intros H w Hin.
  apply filter_In in Hin. now apply H.
Qed.

(** *** The characters of the result *)

Lemma normal_char_space : normal_char space.
Proof. split; reflexivity. Qed.

Lemma strip_Forall (P : ascii -> Prop) (s : str) :
  Forall P s -> Forall P (strip s).
Proof.
  destruct (strip_decompose s) as [l [r [_ [_ E]]]].
  intros H. rewrite E in H. apply Forall_app in H as [_ H].
  now apply Forall_app in H as [H _].
Qed.

Lemma lower_Forall (s : str) : Forall (fun c => lower_char c = c) (lower s).
Proof.
  unfold lower. apply Forall_map, Forall_forall.
  intros c _. apply lower_char_idempotent.
Qed.

Lemma sub_special_normal (s : str) :
  Forall (fun c => lower_char c = c) s ->
  Forall normal_char (sub_special isword s).
Proof.
  unfold sub_special. induction 1 as [|c r Hc _ IH]; simpl; constructor; auto.
  destruct (isword c || isspace c) eqn:E;
    [split; assumption | apply normal_char_space].
Qed.

Lemma sub_spaces_from_Forall (P : ascii -> Prop) (s : str) (b : bool) :
  P space -> Forall P s -> Forall P (sub_spaces_from b s).
Proof.
  intros Hsp Hs. revert b.
  induction Hs as [|c r Hc _ IH]; intros b; simpl; [constructor |].
  destruct (isspace c); [destruct b|]; auto.
Qed.

Lemma join_Forall (P : ascii -> Prop) (ws : list str) :
  P space -> Forall (Forall P) ws -> Forall P (join [space] ws).
Proof.
  intros Hsp. induction 1 as [|w ws Hw Hws IH]; [constructor |].
  destruct ws as [|w' ws']; [exact Hw |].
  rewrite join_cons2. apply Forall_app. split; [exact Hw |].
  constructor; assumption.
Qed.

Lemma filter_Forall (A : Type) (P : A -> Prop) (f : A -> bool) (l : list A) :
  Forall P l -> Forall P (filter f l).
Proof.
  rewrite !Forall_forall. intros H a Hin. apply filter_In in Hin. now apply H.
Qed.

(** The result of [preprocess] is made of lower-case word characters and
    single spaces between words of at least two characters. *)
Lemma preprocess_normal (ticket : str) :
  Forall normal_char (preprocess ticket).
Proof.
  unfold preprocess. apply join_Forall; [apply normal_char_space |].
  apply filter_Forall, split_from_Forall; [constructor |].
  apply sub_spaces_from_Forall; [apply normal_char_space |].
  apply sub_special_normal, strip_Forall, lower_Forall.
Qed.

Lemma preprocess_shape (ticket : str) :
  exists ws, good_words ws /\ filter long_enough ws = ws
             /\ preprocess ticket = join [space] ws.
Proof.
  eexists. split; [|split; [|reflexivity]].
  - apply good_words_filter, split_good.
  - apply filter_idempotent.
Qed.

Lemma preprocess_idempotent (ticket : str) :
  preprocess (preprocess ticket) = preprocess ticket.
Proof.
  pose proof (preprocess_normal ticket) as Hn.
  destruct (preprocess_shape ticket) as [ws [Hws [Hlong E]]].
  rewrite E in *. unfold preprocess.
  rewrite lower_fixed
    by (eapply Forall_impl; [|exact Hn]; now intros c [H _]).
  rewrite strip_join_good by assumption.
  rewrite sub_special_fixed
    by (eapply Forall_impl; [|exact Hn]; now intros c [_ H]).
  unfold sub_spaces. rewrite sub_spaces_from_join_good by assumption.
  rewrite split_join by assumption.
  now rewrite Hlong.
Qed.

(** The source's order of steps (strip first, split on any whitespace) and
    the specification's (split on the space, trim last) agree. *)
Lemma preprocess_normalize_spec (ticket : str) :
  preprocess ticket = normalize_spec isword ticket.
Proof.
  unfold preprocess, normalize_spec.
  assert (E : filter long_enough
                (split (sub_spaces (sub_special isword (strip (lower ticket)))))
              = filter long_enough
                  (split_on space
                     (sub_spaces (sub_special isword (lower ticket))))).
  { unfold split at 1, sub_spaces at 1.
    rewrite split_from_sub_spaces by discriminate.
    fold (split (sub_special isword (strip (lower ticket)))).
    rewrite split_sub_special_strip.
    unfold split, split_on.
    rewrite <- (@split_from_sub_spaces _ [] false) by discriminate.
    fold (sub_spaces (sub_special isword (lower ticket))).
    rewrite split_from_split_on by apply sub_spaces_from_only_space.
    apply filter_long_enough_not_nil. }
  rewrite <- E.
  symmetry. apply strip_join_good, good_words_filter, split_good.
Qed.

End TextFacts.

Example normalize_as_specified_underscore :
  normalize_as_specified "a_b" = ""%string.
Proof. reflexivity. Qed.

(** C5, as stated, at the ticket [a_b]: the specification's normalizer
    replaces the underscore, which is not alphanumeric, by a space and then
    drops both one-letter tokens, while the source keeps [a_b]. *)
Lemma preprocess_ticket_keeps_underscore :
  _preprocess_ticket "a_b" = "a_b"%string
  /\ _preprocess_ticket "a_b" <> normalize_as_specified "a_b".
Proof. split; [reflexivity | discriminate]. Qed.

(** C5, amended.  For every text the normalizer lower-cases it, replaces
    every character that is neither a word character of the regular
    expression class [\w] (a letter, a digit or the underscore) nor
    whitespace by a space, collapses the runs of whitespace, drops the
    tokens shorter than two characters and trims; it is a total function. *)
Theorem preprocess_ticket_normalizes (ticket : string) :
  _preprocess_ticket ticket = normalize_word_class ticket.
Proof.
  unfold _preprocess_ticket, normalize_word_class.
  now rewrite preprocess_normalize_spec.
Qed.

(** C9.  The normalizer is idempotent. *)
Theorem preprocess_ticket_idempotent (x : string) :
  _preprocess_ticket (_preprocess_ticket x) = _preprocess_ticket x.
Proof.
  unfold _preprocess_ticket.
  now rewrite list_ascii_of_string_of_list_ascii, preprocess_idempotent.
Qed.

(** ** The vector store: insertion *)

Section StoreInsert.
Import TicketVectorStore.

Variable trained_quantizer : matrix -> vector -> nat.

Ltac run_monad :=
  unfold try_except, bind, get, put, ret, raise, lift, _initialize_index;
  cbn [fst snd].

(** Mismatched lengths: the [ValueError] is raised inside the [try] block
    and caught by its own handler. *)
Lemma store_embeddings_length_mismatch (embeddings : matrix)
  (md : list ticket_metadata) (st : t) :
  length embeddings <> length md ->
  store_embeddings trained_quantizer embeddings md st = (Ok false, st).
Proof.
  intros H. unfold TicketVectorStore.store_embeddings. run_monad.
  apply Nat.eqb_neq in H. now rewrite H.
Qed.

Lemma length_normalize_embeddings (embeddings : matrix) :
  length (_normalize_embeddings embeddings) = length embeddings.
Proof. apply length_map. Qed.

Lemma inserts_app (bs bs' : list (matrix * list ticket_metadata)) (st : t) :
  inserts trained_quantizer (bs ++ bs') st
  = inserts trained_quantizer bs' (inserts trained_quantizer bs st).
Proof. unfold inserts. apply fold_left_app. Qed.

Lemma consistent_init (dim : nat) (ty : index_type_t) :
  consistent (__init__ dim ty).
Proof. destruct ty; repeat split; cbn; try reflexivity; discriminate. Qed.

(** One insertion into a consistent store: all of the batch or nothing. *)
Lemma store_embeddings_step (embeddings : matrix)
  (md : list ticket_metadata) (st : t) :
  consistent st ->
  let out := store_embeddings trained_quantizer embeddings md st in
  (out = (Ok true,
          appended trained_quantizer (_normalize_embeddings embeddings) md st)
   /\ length embeddings = length md)
  \/ out = (Ok false, st).
Proof.
  intros (Hdim & Htr & Hkind & Hfresh & Hlen). cbv zeta.
  unfold TicketVectorStore.store_embeddings. run_monad.
  destruct (length embeddings =? length md)%nat eqn:El; cbn [negb];
    [apply Nat.eqb_eq in El | now right].
  rewrite length_normalize_embeddings.
  destruct st as [dim ty ix mds tr];
    cbn [dimension index_type index metadata is_trained] in *.
  destruct tr; cbn [negb andb].
  - (* a trained index *)
    cbn. unfold Faiss.add. rewrite Htr.
    destruct (Faiss.well_shaped ix (_normalize_embeddings embeddings));
      cbn; [|now right].
    left. split; [reflexivity | assumption].
  - destruct ty; cbn [negb andb index_type]; [now right |].
    (* an inverted file index that is not trained yet *)
    rewrite (Hfresh eq_refl) in *. clear Hfresh.
    destruct (100 <=? length embeddings)%nat eqn:Ebig.
    + unfold Faiss.train, Faiss.add. cbn [index is_trained].
      rewrite length_normalize_embeddings.
      apply Nat.leb_le in Ebig.
      replace (length embeddings <? Faiss.nlist)%nat with false
        by (symmetry; apply Nat.ltb_ge; unfold Faiss.nlist; lia).
      destruct (Faiss.well_shaped (Faiss.new_ivf dim)
                  (_normalize_embeddings embeddings)) eqn:Eshape;
        cbn [negb]; [|now right].
      cbn -[Faiss.well_shaped].
      unfold Faiss.well_shaped in *. cbn [Faiss.d Faiss.new_ivf] in *.
      rewrite Eshape. cbn [negb].
      left. split; [reflexivity | assumption].
    + cbn. now right.
Qed.

Lemma consistent_appended (embeddings : matrix) (md : list ticket_metadata)
  (st : t) :
  consistent st -> length embeddings = length md ->
  consistent
    (appended trained_quantizer (_normalize_embeddings embeddings) md st).
Proof.
  intros (Hdim & Htr & Hkind & Hfresh & Hlen) El.
  repeat split; cbn; try assumption; try discriminate.
  unfold Faiss.ntotal in *. cbn.
  rewrite !length_app, length_normalize_embeddings. lia.
Qed.

Lemma consistent_store_embeddings (embeddings : matrix)
  (md : list ticket_metadata) (st : t) :
  consistent st ->
  consistent (snd (store_embeddings trained_quantizer embeddings md st)).
Proof.
  intros Hst.
  destruct (store_embeddings_step embeddings md Hst) as [[E El] | E];
    cbv zeta in E; rewrite E; cbn [snd]; [|assumption].
  now apply consistent_appended.
Qed.

Lemma consistent_inserts (batches : list (matrix * list ticket_metadata))
  (st : t) :
  consistent st -> consistent (inserts trained_quantizer batches st).
Proof.
  unfold inserts. revert st.
  induction batches as [|b bs IH]; intros st Hst; [exact Hst |].
  cbn [fold_left]. apply IH. now apply consistent_store_embeddings.
Qed.

(** C8.  In a store built by the constructor and any sequence of
    insertions, one more call of [store_embeddings] either returns [True]
    after appending the whole normalized batch to the index and the whole
    metadata batch to the metadata list, or returns [False] and leaves the
    store as it was; afterwards the metadata list is as long as the index
    holds vectors. *)
Theorem store_embeddings_all_or_nothing (dim : nat) (ty : index_type_t)
  (history : list (matrix * list ticket_metadata))
  (embeddings : matrix) (md : list ticket_metadata) :
  let st := inserts trained_quantizer history (__init__ dim ty) in
  let out := store_embeddings trained_quantizer embeddings md st in
  ((fst out = Ok true
    /\ length embeddings = length md
    /\ Faiss.xb (index (snd out))
       = Faiss.xb (index st) ++ _normalize_embeddings embeddings
    /\ metadata (snd out) = metadata st ++ md)
   \/ (fst out = Ok false /\ snd out = st))
  /\ length (metadata (snd out)) = Faiss.ntotal (index (snd out)).
Proof.
  intros st out.
  assert (Hst : consistent st) by apply consistent_inserts, consistent_init.
  split.
  - destruct (store_embeddings_step embeddings md Hst) as [[E El] | E];
      cbv zeta in E; subst out; rewrite E; cbn [fst snd]; [left | right].
    + repeat split; try reflexivity. assumption.
    + split; reflexivity.
  - apply (consistent_store_embeddings embeddings md Hst).
Qed.

(** C3, amended.  When the number of vectors differs from the number of
    metadata entries, [store_embeddings] rejects the batch by returning
    [False]: the [ValueError] it raises is caught by the handler of the
    same method, nothing is raised to the caller, and the store is left
    unchanged. *)
Theorem store_embeddings_rejects_mismatch (embeddings : matrix)
  (md : list ticket_metadata) (st : t)
  (Hmismatch : length embeddings <> length md) :
  store_embeddings trained_quantizer embeddings md st = (Ok false, st)
  /\ ~ raises (fst (store_embeddings trained_quantizer embeddings md st)).
Proof.
  rewrite store_embeddings_length_mismatch by assumption.
  split; [reflexivity |]. intros [e He]. discriminate He.
Qed.

End StoreInsert.

Lemma store_embeddings_rejects_mismatch_witness :
  let tq := fun (_ : matrix) (_ : vector) => 0%nat in
  let st := TicketVectorStore.__init__ 1 TicketVectorStore.flat in
  length [[1%R]] <> length (@nil TicketVectorStore.ticket_metadata)
  /\ TicketVectorStore.store_embeddings tq [[1%R]] [] st = (Ok false, st).
Proof.
  split; [discriminate |].
  apply (@store_embeddings_rejects_mismatch
           (fun _ _ => 0%nat) [[1%R]] []
           (TicketVectorStore.__init__ 1 TicketVectorStore.flat)).
  discriminate.
Defined.

(** C3, as stated, at one vector without metadata: the claim wants the
    mismatch raised to the caller, the source returns [False]. *)
Lemma store_embeddings_mismatch_not_raised :
  length [[1%R]] <> length (@nil TicketVectorStore.ticket_metadata)
  /\ fst (TicketVectorStore.store_embeddings (fun _ _ => 0%nat) [[1%R]] []
            (TicketVectorStore.__init__ 1 TicketVectorStore.flat))
     = Ok false
  /\ ~ raises
         (fst (TicketVectorStore.store_embeddings (fun _ _ => 0%nat)
                 [[1%R]] []
                 (TicketVectorStore.__init__ 1 TicketVectorStore.flat))).
Proof.
  split; [discriminate |]. split; [reflexivity |].
  intros [e He]. discriminate He.
Qed.

(** ** Inner products of normalized vectors *)

Section Cosine.
Import TicketVectorStore.
Local Open Scope R_scope.

Lemma dot_self_nonneg (v : vector) : 0 <= Np.dot v v.
Proof. induction v as [|x v IH]; simpl; [lra | nra]. Qed.

(** The Cauchy-Schwarz inequality; the shorter vector decides how many
    products [np.dot] sums here. *)
Lemma cauchy_schwarz (u v : vector) :
  Np.dot u v * Np.dot u v <= Np.dot u u * Np.dot v v.
Proof.
  revert v. induction u as [|a u IH]; intros v; simpl; [lra |].
  destruct v as [|b v]; simpl.
  - pose proof (dot_self_nonneg u). nra.
  - pose proof (IH v) as H.
    pose proof (dot_self_nonneg u) as Hu.
    pose proof (dot_self_nonneg v) as Hv.
    set (s := Np.dot u v) in *. set (p := Np.dot u u) in *.
    set (q := Np.dot v v) in *. clearbody s p q.
    assert (Hcross : 2 * (a * b) * s <= a * a * q + b * b * p).
    { destruct (Rle_dec (2 * (a * b) * s) 0) as [Hneg | Hpos]; [nra |].
      apply Rnot_le_lt in Hpos.
      assert (Hsq : (2 * (a * b) * s) * (2 * (a * b) * s)
                    <= (a * a * q + b * b * p) * (a * a * q + b * b * p)).
      { assert (H1 : (a * b) * (a * b) * (s * s)
                     <= (a * b) * (a * b) * (p * q))
          by (apply Rmult_le_compat_l; [nra | lra]).
        assert (H2 : 0 <= (a * a * q - b * b * p) * (a * a * q - b * b * p))
          by apply Rle_0_sqr.
        nra. }
      assert (0 <= a * a * q + b * b * p) by nra.
      nra. }
    nra.
Qed.

Lemma dot_bounded (u v : vector) :
  Np.dot u u <= 1 -> Np.dot v v <= 1 -> -1 <= Np.dot u v <= 1.
Proof.
  intros Hu Hv. pose proof (cauchy_schwarz u v) as H.
  pose proof (dot_self_nonneg u). pose proof (dot_self_nonneg v).
  assert (Np.dot u v * Np.dot u v <= 1) by nra.
  split; nra.
Qed.

Lemma dot_scaled (u v : vector) (a b : R) :
  a <> 0 -> b <> 0 ->
  Np.dot (map (fun x => x / a) u) (map (fun x => x / b) v)
  = Np.dot u v / (a * b).
Proof.
  intros Ha Hb. revert v. induction u as [|x u IH]; intros v; simpl.
  - field. auto.
  - destruct v as [|y v]; simpl; [field; auto |].
    rewrite IH. field. auto.
Qed.

Lemma normalize_embeddings_rows (embeddings : matrix) :
  _normalize_embeddings embeddings = map normalize_row embeddings.
Proof. reflexivity. Qed.

Lemma norm_square (v : vector) : Np.norm v * Np.norm v = Np.dot v v.
Proof. apply sqrt_sqrt, dot_self_nonneg. Qed.

Lemma norm_zero (v : vector) : Np.norm v = 0 -> Np.dot v v = 0.
Proof. intros H. rewrite <- norm_square, H. ring. Qed.

Lemma dot_zero_l (u v : vector) : Np.dot u u = 0 -> Np.dot u v = 0.
Proof.
  intros H. pose proof (cauchy_schwarz u v) as Hcs. rewrite H in Hcs. nra.
Qed.

Lemma dot_comm (u v : vector) : Np.dot u v = Np.dot v u.
Proof.
  revert v. induction u as [|x u IH]; intros [|y v]; simpl; try reflexivity.
  rewrite IH. ring.
Qed.

Lemma map_div_1 (v : vector) : map (fun x => x / 1) v = v.
Proof.
  induction v as [|x v IH]; simpl; [reflexivity |]. rewrite IH. f_equal. field.
Qed.

(** The inner product of two normalized rows is the cosine similarity of
    the rows, and zero where that is undefined. *)
Lemma dot_normalize_row (u v : vector) :
  Np.dot (normalize_row u) (normalize_row v)
  = match cosine_similarity u v with
    | Some x => x
    | None => 0
    end.
Proof.
  unfold normalize_row, cosine_similarity.
  destruct (Req_dec_T (Np.norm u) 0) as [Hu | Hu].
  - rewrite map_div_1, Hu, Rmult_0_l.
    destruct (Req_dec_T 0 0) as [_ | H]; [|contradiction].
    apply dot_zero_l, norm_zero, Hu.
  - destruct (Req_dec_T (Np.norm v) 0) as [Hv | Hv].
    + rewrite map_div_1, Hv, Rmult_0_r.
      destruct (Req_dec_T 0 0) as [_ | H]; [|contradiction].
      rewrite dot_comm. apply dot_zero_l, norm_zero, Hv.
    + destruct (Req_dec_T (Np.norm u * Np.norm v) 0) as [H | _].
      * apply Rmult_integral in H. tauto.
      * now apply dot_scaled.
Qed.

Lemma normalize_row_bounded (row : vector) :
  Np.dot (normalize_row row) (normalize_row row) <= 1.
Proof.
  unfold normalize_row.
  destruct (Req_dec_T (Np.norm row) 0) as [H | H].
  - rewrite map_div_1, (norm_zero _ H). lra.
  - rewrite dot_scaled by assumption. rewrite norm_square.
    assert (Np.dot row row <> 0) by (rewrite <- norm_square; nra).
    right. now field.
Qed.

Lemma cosine_bounded (u v : vector) :
  -1 <= Np.dot (normalize_row u) (normalize_row v) <= 1.
Proof. apply dot_bounded; apply normalize_row_bounded. Qed.

End Cosine.

(** ** Cluster cohesion *)

Section Cohesion.
Import TicketVectorStore.
Local Open Scope R_scope.

Lemma imap_from_app (A B : Type) (f : nat -> A -> B) (a b : list A)
  (i : nat) :
  Np.imap_from i f (a ++ b)
  = Np.imap_from i f a ++ Np.imap_from (i + length a) f b.
Proof.
  revert i. induction a as [|x a IH]; intros i; simpl.
  - now rewrite Nat.add_0_r.
  - rewrite IH. do 3 f_equal. lia.
Qed.

Lemma positive_0 : Np.positive 0 = false.
Proof. unfold Np.positive. destruct (Rlt_dec 0 0); [lra | reflexivity]. Qed.

(** The entries on and below the diagonal are masked to zero and do not
    pass the filter. *)
Lemma masked_below (i j0 : nat) (a : list R) :
  (j0 + length a <= S i)%nat ->
  filter Np.positive
    (Np.imap_from j0 (fun j x => if (i <? j)%nat then x else 0) a) = [].
Proof.
  revert j0. induction a as [|x a IH]; intros j0 H; simpl in *;
    [reflexivity |].
  replace (i <? j0)%nat with false by (symmetry; apply Nat.ltb_ge; lia).
  rewrite positive_0. apply IH. lia.
Qed.

Lemma kept_above (i j0 : nat) (b : list R) :
  (i < j0)%nat ->
  Np.imap_from j0 (fun j x => if (i <? j)%nat then x else 0) b = b.
Proof.
  revert j0. induction b as [|x b IH]; intros j0 H; simpl; [reflexivity |].
  replace (i <? j0)%nat with true by (symmetry; apply Nat.ltb_lt; lia).
  rewrite IH by lia. reflexivity.
Qed.

Lemma triu1_row (u : vector) (pre rest : matrix) :
  filter Np.positive
    (Np.imap (fun j x => if (length pre <? j)%nat then x else 0)
       (map (fun v => Np.dot u v) (pre ++ u :: rest)))
  = filter Np.positive (map (fun v => Np.dot u v) rest).
Proof.
  unfold Np.imap.
  replace (pre ++ u :: rest) with ((pre ++ [u]) ++ rest)
    by now rewrite <- app_assoc.
  rewrite map_app, imap_from_app, filter_app.
  rewrite masked_below by (rewrite length_map, length_app; simpl; lia).
  rewrite kept_above by (rewrite length_map, length_app; simpl; lia).
  reflexivity.
Qed.

Lemma triu1_rows (rest pre : matrix) :
  filter Np.positive
    (concat
       (Np.imap_from (length pre)
          (fun i row =>
             Np.imap (fun j x => if (i <? j)%nat then x else 0) row)
          (map (fun u => map (fun v => Np.dot u v) (pre ++ rest)) rest)))
  = filter Np.positive
      (map (fun p => Np.dot (fst p) (snd p)) (pairs rest)).
Proof.
  revert pre. induction rest as [|u rest IH]; intros pre; [reflexivity |].
  cbn [map Np.imap_from concat pairs].
  rewrite filter_app, triu1_row.
  rewrite map_app, filter_app, map_map. cbn [fst snd]. f_equal.
  specialize (IH (pre ++ [u])).
  rewrite length_app, Nat.add_1_r in IH.
  rewrite <- app_assoc in IH. exact IH.
Qed.

(** The positive entries of the strict upper triangle of [n n^T] are the
    positive inner products of the pairs of rows of [n]. *)
Lemma positive_entries_triu1 (n : matrix) :
  Np.positive_entries (Np.triu1 (Np.dot_T n n))
  = filter Np.positive (map (fun p => Np.dot (fst p) (snd p)) (pairs n)).
Proof. apply (triu1_rows n []). Qed.

Lemma pairs_map (A B : Type) (f : A -> B) (l : list A) :
  pairs (map f l) = map (fun p => (f (fst p), f (snd p))) (pairs l).
Proof.
  induction l as [|a l IH]; simpl; [reflexivity |].
  now rewrite map_app, !map_map, IH.
Qed.

Lemma filter_map_flat_map (A : Type) (g : A -> R) (l : list A) :
  filter Np.positive (map g l)
  = flat_map (fun a => if Np.positive (g a) then [g a] else []) l.
Proof.
  induction l as [|a l IH]; simpl; [reflexivity |].
  destruct (Np.positive (g a)); simpl; now rewrite IH.
Qed.

Lemma positive_normalized_pairs (selected : matrix) :
  filter Np.positive
    (map (fun p => Np.dot (fst p) (snd p))
       (pairs (_normalize_embeddings selected)))
  = positive_cosines selected.
Proof.
  rewrite normalize_embeddings_rows, pairs_map, map_map. cbn [fst snd].
  rewrite filter_map_flat_map.
  unfold positive_cosines, pairwise_cosines. rewrite flat_map_concat_map.
  rewrite (flat_map_concat_map _ (map _ _)), map_map.
  f_equal. apply map_ext. intros [u v]. cbn [fst snd].
  rewrite dot_normalize_row.
  destruct (cosine_similarity u v); [reflexivity |].
  now rewrite positive_0.
Qed.

Lemma cohesion_similarities (selected : matrix) :
  Np.positive_entries
    (Np.triu1
       (Np.dot_T (_normalize_embeddings selected)
          (_normalize_embeddings selected)))
  = positive_cosines selected.
Proof. now rewrite positive_entries_triu1, positive_normalized_pairs. Qed.

Lemma positive_cosines_bounded (selected : matrix) :
  Forall (fun x => 0 < x <= 1) (positive_cosines selected).
Proof.
  apply Forall_forall. intros x Hx.
  unfold positive_cosines, pairwise_cosines in Hx.
  apply in_flat_map in Hx as [o [Ho Hx]].
  apply in_map_iff in Ho as [[u v] [Ho _]]. cbn [fst snd] in Ho.
  pose proof (dot_normalize_row u v) as Hdot. rewrite Ho in Hdot.
  destruct o as [y|]; [|contradiction].
  unfold Np.positive in Hx.
  destruct (Rlt_dec 0 y) as [Hpos|]; [|contradiction].
  destruct Hx as [<- | []].
  pose proof (cosine_bounded u v) as Hb. rewrite Hdot in Hb. lra.
Qed.

Lemma sum_bounded (a b : R) (l : list R) :
  Forall (fun x => a <= x <= b) l ->
  a * INR (length l) <= Np.sum l <= b * INR (length l).
Proof.
  induction 1 as [|x l Hx _ IH]; [simpl; lra |].
  cbn [length Np.sum]. rewrite S_INR. lra.
Qed.

Lemma mean_bounded (a b : R) (l : list R) :
  l <> [] -> Forall (fun x => a <= x <= b) l -> a <= Np.mean l <= b.
Proof.
  intros Hne Hl. pose proof (sum_bounded Hl) as Hs.
  assert (Hn : 0 < INR (length l))
    by (apply lt_0_INR; destruct l; [congruence | simpl; lia]).
  unfold Np.mean. split.
  - apply Rmult_le_reg_r with (INR (length l)); [assumption |].
    unfold Rdiv. rewrite Rmult_assoc, Rinv_l by lra. lra.
  - apply Rmult_le_reg_r with (INR (length l)); [assumption |].
    unfold Rdiv. rewrite Rmult_assoc, Rinv_l by lra. lra.
Qed.

Lemma cohesion_equation (selected : matrix) :
  _calculate_cluster_cohesion selected
  = (if (length selected <=? 1)%nat then 1
     else match positive_cosines selected with
          | [] => 0
          | _ :: _ => Np.mean (positive_cosines selected)
          end).
Proof.
  unfold _calculate_cluster_cohesion.
  destruct (length selected <=? 1)%nat; [reflexivity |].
  rewrite cohesion_similarities.
  destruct (positive_cosines selected); reflexivity.
Qed.

(** What the code computes, with the floats read as real numbers.  The
    cohesion score of at most one vector is 1; of two or more vectors it
    is the arithmetic mean of the strictly positive pairwise cosine
    similarities (upper triangle, no self-pairs; the pairs whose
    similarity is negative, zero or undefined are left out of the sum and
    of the count), and 0 when no pair has a positive similarity.  Over the
    reals it lies in [0, 1]; in binary64 the mean of rounded similarities
    can exceed 1 in the last place. *)
Lemma cohesion_is_mean_of_positive_similarities (selected : matrix) :
  _calculate_cluster_cohesion selected
  = (if (length selected <=? 1)%nat then 1
     else match positive_cosines selected with
          | [] => 0
          | _ :: _ => Np.mean (positive_cosines selected)
          end)
  /\ 0 <= _calculate_cluster_cohesion selected <= 1
  /\ -1 <= _calculate_cluster_cohesion selected <= 1.
Proof.
  pose proof (cohesion_equation selected) as E.
  assert (B : 0 <= _calculate_cluster_cohesion selected <= 1).
  { rewrite E. destruct (length selected <=? 1)%nat; [lra |].
    pose proof (positive_cosines_bounded selected) as Hb.
    destruct (positive_cosines selected) as [|x l] eqn:El; [lra |].
    apply mean_bounded; [discriminate |].
    eapply Forall_impl; [|exact Hb]. cbv beta. intros; lra. }
  repeat split; try assumption; lra.
Qed.

End Cohesion.

(** *** Three vectors, one of them opposed to the others *)

Section CohesionExample.
Import TicketVectorStore.
Local Open Scope R_scope.

Lemma norm_unit (v : vector) : Np.dot v v = 1 -> Np.norm v = 1.
Proof. intros H. unfold Np.norm. rewrite H. apply sqrt_1. Qed.

Lemma cosine_similarity_units (u v : vector) :
  Np.dot u u = 1 -> Np.dot v v = 1 ->
  cosine_similarity u v = Some (Np.dot u v).
Proof.
  intros Hu Hv. unfold cosine_similarity.
  rewrite (norm_unit _ Hu), (norm_unit _ Hv).
  destruct (Req_dec_T (1 * 1) 0); [lra |]. f_equal. field.
Qed.

Lemma pairwise_cosines_opposed :
  pairwise_cosines [[1; 0]; [1; 0]; [-1; 0]] = [Some 1; Some (-1); Some (-1)].
Proof.
  unfold pairwise_cosines. cbn [pairs map app fst snd].
  rewrite !cosine_similarity_units by (simpl; ring).
  repeat f_equal; simpl; ring.
Qed.

End CohesionExample.

(** C4.  The cohesion score is not the mean of all pairwise cosine
    similarities.  On the vectors (1,0), (1,0), (-1,0) the pairwise
    cosine similarities are 1, -1 and -1, whose mean is -1/3, but
    [_calculate_cluster_cohesion] returns 1, the mean of the only positive
    one: the mask [upper_triangle > 0] takes the negative (and the zero)
    similarities out of the sum and of the count.  Every number of this
    example is exact in floating point as well. *)
Theorem cluster_cohesion_skips_negative_pairs :
  let selected := [[1; 0]; [1; 0]; [-1; 0]]%R in
  TicketVectorStore.defined_cosines selected = [1; -1; -1]%R
  /\ Np.mean (TicketVectorStore.defined_cosines selected) = (- 1 / 3)%R
  /\ TicketVectorStore._calculate_cluster_cohesion selected = 1%R
  /\ TicketVectorStore._calculate_cluster_cohesion selected
     <> Np.mean (TicketVectorStore.defined_cosines selected).
Proof.
  cbv zeta.
  assert (D : TicketVectorStore.defined_cosines
                [[1; 0]; [1; 0]; [-1; 0]]%R = [1; -1; -1]%R)
    by (unfold TicketVectorStore.defined_cosines;
        now rewrite pairwise_cosines_opposed).
  assert (Hm : Np.mean [1; -1; -1]%R = (- 1 / 3)%R)
    by (unfold Np.mean; simpl; field).
  assert (C : TicketVectorStore._calculate_cluster_cohesion
                [[1; 0]; [1; 0]; [-1; 0]]%R = 1%R).
  { rewrite cohesion_equation. unfold TicketVectorStore.positive_cosines.
    rewrite pairwise_cosines_opposed. cbn [length Nat.leb flat_map app].
    unfold Np.positive.
    destruct (Rlt_dec 0 1); [|lra]. destruct (Rlt_dec 0 (-1)); [lra |].
    cbn [app]. unfold Np.mean. simpl. field. }
  rewrite D, Hm, C. repeat split; try reflexivity. lra.
Qed.

(** ** The vector store: search *)

Section StoreSearch.
Import TicketVectorStore.
Local Open Scope R_scope.

Variable trained_quantizer : matrix -> vector -> nat.

(** *** The order of the hits *)

Lemma insert_desc_In (h x : Faiss.hit) (l : list Faiss.hit) :
  In x (Faiss.insert_desc h l) -> x = h \/ In x l.
Proof.
  induction l as [|h' r IH]; simpl.
  - intros [<- | []]. now left.
  - destruct (Rlt_dec (fst h) (fst h')).
    + intros [<- | H]; [right; now left |].
      destruct (IH H); auto.
    + intros [<- | H]; auto.
Qed.

Lemma insert_desc_sorted (h : Faiss.hit) (l : list Faiss.hit) :
  StronglySorted by_score l -> StronglySorted by_score (Faiss.insert_desc h l).
Proof.
  induction 1 as [|h' r Hr IH Hall]; simpl.
  - repeat constructor.
  - destruct (Rlt_dec (fst h) (fst h')) as [Hlt | Hge].
    + constructor; [assumption |].
      apply Forall_forall. intros x Hx.
      apply insert_desc_In in Hx as [-> | Hx].
      * unfold by_score. lra.
      * revert x Hx. now apply Forall_forall.
    + constructor; [now constructor |].
      constructor; [unfold by_score; lra |].
      eapply Forall_impl; [|exact Hall]. unfold by_score. intros; lra.
Qed.

Lemma sort_desc_sorted (l : list Faiss.hit) :
  StronglySorted by_score (Faiss.sort_desc l).
Proof.
  induction l as [|h l IH]; simpl; [constructor |].
  now apply insert_desc_sorted.
Qed.

Lemma sort_desc_In (x : Faiss.hit) (l : list Faiss.hit) :
  In x (Faiss.sort_desc l) -> In x l.
Proof.
  induction l as [|h l IH]; simpl; [auto |].
  intros H. apply insert_desc_In in H as [-> | H]; auto.
Qed.

Lemma firstn_In (A : Type) (x : A) (n : nat) (l : list A) :
  In x (firstn n l) -> In x l.
Proof.
  revert n. induction l as [|a l IH]; intros [|n]; simpl; try tauto.
  intros [-> | H]; [now left | right; eapply IH, H].
Qed.

Lemma sorted_firstn (A : Type) (R : A -> A -> Prop) (n : nat) (l : list A) :
  StronglySorted R l -> StronglySorted R (firstn n l).
Proof.
  intros H. revert n. induction H as [|a l Hl IH Ha]; intros [|n]; simpl;
    try constructor; auto.
  apply Forall_forall. intros x Hx. apply firstn_In in Hx.
  revert x Hx. now apply Forall_forall.
Qed.

Lemma sorted_filter (A : Type) (R : A -> A -> Prop) (f : A -> bool)
  (l : list A) :
  StronglySorted R l -> StronglySorted R (filter f l).
Proof.
  induction 1 as [|a l Hl IH Ha]; simpl; [constructor |].
  destruct (f a); [|assumption]. constructor; [assumption |].
  apply Forall_forall. intros x Hx. apply filter_In in Hx as [Hx _].
  revert x Hx. now apply Forall_forall.
Qed.

Lemma sorted_scores (l : list Faiss.hit) :
  StronglySorted by_score l -> descending (map fst l).
Proof.
  unfold descending.
  induction 1 as [|a l Hl IH Ha]; simpl; constructor; [assumption |].
  apply Forall_map. exact Ha.
Qed.

(** *** The loop over the hits *)

Lemma collect_results_scores (md : list ticket_metadata) (threshold : R)
  (hits : list Faiss.hit) (results : list similar_ticket) :
  collect_results md threshold hits = Ok results ->
  map similarity_score results
  = map fst (filter (above_threshold threshold) hits)
  /\ Forall (fun r => In (similar_metadata r) md) results.
Proof.
  revert results. induction hits as [|[score idx] rest IH]; intros results.
  - simpl. intros [= <-]. split; [reflexivity | constructor].
  - cbn [collect_results filter]. unfold above_threshold at 1. cbn [fst snd].
    destruct (negb (idx =? -1)%Z
              && (if Rle_dec threshold score then true else false));
      [|apply IH].
    destruct (getitem md idx) as [m|e] eqn:Em; [|discriminate].
    destruct (collect_results md threshold rest) as [rs|e]; [|discriminate].
    intros [= <-]. destruct (IH rs eq_refl) as [E Hin].
    split; [simpl; now rewrite E |].
    constructor; [|assumption]. cbn.
    unfold getitem in Em.
    destruct (_ <? 0)%Z; [discriminate |].
    destruct (nth_error md _) eqn:En; [|discriminate].
    injection Em as <-. eapply nth_error_In, En.
Qed.

Lemma above_threshold_padding (threshold filler : R) (n : nat) :
  filter (above_threshold threshold) (repeat (filler, (-1)%Z) n) = [].
Proof. induction n as [|n IH]; simpl; [reflexivity | exact IH]. Qed.

(** *** The scores *)

Lemma visited_In (ix : Faiss.index) (q : vector) (p : nat * vector) :
  In p (Faiss.visited ix q) -> In (snd p) (Faiss.xb ix).
Proof.
  unfold Faiss.visited. intros H.
  assert (Hall : In p (combine (seq 0 (Faiss.ntotal ix)) (Faiss.xb ix)))
    by (destruct (Faiss.kind ix); [exact H | now apply filter_In in H]).
  destruct p as [i x]. eapply in_combine_r, Hall.
Qed.

Lemma search_row_hits (ix : Faiss.index) (q : vector) (k : nat)
  (threshold : R) :
  Faiss.kind ix = Faiss.IndexFlatIP ->
  Forall (fun x => Np.dot x x <= 1) (Faiss.xb ix) ->
  Np.dot q q <= 1 ->
  let kept := filter (above_threshold threshold) (Faiss.search_row ix k q) in
  descending (map fst kept)
  /\ Forall (fun h => -1 <= fst h <= 1 /\ threshold <= fst h) kept.
Proof.
  intros Hflat Hxb Hq. cbv zeta.
  unfold Faiss.search_row, Faiss.pad, Faiss.best_first, Faiss.score.
  rewrite Hflat.
  rewrite filter_app, above_threshold_padding, app_nil_r.
  split.
  - apply sorted_scores, sorted_filter, sorted_firstn, sort_desc_sorted.
  - apply Forall_forall. intros h Hh.
    apply filter_In in Hh as [Hh Hkeep].
    apply firstn_In, sort_desc_In, in_map_iff in Hh as [p [<- Hp]].
    apply visited_In in Hp. cbn [fst].
    split.
    + apply dot_bounded; [assumption |].
      rewrite Forall_forall in Hxb. now apply Hxb.
    + unfold above_threshold in Hkeep. cbn [fst snd] in Hkeep.
      apply andb_true_iff in Hkeep as [_ Hkeep].
      destruct (Rle_dec threshold _); [assumption | discriminate].
Qed.

(** The first row of a search for one query. *)
Lemma search_first_row (ix : Faiss.index) (q : vector) (k : Z)
  (found : list (list Faiss.hit)) (row : list Faiss.hit) :
  Faiss.search ix [q] k = Ok found ->
  getitem found 0 = Ok row ->
  row = Faiss.search_row ix (Z.to_nat k) q.
Proof.
  unfold Faiss.search.
  destruct (negb _); [discriminate |].
  destruct (k <=? 0)%Z; [discriminate |].
  destruct (negb _); [discriminate |].
  intros [= <-]. cbn. now intros [= <-].
Qed.

(** *** The rows of the index stay normalized *)

Lemma normalized_rows (embeddings : matrix) :
  Forall (fun x => Np.dot x x <= 1) (_normalize_embeddings embeddings).
Proof.
  rewrite normalize_embeddings_rows. apply Forall_map, Forall_forall.
  intros row _. apply normalize_row_bounded.
Qed.

Lemma normalized_index_inserts
  (batches : list (matrix * list ticket_metadata)) (st : t) :
  consistent st -> normalized_index st ->
  normalized_index (inserts trained_quantizer batches st).
Proof.
  unfold inserts. revert st.
  induction batches as [|[e md] bs IH]; intros st Hc Hn; [exact Hn |].
  cbn [fold_left fst snd].
  apply IH; [now apply consistent_store_embeddings |].
  destruct (store_embeddings_step trained_quantizer e md Hc) as [[E _] | E];
    cbv zeta in E; rewrite E; cbn [snd]; [|assumption].
  unfold normalized_index, appended. cbn.
  apply Forall_app. split; [exact Hn | apply normalized_rows].
Qed.

Lemma search_similar_tickets_in (st : t) (query_embedding : vector) (k : Z)
  (threshold : R) :
  Faiss.kind (index st) = Faiss.IndexFlatIP ->
  normalized_index st ->
  exists results,
    search_similar_tickets query_embedding k threshold st = (Ok results, st)
    /\ Forall (fun r => -1 <= similarity_score r <= 1
                        /\ threshold <= similarity_score r
                        /\ In (similar_metadata r) (metadata st)) results
    /\ descending (map similarity_score results)
    /\ (Faiss.ntotal (index st) = 0%nat -> results = []).
Proof.
  intros Hflat Hn.
  assert (Hnil : exists results : list similar_ticket,
             (Ok (@nil similar_ticket), st) = (Ok results, st)
             /\ Forall (fun r => -1 <= similarity_score r <= 1
                                 /\ threshold <= similarity_score r
                                 /\ In (similar_metadata r) (metadata st))
                       results
             /\ descending (map similarity_score results)
             /\ (Faiss.ntotal (index st) = 0%nat -> results = [])).
  { exists []. repeat split; constructor. }
  unfold search_similar_tickets, try_except, bind, get, ret, lift.
  destruct (Faiss.ntotal (index st) =? 0)%nat eqn:E0; [exact Hnil |].
  change (_normalize_embeddings [query_embedding])
    with [normalize_row query_embedding].
  cbv zeta.
  destruct (Faiss.search (index st) [normalize_row query_embedding] k)
    as [found|e] eqn:Es; [|exact Hnil].
  destruct (getitem found 0) as [row|e] eqn:Er; [|exact Hnil].
  destruct (collect_results (metadata st) threshold row)
    as [results|e] eqn:Ec; [|exact Hnil].
  exists results. split; [reflexivity |].
  apply collect_results_scores in Ec as [Escores Hmd].
  rewrite (search_first_row _ _ _ Es Er) in Escores.
  destruct (@search_row_hits (index st) (normalize_row query_embedding)
              (Z.to_nat k) threshold Hflat Hn
              (normalize_row_bounded query_embedding)) as [Hsorted Hb].
  split; [|split].
  - rewrite <- Escores in Hsorted.
    assert (Hs : Forall (fun s => -1 <= s <= 1 /\ threshold <= s)
                   (map similarity_score results))
      by (rewrite Escores; apply Forall_map; exact Hb).
    rewrite Forall_map in Hs. rewrite Forall_forall in *.
    intros r Hr. specialize (Hs r Hr). specialize (Hmd r Hr). tauto.
  - now rewrite Escores.
  - intros H0. apply Nat.eqb_neq in E0. contradiction.
Qed.

(** The flat index keeps its kind. *)
Lemma flat_store_kind (dim : nat)
  (history : list (matrix * list ticket_metadata)) :
  Faiss.kind
    (index (inserts trained_quantizer history (__init__ dim flat)))
  = Faiss.IndexFlatIP.
Proof.
  unfold inserts.
  assert (H0 : Faiss.kind (index (__init__ dim flat)) = Faiss.IndexFlatIP)
    by reflexivity.
  assert (Hc : consistent (__init__ dim flat)) by apply consistent_init.
  revert H0 Hc. generalize (__init__ dim flat).
  induction history as [|[e m] bs IH]; intros st H0 Hc; [exact H0 |].
  cbn [fold_left fst snd]. apply IH.
  - destruct (store_embeddings_step trained_quantizer e m Hc) as [[E _] | E];
      cbv zeta in E; rewrite E; cbn [snd]; [|exact H0].
    unfold appended. cbn. exact H0.
  - now apply consistent_store_embeddings.
Qed.

(** On a store with the flat index type, read over the real numbers: the
    search returns, without raising and without changing the store, results
    paired with stored metadata whose scores lie in [-1, 1], are at least
    the threshold, and come in descending order; on a store without vectors
    it returns the empty list. *)
Lemma flat_search_sound (dim : nat)
  (history : list (matrix * list ticket_metadata))
  (query_embedding : vector) (k : Z) (threshold : R) :
  let st := inserts trained_quantizer history (__init__ dim flat) in
  exists results,
    search_similar_tickets query_embedding k threshold st = (Ok results, st)
    /\ Forall (fun r => -1 <= similarity_score r <= 1
                        /\ threshold <= similarity_score r
                        /\ In (similar_metadata r) (metadata st)) results
    /\ descending (map similarity_score results)
    /\ (Faiss.ntotal (index st) = 0%nat -> results = []).
Proof.
  intros st. apply search_similar_tickets_in.
  - apply flat_store_kind.
  - apply normalized_index_inserts; [apply consistent_init | constructor].
Qed.

End StoreSearch.

(** ** The vector store on two unit vectors *)

Section StoreExamples.
Import TicketVectorStore.
Local Open Scope R_scope.

Lemma normalize_row_unit (v : vector) :
  Np.dot v v = 1 -> normalize_row v = v.
Proof.
  intros H. unfold normalize_row. rewrite (norm_unit _ H).
  destruct (Req_dec_T 1 0); [lra |]. apply map_div_1.
Qed.

Lemma normalize_two_axes :
  _normalize_embeddings [[1; 0]; [0; 1]] = [[1; 0]; [0; 1]].
Proof.
  rewrite normalize_embeddings_rows. cbn [map].
  rewrite !normalize_row_unit by (simpl; ring). reflexivity.
Qed.

(** A batch of two goes into a fresh flat store as a whole. *)
Example store_two_axes (tq : matrix -> vector -> nat) :
  store_embeddings tq [[1; 0]; [0; 1]]
    [Examples.vpn_down; Examples.printer_jam] (__init__ 2 flat)
  = (Ok true, Examples.two_axes).
Proof.
  unfold store_embeddings, try_except, bind, get, put, ret, raise, lift.
  rewrite normalize_two_axes. reflexivity.
Qed.

(** An inverted file index refuses a first batch of fewer than 100
    vectors: the store initializes the same index type again and stays
    untrained. *)
Example ivf_small_batch_refused (tq : matrix -> vector -> nat) :
  store_embeddings tq [[1; 0]; [0; 1]]
    [Examples.vpn_down; Examples.printer_jam] (__init__ 2 ivf)
  = (Ok false, __init__ 2 ivf).
Proof.
  unfold store_embeddings, try_except, bind, get, put, ret, raise, lift.
  rewrite normalize_two_axes. reflexivity.
Qed.

(** A query along the first axis finds the first ticket with score 1; the
    second ticket, with score 0, is below the threshold. *)
Example search_two_axes :
  exists score,
    fst (search_similar_tickets [1; 0] 2 (1 / 2) Examples.two_axes)
    = Ok [mk_similar Examples.vpn_down score]
    /\ score = 1.
Proof.
  eexists. split.
  - unfold search_similar_tickets, try_except, bind, get, ret, lift.
    cbn [Faiss.ntotal index Faiss.xb length Nat.eqb Examples.two_axes].
    change (_normalize_embeddings [[1; 0]]) with [normalize_row [1; 0]].
    rewrite normalize_row_unit by (simpl; ring).
    unfold Faiss.search, Faiss.search_row.
    cbn -[Rlt_dec Rle_dec Np.dot Faiss.lowest].
    destruct (Rlt_dec (Np.dot [1; 0] [1; 0]) (Np.dot [1; 0] [0; 1]))
      as [H | _]; [exfalso; simpl in H; lra |].
    change (Pos.to_nat 2) with 2%nat.
    cbn [firstn length Nat.sub repeat app collect_results negb Z.eqb andb
         getitem Z.ltb Z.compare Z.to_nat nth_error Pos.to_nat
         Pos.iter_op Nat.add].
    destruct (Rle_dec (1 / 2) (Np.dot [1; 0] [1; 0])) as [_ | H];
      [|exfalso; apply H; simpl; lra].
    destruct (Rle_dec (1 / 2) (Np.dot [1; 0] [0; 1])) as [H | _];
      [exfalso; simpl in H; lra |].
    cbn -[Np.dot]. reflexivity.
  - simpl. ring.
Qed.

End StoreExamples.

(** ** The clustering engine *)

Section EngineExamples.
Import TicketClusteringEngine.
Local Open Scope string_scope.
Local Open Scope list_scope.

Example group_by_label_sample :
  group_by_label [0; 1; 0; 2; 1]%nat
  = [(0, [0; 2]); (1, [1; 4]); (2, [3])]%nat.
Proof. reflexivity. Qed.

Example rule_based_names_sample :
  _generate_rule_based_names
    ["VPN down"; "Printer jam"; "vpn slow"; "wifi and dns"]
    [(0, [0; 2]); (1, [1]); (2, [3])]%nat
  = Ok [("Network Issues", [0; 2]); ("Hardware Problems", [1]);
        ("Network Issues 1", [3])]%nat.
Proof. reflexivity. Qed.

End EngineExamples.

(** *** Similarity queries *)

Section FindSimilar.
Import TicketVectorStore TicketClusteringEngine.
Local Open Scope R_scope.

Variable env : collaborators.

(** The search of the store catches everything it raises. *)
Lemma search_similar_tickets_total (st : TicketVectorStore.t)
  (query_embedding : vector) (k : Z) (threshold : R) :
  exists results,
    search_similar_tickets query_embedding k threshold st = (Ok results, st).
Proof.
  unfold search_similar_tickets, try_except, bind, get, ret, lift.
  destruct (Faiss.ntotal (index st) =? 0)%nat; [eauto |].
  destruct (Faiss.search _ _ _) as [found|e]; [|eauto].
  destruct (getitem found 0); [|eauto].
  destruct (collect_results _ _ _); eauto.
Qed.

(** A failing index search gives the empty list. *)
Lemma search_similar_tickets_index_failure (st : TicketVectorStore.t)
  (query_embedding : vector) (k : Z) (threshold : R) (e : exn) :
  Faiss.search (index st) (_normalize_embeddings [query_embedding]) k
  = Raise e ->
  search_similar_tickets query_embedding k threshold st = (Ok [], st).
Proof.
  intros H.
  unfold search_similar_tickets, try_except, bind, get, ret, lift.
  destruct (Faiss.ntotal (index st) =? 0)%nat; [reflexivity |].
  now rewrite H.
Qed.

Lemma generate_embeddings_run (tickets : list string) (self : t) :
  _generate_embeddings env tickets self
  = (embeddings_create env (map _preprocess_ticket tickets), self).
Proof.
  unfold _generate_embeddings, try_except, lift, raise.
  destruct (embeddings_create env _); reflexivity.
Qed.

(** C10.  For every query text and [k], [find_similar_tickets] returns a
    list and never raises: the empty list when there is no vector store or
    no provider, when the embedding request fails or returns no vector;
    otherwise what the search of the store returns, which is the empty
    list when the index search fails. *)
Theorem find_similar_tickets_never_raises (query_ticket : string) (k : Z)
  (self : t) :
  let out := fst (find_similar_tickets env query_ticket k self) in
  let request := embeddings_create env [_preprocess_ticket query_ticket] in
  ~ raises out
  /\ (exists results, out = Ok results)
  /\ (vector_store self = None -> out = Ok [])
  /\ (use_openai self = false -> out = Ok [])
  /\ (raises request -> out = Ok [])
  /\ (request = Ok [] -> out = Ok [])
  /\ (forall vs query_embedding rest,
        vector_store self = Some vs -> use_openai self = true ->
        request = Ok (query_embedding :: rest) ->
        out = fst (search_similar_tickets query_embedding k (5 / 10) vs)
        /\ (raises (Faiss.search (index vs)
                       (_normalize_embeddings [query_embedding]) k)
            -> out = Ok [])).
Proof.
  cbv zeta.
  assert (Hout : exists results,
             fst (find_similar_tickets env query_ticket k self) = Ok results).
  { unfold find_similar_tickets, try_except, bind, get, ret, lift, raise.
    destruct (vector_store self) as [vs|] eqn:Evs;
      [|eexists; reflexivity].
    destruct (use_openai self); cbn [negb]; [|eexists; reflexivity].
    rewrite generate_embeddings_run. cbn [map].
    destruct (embeddings_create env _) as [embeddings|e];
      [|eexists; reflexivity].
    destruct (getitem embeddings 0) as [q|e]; [|eexists; reflexivity].
    rewrite Evs. unfold on_store.
    destruct (search_similar_tickets_total vs q k (5 / 10)) as [r ->].
    eexists; reflexivity. }
  split; [|split; [exact Hout |]].
  { destruct Hout as [r ->]. intros [e He]. discriminate. }
  unfold find_similar_tickets, try_except, bind, get, ret, lift, raise.
  split; [intros ->; reflexivity |].
  split; [intros ->; destruct (vector_store self); reflexivity |].
  split.
  { intros [e He].
    destruct (vector_store self); [|reflexivity].
    destruct (use_openai self); [|reflexivity]. cbn [negb].
    rewrite generate_embeddings_run. cbn [map]. now rewrite He. }
  split.
  { intros He.
    destruct (vector_store self); [|reflexivity].
    destruct (use_openai self); [|reflexivity]. cbn [negb].
    rewrite generate_embeddings_run. cbn [map]. now rewrite He. }
  intros vs query_embedding rest Hvs Hon Hrequest.
  rewrite Hvs, Hon. cbn [negb].
  rewrite generate_embeddings_run. cbn [map]. rewrite Hrequest.
  cbn. rewrite Hvs. unfold on_store.
  split.
  - destruct (search_similar_tickets_total vs query_embedding k (5 / 10))
      as [r ->]. reflexivity.
  - intros [e He].
    now erewrite search_similar_tickets_index_failure by exact He.
Qed.

End FindSimilar.

Lemma find_similar_tickets_never_raises_witness :
  fst (TicketClusteringEngine.find_similar_tickets Examples.provider_down
         "vpn is down" 5 (TicketClusteringEngine.__init__ true true))
  = Ok [].
Proof.
  destruct (find_similar_tickets_never_raises Examples.provider_down
              "vpn is down" 5 (TicketClusteringEngine.__init__ true true))
    as (_ & _ & _ & _ & Hraise & _).
  apply Hraise. eexists. reflexivity.
Defined.

(** *** The tiers of [cluster_tickets] *)

Section Fallback.
Import TicketClusteringEngine.

Variable env : collaborators.

Lemma cluster_tickets_run (tickets : list string) (self : t) :
  length tickets <> 1%nat ->
  cluster_tickets env tickets self
  = match (if use_openai self then _cluster_with_openai env tickets self
           else _cluster_with_sklearn env tickets self) with
    | (Ok clusters, self') => (Ok clusters, self')
    | (Raise _, self') => (Ok (single_cluster tickets), self')
    end.
Proof.
  intros Hn. unfold cluster_tickets.
  apply Nat.eqb_neq in Hn. rewrite Hn.
  unfold try_except, bind, get, ret.
  destruct (use_openai self); reflexivity.
Qed.

(** C2, amended.  For every batch with more than one ticket the engine
    runs one path: the embedding path when a provider client was
    configured, the lexical path when none was.  If that path raises, for
    any reason, the result is the single cluster "General Issues" with all
    ticket indices (the lexical path is not tried after a failure of the
    embedding path); otherwise it is the result of the path.  The call
    never raises. *)
Theorem cluster_tickets_tiers (tickets : list string) (self : t)
  (Hmany : (1 < length tickets)%nat) :
  let out := fst (cluster_tickets env tickets self) in
  let path :=
    if use_openai self then _cluster_with_openai env tickets
    else _cluster_with_sklearn env tickets in
  ~ raises out
  /\ (forall clusters, fst (path self) = Ok clusters -> out = Ok clusters)
  /\ (raises (fst (path self)) -> out = Ok (single_cluster tickets)).
Proof.
  cbv zeta. rewrite cluster_tickets_run by lia.
  destruct (use_openai self);
    match goal with
    | |- context [?p env tickets self] =>
        destruct (p env tickets self) as [[clusters | e] self']
    end; cbn [fst];
    (split; [intros [e' He']; discriminate |]);
    (split; [intros c Hc; congruence | intros [e' He']; congruence]).
Qed.

End Fallback.

Lemma cluster_tickets_tiers_witness :
  (1 < length Examples.three_tickets)%nat
  /\ fst (TicketClusteringEngine.cluster_tickets Examples.provider_down
            Examples.three_tickets
            (TicketClusteringEngine.__init__ true false))
     = Ok (TicketClusteringEngine.single_cluster Examples.three_tickets).
Proof.
  assert (Hmany : (1 < length Examples.three_tickets)%nat) by (simpl; lia).
  split; [exact Hmany |].
  destruct (@cluster_tickets_tiers Examples.provider_down
              Examples.three_tickets
              (TicketClusteringEngine.__init__ true false) Hmany)
    as (_ & _ & Hraise).
  apply Hraise. eexists. reflexivity.
Defined.

(** C2, as stated, with a provider that raises on every call and a
    scikit-learn that works: the embedding path fails and the lexical path
    would succeed with two clusters, but the engine returns the single
    cluster without trying it. *)
Lemma cluster_tickets_skips_lexical_path :
  let env := Examples.provider_down in
  let tickets := Examples.three_tickets in
  let self := TicketClusteringEngine.__init__ true false in
  raises (fst (TicketClusteringEngine._cluster_with_openai env tickets self))
  /\ fst (TicketClusteringEngine._cluster_with_sklearn env tickets self)
     = Ok [("Network Issues"%string, [0; 1]%nat);
           ("Authentication Problems"%string, [2]%nat)]
  /\ fst (TicketClusteringEngine.cluster_tickets env tickets self)
     = Ok [("General Issues"%string, [0; 1; 2]%nat)]
  /\ fst (TicketClusteringEngine.cluster_tickets env tickets self)
     <> fst (TicketClusteringEngine._cluster_with_sklearn env tickets self).
Proof.
  cbv zeta.
  assert (E1 : fst (TicketClusteringEngine._cluster_with_sklearn
                      Examples.provider_down Examples.three_tickets
                      (TicketClusteringEngine.__init__ true false))
               = Ok [("Network Issues"%string, [0; 1]%nat);
                     ("Authentication Problems"%string, [2]%nat)])
    by reflexivity.
  assert (E2 : fst (TicketClusteringEngine.cluster_tickets
                      Examples.provider_down Examples.three_tickets
                      (TicketClusteringEngine.__init__ true false))
               = Ok [("General Issues"%string, [0; 1; 2]%nat)])
    by reflexivity.
  split; [eexists; reflexivity |].
  split; [exact E1 |]. split; [exact E2 |].
  rewrite E1, E2. discriminate.
Qed.

(** *** The partition invariant *)

(** *** Dictionaries and the indices they hold *)

Section DictFacts.

Variables K : Type.
Variable eqb : K -> K -> bool.
Hypothesis eqb_refl : forall k, eqb k k = true.

Lemma dict_set_fresh (k : K) (v : list nat) (d : Dict.t K (list nat)) :
  Dict.get eqb k d = None -> Dict.set eqb k v d = d ++ [(k, v)].
Proof.
  induction d as [|[k' v'] d IH]; simpl; [reflexivity |].
  destruct (eqb k k'); [discriminate |]. intros H. now rewrite IH.
Qed.

Lemma dict_get_set (k : K) (v : list nat) (d : Dict.t K (list nat)) :
  Dict.get eqb k (Dict.set eqb k v d) = Some v.
Proof.
  induction d as [|[k' v'] d IH]; simpl.
  - now rewrite eqb_refl.
  - destruct (eqb k k') eqn:E; simpl; [now rewrite eqb_refl |].
    now rewrite E.
Qed.

Lemma all_indices_app (d d' : Dict.t K (list nat)) :
  all_indices (d ++ d') = all_indices d ++ all_indices d'.
Proof. unfold all_indices. now rewrite map_app, concat_app. Qed.

Lemma all_indices_set_fresh (k : K) (v : list nat)
  (d : Dict.t K (list nat)) :
  Dict.get eqb k d = None ->
  all_indices (Dict.set eqb k v d) = all_indices d ++ v.
Proof.
  intros H. rewrite dict_set_fresh, all_indices_app by assumption.
  unfold all_indices. simpl. now rewrite app_nil_r.
Qed.

(** Appending one index to the list of an existing key adds that index. *)
Lemma all_indices_append (k : K) (l : list nat) (i : nat)
  (d : Dict.t K (list nat)) :
  Dict.get eqb k d = Some l ->
  Permutation (all_indices (Dict.set eqb k (l ++ [i]) d))
              (i :: all_indices d).
Proof.
  induction d as [|[k' v'] d IH]; simpl; [discriminate |].
  destruct (eqb k k').
  - intros [= ->]. unfold all_indices. simpl.
    rewrite <- app_assoc. simpl. symmetry. apply Permutation_middle.
  - intros H. unfold all_indices in *. simpl.
    rewrite (IH H). symmetry. apply Permutation_middle.
Qed.

End DictFacts.

(** *** Grouping by label *)

Section Grouping.
Import TicketClusteringEngine.

Lemma group_step_indices (clusters : clusters_by_label) (i label : nat) :
  let clusters1 :=
    if Dict.mem Nat.eqb label clusters then clusters
    else Dict.set Nat.eqb label [] clusters in
  Permutation
    (all_indices
       match Dict.get Nat.eqb label clusters1 with
       | Some indices => Dict.set Nat.eqb label (indices ++ [i]) clusters1
       | None => clusters1
       end)
    (i :: all_indices clusters).
Proof.
  cbv zeta. unfold Dict.mem.
  destruct (Dict.get Nat.eqb label clusters) as [l|] eqn:E.
  - rewrite E. now apply all_indices_append.
  - rewrite dict_get_set by apply Nat.eqb_refl.
    rewrite all_indices_append with (l := [])
      by (now apply dict_get_set, Nat.eqb_refl).
    now rewrite all_indices_set_fresh, app_nil_r.
Qed.

Lemma group_fold_indices (items : list (nat * nat))
  (clusters : clusters_by_label) :
  Permutation
    (all_indices
       (fold_left
          (fun clusters il =>
             let '(i, label) := il in
             let clusters :=
               if Dict.mem Nat.eqb label clusters then clusters
               else Dict.set Nat.eqb label [] clusters in
             match Dict.get Nat.eqb label clusters with
             | Some indices =>
                 Dict.set Nat.eqb label (indices ++ [i]) clusters
             | None => clusters
             end)
          items clusters))
    (all_indices clusters ++ map fst items).
Proof.
  revert clusters. induction items as [|[i label] items IH]; intros clusters.
  - simpl. now rewrite app_nil_r.
  - cbn [fold_left map fst]. rewrite IH.
    rewrite (group_step_indices clusters i label).
    simpl. apply Permutation_middle.
Qed.

Lemma map_fst_combine (A B : Type) (l : list A) (l' : list B) :
  length l = length l' -> map fst (combine l l') = l.
Proof.
  revert l'. induction l as [|a l IH]; intros [|b l'] H; simpl in *;
    try discriminate; [reflexivity |].
  f_equal. apply IH. now injection H.
Qed.

(** The grouping loop puts every position of the label array into one
    list. *)
Lemma group_by_label_partition (cluster_labels : list nat) :
  is_partition (length cluster_labels) (group_by_label cluster_labels).
Proof.
  unfold is_partition, group_by_label. rewrite group_fold_indices.
  cbn [all_indices map concat app].
  rewrite map_fst_combine by apply length_seq. reflexivity.
Qed.

End Grouping.

(** *** Unique names on the lexical path *)

Section UniqueNames.
Import TicketClusteringEngine.

Lemma to_uint_not_nil (n : nat) : Nat.to_uint n <> Decimal.Nil.
Proof.
  rewrite <- (DecimalNat.Unsigned.of_to n) at 1.
  rewrite DecimalNat.Unsigned.to_of. apply DecimalFacts.unorm_nonnil.
Qed.

Lemma str_of_nat_injective (a b : nat) : str_of_nat a = str_of_nat b -> a = b.
Proof.
  unfold str_of_nat. intros H.
  apply (f_equal DecimalString.NilZero.uint_of_string) in H.
  rewrite !DecimalString.NilZero.usu in H by apply to_uint_not_nil.
  injection H as H. now apply DecimalNat.Unsigned.to_uint_inj.
Qed.

Lemma append_cancel (p a b : string) :
  (p ++ a)%string = (p ++ b)%string -> a = b.
Proof.
  induction p as [|c p IH]; simpl; [auto |].
  intros H. injection H as H. auto.
Qed.

Lemma length_append (a b : string) :
  String.length (a ++ b) = (String.length a + String.length b)%nat.
Proof. induction a as [|c a IH]; simpl; [reflexivity | now rewrite IH]. Qed.

Lemma candidate_injective (original_name : string) (i j : nat) :
  candidate original_name i = candidate original_name j -> i = j.
Proof.
  destruct i as [|i], j as [|j]; simpl; intros H; [reflexivity | | |].
  - apply (f_equal String.length) in H.
    rewrite length_append in H. simpl in H. lia.
  - apply (f_equal String.length) in H.
    rewrite length_append in H. simpl in H. lia.
  - apply append_cancel in H. injection H as H.
    now apply str_of_nat_injective.
Qed.

Lemma dict_mem_In (named : named_clusters) (name : string) :
  Dict.mem String.eqb name named = true -> In name (map fst named).
Proof.
  unfold Dict.mem. induction named as [|[k v] named IH]; simpl;
    [discriminate |].
  destruct (String.eqb name k) eqn:E; [|auto].
  intros _. left. symmetry. now apply String.eqb_eq.
Qed.

Lemma dict_not_mem (named : named_clusters) (name : string) :
  Dict.mem String.eqb name named = false ->
  Dict.get String.eqb name named = None.
Proof.
  unfold Dict.mem. destruct (Dict.get _ _ _); [discriminate | reflexivity].
Qed.

Lemma candidates_NoDup (original_name : string) (n : nat) :
  NoDup (map (candidate original_name) (seq 0 n)).
Proof.
  apply Finite.Injective_map_NoDup; [|apply seq_NoDup].
  intros i j. apply candidate_injective.
Qed.

(** The loop has enough rounds: after [j] names found in the dictionary,
    [length named - j] more rounds reach a name that is not in it. *)
Lemma unique_name_candidates (named : named_clusters)
  (original_name : string) (fuel j : nat) :
  (forall i, (i < j)%nat -> In (candidate original_name i) (map fst named)) ->
  (length named <= j + fuel)%nat ->
  Dict.mem String.eqb
    (unique_name fuel named original_name (candidate original_name j) (S j))
    named = false.
Proof.
  revert j. induction fuel as [|fuel IH]; intros j Hseen Hlen;
    cbn [unique_name];
    destruct (Dict.mem String.eqb (candidate original_name j) named) eqn:Em;
    try assumption.
  - exfalso.
    assert (Hincl : incl (map (candidate original_name) (seq 0 (S j)))
                      (map fst named)).
    { intros name Hin. apply in_map_iff in Hin as [i [<- Hi]].
      apply in_seq in Hi.
      destruct (Nat.eq_dec i j) as [-> | Hne];
        [now apply dict_mem_In | apply Hseen; lia]. }
    apply NoDup_incl_length in Hincl; [|apply candidates_NoDup].
    rewrite !length_map, length_seq in Hincl. lia.
  - apply (IH (S j)); [|lia].
    intros i Hi. destruct (Nat.eq_dec i j) as [-> | Hne];
      [now apply dict_mem_In | apply Hseen; lia].
Qed.

Lemma unique_name_fresh (named : named_clusters) (original_name : string) :
  Dict.get String.eqb
    (unique_name (length named) named original_name original_name 1)
    named = None.
Proof.
  apply dict_not_mem.
  apply (@unique_name_candidates named original_name (length named) 0);
    [intros i Hi; lia | lia].
Qed.

Lemma rule_based_names_loop_indices (tickets : list string)
  (items : list (nat * list nat)) (named named' : named_clusters) :
  rule_based_names_loop tickets items named = Ok named' ->
  all_indices named' = all_indices named ++ all_indices items.
Proof.
  revert named. induction items as [|[cluster_id ticket_indices] items IH];
    intros named; cbn [rule_based_names_loop].
  - intros [= <-]. unfold all_indices at 3. simpl. now rewrite app_nil_r.
  - destruct (getitems tickets ticket_indices); [|discriminate].
    intros H. apply IH in H. rewrite H.
    rewrite all_indices_set_fresh by apply unique_name_fresh.
    unfold all_indices at 4. simpl. now rewrite <- app_assoc.
Qed.

(** The rule-based naming keeps every index in its cluster. *)
Lemma generate_rule_based_names_indices (tickets : list string)
  (clusters : clusters_by_label) (named : named_clusters) :
  _generate_rule_based_names tickets clusters = Ok named ->
  all_indices named = all_indices clusters.
Proof.
  intros H. apply rule_based_names_loop_indices in H. exact H.
Qed.

End UniqueNames.

(** *** The paths on which the invariant holds *)

Section PartitionPaths.
Import TicketClusteringEngine.

Variable env : collaborators.

(** What scikit-learn promises: one row per text, one label per row. *)
Hypothesis fit_transform_rows :
  forall texts m, fit_transform env texts = Ok m -> length m = length texts.
Hypothesis fit_predict_labels :
  forall k x labels, fit_predict env k x = Ok labels -> length labels = length x.

Lemma single_ticket_partition : is_partition 1 [(general_issues, [0%nat])].
Proof. unfold is_partition, all_indices. simpl. reflexivity. Qed.

Lemma single_cluster_partition (tickets : list string) :
  is_partition (length tickets) (single_cluster tickets).
Proof.
  unfold is_partition, all_indices, single_cluster. simpl.
  now rewrite app_nil_r.
Qed.

Lemma cluster_with_sklearn_partition (tickets : list string) (self self' : t)
  (named : named_clusters) :
  _cluster_with_sklearn env tickets self = (Ok named, self') ->
  is_partition (length tickets) named.
Proof.
  unfold _cluster_with_sklearn, bind, lift, ret.
  destruct (fit_transform env _) as [m|e] eqn:Em; [|discriminate].
  destruct (fit_predict env _ m) as [labels|e] eqn:El; [|discriminate].
  destruct (_generate_rule_based_names tickets (group_by_label labels))
    as [named0|e] eqn:En; [|discriminate].
  intros [= <- _].
  apply generate_rule_based_names_indices in En.
  apply fit_transform_rows in Em. apply fit_predict_labels in El.
  unfold is_partition. rewrite En.
  rewrite length_map in Em. rewrite <- Em, <- El.
  apply group_by_label_partition.
Qed.

(** Without a provider client, [cluster_tickets] returns a partition of
    the batch: from the single ticket shortcut, from the lexical path, or
    from the single cluster after an exception. *)
Lemma cluster_tickets_lexical_partition (tickets : list string) (self : t) :
  use_openai self = false ->
  exists named,
    fst (cluster_tickets env tickets self) = Ok named
    /\ is_partition (length tickets) named.
Proof.
  intros Hoff.
  destruct (Nat.eq_dec (length tickets) 1) as [H1 | H1].
  - unfold cluster_tickets. rewrite H1. cbn.
    eexists. split; [reflexivity | apply single_ticket_partition].
  - rewrite cluster_tickets_run by assumption. rewrite Hoff.
    destruct (_cluster_with_sklearn env tickets self) as [[named|e] self']
      eqn:E; cbn [fst]; eexists; (split; [reflexivity |]).
    + eapply cluster_with_sklearn_partition, E.
    + apply single_cluster_partition.
Qed.

End PartitionPaths.

(** *** The refinement keeps every index *)

Section Refinement.
Import TicketVectorStore TicketClusteringEngine.

Lemma keys_set (k : nat) (v : list nat) (d : clusters_by_label) :
  map fst (Dict.set Nat.eqb k v d)
  = if Dict.mem Nat.eqb k d then map fst d else map fst d ++ [k].
Proof.
  unfold Dict.mem. induction d as [|[k' v'] d IH]; simpl; [reflexivity |].
  destruct (Nat.eqb_spec k k') as [-> | Hne]; simpl; [reflexivity |].
  rewrite IH. destruct (Dict.get Nat.eqb k d); reflexivity.
Qed.

Lemma get_None_not_key (k : nat) (d : clusters_by_label) :
  Dict.get Nat.eqb k d = None -> ~ In k (map fst d).
Proof.
  induction d as [|[k' v'] d IH]; simpl; [tauto |].
  destruct (Nat.eqb_spec k k') as [-> | Hne]; [discriminate |].
  intros H [Hk | Hin]; [congruence | now apply IH].
Qed.

Lemma NoDup_keys_set (k : nat) (v : list nat) (d : clusters_by_label) :
  NoDup (map fst d) -> NoDup (map fst (Dict.set Nat.eqb k v d)).
Proof.
  intros H. rewrite keys_set. unfold Dict.mem.
  destruct (Dict.get Nat.eqb k d) eqn:E; [assumption |].
  apply NoDup_app; [assumption | repeat constructor; simpl; tauto |].
  intros k' Hin [<- | []]. now apply (get_None_not_key _ _ E).
Qed.

Lemma NoDup_keys_get (k : nat) (l : list nat) (d : clusters_by_label) :
  NoDup (map fst d) -> In (k, l) d -> Dict.get Nat.eqb k d = Some l.
Proof.
  induction d as [|[k' v'] d IH]; simpl; [tauto |].
  intros Hnd [[= -> ->] | Hin].
  - now rewrite Nat.eqb_refl.
  - inversion Hnd as [|? ? Hnotin Hnd']; subst.
    destruct (Nat.eqb_spec k k') as [-> | Hne]; [|now apply IH].
    exfalso. apply Hnotin. apply in_map_iff. now exists (k', l).
Qed.

(** Replacing the list of a key exchanges the old list for the new one. *)
Lemma all_indices_replace (k : nat) (l l' : list nat)
  (d : clusters_by_label) :
  Dict.get Nat.eqb k d = Some l ->
  Permutation (l' ++ all_indices d)
              (l ++ all_indices (Dict.set Nat.eqb k l' d)).
Proof.
  unfold all_indices.
  induction d as [|[k' v'] d IH]; simpl; [discriminate |].
  destruct (Nat.eqb k k').
  - intros [= ->]. simpl. apply Permutation_app_swap_app.
  - intros H. simpl. specialize (IH H).
    rewrite Permutation_app_swap_app, IH.
    apply Permutation_app_swap_app.
Qed.

Lemma remove_first_mem (x : nat) (l : list nat) :
  mem_nat x l = true -> Permutation l (x :: remove_first x l).
Proof.
  unfold mem_nat. induction l as [|y l IH]; simpl; [discriminate |].
  rewrite (Nat.eqb_sym x y).
  destruct (Nat.eqb_spec y x) as [-> | Hne]; simpl.
  - reflexivity.
  - intros H. rewrite (IH H) at 1. apply perm_swap.
Qed.

Lemma indices_after_append (k x : nat) (d : clusters_by_label) :
  Permutation
    (all_indices (Dict.set Nat.eqb k (indices_of k d ++ [x]) d))
    (x :: all_indices d).
Proof.
  unfold indices_of. destruct (Dict.get Nat.eqb k d) as [l|] eqn:E.
  - now apply all_indices_append.
  - rewrite all_indices_set_fresh by assumption. simpl.
    symmetry. apply Permutation_cons_append.
Qed.

(** One move takes a ticket out of one list and puts it into another. *)
Lemma move_similar_ticket_keeps (cluster_id : nat)
  (enhanced : clusters_by_label) (similar : similar_ticket) :
  NoDup (map fst enhanced) ->
  NoDup (map fst (move_similar_ticket cluster_id enhanced similar))
  /\ Permutation
       (all_indices (move_similar_ticket cluster_id enhanced similar))
       (all_indices enhanced).
Proof.
  intros Hnd. unfold move_similar_ticket.
  destruct (_ && _); [|split; [assumption | reflexivity]].
  destruct (find _ enhanced) as [[current indices]|] eqn:Ef;
    [|split; [assumption | reflexivity]].
  destruct (length indices <=? 2)%nat; [|split; [assumption | reflexivity]].
  apply find_some in Ef as [Hin Hmem]. cbn [snd] in Hmem.
  split; [now apply NoDup_keys_set, NoDup_keys_set |].
  rewrite indices_after_append.
  pose proof (@NoDup_keys_get current indices enhanced Hnd Hin) as Hget.
  pose proof (@all_indices_replace current indices
                (remove_first (ticket_index (similar_metadata similar))
                   indices) enhanced Hget) as Hrep.
  rewrite (@remove_first_mem _ indices Hmem) in Hrep at 2.
  cbn [app] in Hrep. rewrite Permutation_middle in Hrep.
  apply Permutation_app_inv_l in Hrep. now symmetry.
Qed.

Lemma move_similar_tickets_keep (cluster_id : nat)
  (similar_tickets : list similar_ticket) (enhanced : clusters_by_label) :
  NoDup (map fst enhanced) ->
  let moved :=
    fold_left (move_similar_ticket cluster_id) similar_tickets enhanced in
  NoDup (map fst moved)
  /\ Permutation (all_indices moved) (all_indices enhanced).
Proof.
  revert enhanced.
  induction similar_tickets as [|s rest IH]; intros enhanced Hnd; cbn.
  - split; [assumption | reflexivity].
  - destruct (@move_similar_ticket_keeps cluster_id enhanced s Hnd)
      as [Hnd1 Hp1].
    destruct (IH _ Hnd1) as [Hnd2 Hp2]. cbv zeta in Hp2.
    split; [assumption | now rewrite Hp2].
Qed.

Lemma enhance_cluster_keeps (vs : TicketVectorStore.t)
  (tickets : list string) (embeddings : matrix) (cluster_id : nat)
  (enhanced : clusters_by_label) :
  NoDup (map fst enhanced) ->
  let out := enhance_cluster vs tickets embeddings cluster_id enhanced in
  NoDup (map fst (snd out))
  /\ Permutation (all_indices (snd out)) (all_indices enhanced).
Proof.
  intros Hnd. cbv zeta.
  unfold enhance_cluster, bind, get, put, ret, lift.
  destruct (_ <? 2)%nat; [split; [assumption | reflexivity] |].
  destruct (get_cluster_representatives _ _);
    [|split; [assumption | reflexivity]].
  destruct (getitem embeddings _); [|split; [assumption | reflexivity]].
  destruct (fst (search_similar_tickets _ _ _ vs)) as [similar|e];
    [|split; [assumption | reflexivity]].
  cbn [snd]. now apply move_similar_tickets_keep.
Qed.

Lemma enhance_loop_keeps (vs : TicketVectorStore.t) (tickets : list string)
  (embeddings : matrix) (cluster_ids : list nat)
  (enhanced : clusters_by_label) :
  NoDup (map fst enhanced) ->
  let out := enhance_loop vs tickets embeddings cluster_ids enhanced in
  NoDup (map fst (snd out))
  /\ Permutation (all_indices (snd out)) (all_indices enhanced).
Proof.
  revert enhanced.
  induction cluster_ids as [|cid rest IH]; intros enhanced Hnd; cbv zeta.
  - split; [assumption | reflexivity].
  - cbn [enhance_loop]. unfold bind.
    destruct (@enhance_cluster_keeps vs tickets embeddings cid enhanced Hnd)
      as [Hnd1 Hp1]. cbv zeta in Hnd1, Hp1.
    destruct (enhance_cluster vs tickets embeddings cid enhanced)
      as [[u|e] enhanced1]; cbn [snd] in *.
    + destruct (IH _ Hnd1) as [Hnd2 Hp2]. cbv zeta in Hnd2, Hp2.
      split; [assumption | now rewrite Hp2].
    + split; assumption.
Qed.

Lemma all_indices_drop_empty (d : clusters_by_label) :
  all_indices
    (filter (fun item => match snd item with [] => false | _ => true end) d)
  = all_indices d.
Proof.
  unfold all_indices. induction d as [|[k [|x l]] d IH]; simpl;
    [reflexivity | assumption | now rewrite IH].
Qed.

(** The refinement returns the indices it was given, each as often as
    before: it moves them between clusters and drops empty clusters. *)
Lemma enhance_clusters_keeps_indices (vs : TicketVectorStore.t)
  (tickets : list string) (clusters : clusters_by_label)
  (embeddings : matrix) :
  NoDup (map fst clusters) ->
  Permutation
    (all_indices
       (_enhance_clusters_with_similarity vs tickets clusters embeddings))
    (all_indices clusters).
Proof.
  intros Hnd. unfold _enhance_clusters_with_similarity.
  destruct (@enhance_loop_keeps vs tickets embeddings (map fst clusters)
              clusters Hnd) as [_ Hp]. cbv zeta in Hp.
  destruct (enhance_loop vs tickets embeddings (map fst clusters) clusters)
    as [[u|e] enhanced]; cbn [snd] in Hp; [|exact Hp].
  now rewrite all_indices_drop_empty.
Qed.

End Refinement.

(** *** Naming on the embedding path *)

Section Naming.
Import TicketVectorStore TicketClusteringEngine.

Variable env : collaborators.

Lemma group_by_label_keys (cluster_labels : list nat) :
  NoDup (map fst (group_by_label cluster_labels)).
Proof.
  unfold group_by_label.
  generalize (combine (seq 0 (length cluster_labels)) cluster_labels).
  assert (H : NoDup (map fst (@nil (nat * list nat)))) by constructor.
  revert H. generalize (@nil (nat * list nat)).
  intros d Hd items. revert d Hd.
  induction items as [|[i label] items IH]; intros d Hd; [exact Hd |].
  cbn [fold_left]. apply IH.
  destruct (Dict.mem Nat.eqb label d);
    destruct (Dict.get Nat.eqb label _);
    repeat apply NoDup_keys_set; assumption.
Qed.

Lemma length_set (name : string) (v : list nat) (named : named_clusters) :
  length (Dict.set String.eqb name v named)
  = if Dict.mem String.eqb name named then length named
    else S (length named).
Proof.
  unfold Dict.mem. induction named as [|[k v'] named IH]; simpl;
    [reflexivity |].
  destruct (String.eqb name k); simpl; [reflexivity |].
  rewrite IH. destruct (Dict.get String.eqb name named); reflexivity.
Qed.

(** The naming loop adds at most one entry for each cluster, and when it
    adds one for each, no assignment has replaced an earlier one and every
    index is kept. *)
Lemma cluster_names_loop_indices (tickets : list string)
  (items : list (nat * list nat)) (named named' : named_clusters) :
  cluster_names_loop env tickets items named = Ok named' ->
  (length named' <= length named + length items)%nat
  /\ (length named' = (length named + length items)%nat ->
      all_indices named' = all_indices named ++ all_indices items).
Proof.
  revert named. induction items as [|[cluster_id ticket_indices] items IH];
    intros named; cbn [cluster_names_loop].
  - intros [= <-]. split; [simpl; lia |].
    intros _. unfold all_indices at 3. simpl. now rewrite app_nil_r.
  - destruct (getitems tickets (firstn 5 ticket_indices)) as [a|e];
      [|discriminate].
    set (name := match _ask_openai_for_cluster_name env a with
                 | Ok cluster_name => cluster_name
                 | Raise _ =>
                     ("Issue Category " ++ str_of_nat (cluster_id + 1))%string
                 end).
    replace (match _ask_openai_for_cluster_name env a with
             | Ok cluster_name =>
                 Dict.set String.eqb cluster_name ticket_indices named
             | Raise _ =>
                 Dict.set String.eqb
                   ("Issue Category " ++ str_of_nat (cluster_id + 1))%string
                   ticket_indices named
             end)
      with (Dict.set String.eqb name ticket_indices named)
      by (unfold name; destruct (_ask_openai_for_cluster_name env a);
          reflexivity).
    intros H. apply IH in H as [Hle Heq].
    rewrite length_set in Hle, Heq. cbn [length].
    destruct (Dict.mem String.eqb name named) eqn:Em.
    + split; [lia | intros Hlen; lia].
    + split; [lia |]. intros Hlen.
      rewrite Heq by lia.
      rewrite all_indices_set_fresh by now apply dict_not_mem.
      unfold all_indices at 4. simpl. now rewrite <- app_assoc.
Qed.

Lemma generate_cluster_names_indices (tickets : list string)
  (clusters : clusters_by_label) (named : named_clusters) :
  _generate_cluster_names env tickets clusters = Ok named ->
  (length named <= length clusters)%nat
  /\ (length named = length clusters ->
      all_indices named = all_indices clusters).
Proof.
  intros H. apply cluster_names_loop_indices in H. exact H.
Qed.

Lemma store_embeddings_total (embeddings : matrix)
  (md : list ticket_metadata) (st : TicketVectorStore.t) :
  exists b st',
    store_embeddings (trained_quantizer env) embeddings md st = (Ok b, st').
Proof.
  unfold store_embeddings, try_except.
  match goal with
  | |- context [match ?m st with _ => _ end] =>
      destruct (m st) as [[b|e] st']
  end; unfold ret; eauto.
Qed.

(** What the provider and k-means promise: one row per text, one label
    per row. *)
Hypothesis embeddings_rows :
  forall texts m,
    embeddings_create env texts = Ok m -> length m = length texts.
Hypothesis fit_predict_labels :
  forall k x labels, fit_predict env k x = Ok labels -> length labels = length x.

(** When the embedding path returns, it has named the clusters of a
    partition of the batch, and its result is a partition too unless a
    name was given twice. *)
Lemma cluster_with_openai_clusters (tickets : list string) (self self' : t)
  (named : named_clusters) :
  _cluster_with_openai env tickets self = (Ok named, self') ->
  exists clusters,
    is_partition (length tickets) clusters
    /\ _generate_cluster_names env tickets clusters = Ok named
    /\ (length named = length clusters ->
        is_partition (length tickets) named).
Proof.
  unfold _cluster_with_openai, bind, get, ret, lift.
  rewrite generate_embeddings_run.
  destruct (embeddings_create env _) as [embeddings|e] eqn:Ee;
    [|discriminate].
  apply embeddings_rows in Ee. rewrite length_map in Ee.
  assert (Hgroup : forall labels,
             fit_predict env
               (_determine_cluster_count (Z.of_nat (length tickets)))
               embeddings = Ok labels ->
             is_partition (length tickets) (group_by_label labels)).
  { intros labels Hl. apply fit_predict_labels in Hl.
    rewrite <- Ee, <- Hl. apply group_by_label_partition. }
  assert (Hnames : forall clusters,
             is_partition (length tickets) clusters ->
             _generate_cluster_names env tickets clusters = Ok named ->
             exists clusters0,
               is_partition (length tickets) clusters0
               /\ _generate_cluster_names env tickets clusters0 = Ok named
               /\ (length named = length clusters0 ->
                   is_partition (length tickets) named)).
  { intros clusters Hp Hn. exists clusters. repeat split; try assumption.
    intros Hlen. apply generate_cluster_names_indices in Hn as [_ Hn].
    unfold is_partition in *. now rewrite Hn. }
  destruct (vector_store self) as [vs|] eqn:Evs.
  - unfold on_store.
    destruct (store_embeddings_total embeddings
                (map (fun it => mk_metadata (fst it) (snd it))
                   (combine (seq 0 (length tickets)) tickets)) vs)
      as [b [vs' ->]].
    cbn [vector_store].
    destruct (fit_predict env _ embeddings) as [labels|e] eqn:El;
      [|discriminate].
    destruct (_generate_cluster_names env tickets _) as [named0|e] eqn:En;
      [|discriminate].
    intros [= <- _]. eapply Hnames; [|exact En].
    unfold is_partition.
    rewrite enhance_clusters_keeps_indices by apply group_by_label_keys.
    now apply Hgroup.
  - rewrite Evs.
    destruct (fit_predict env _ embeddings) as [labels|e] eqn:El;
      [|discriminate].
    destruct (_generate_cluster_names env tickets _) as [named0|e] eqn:En;
      [|discriminate].
    intros [= <- _]. eapply Hnames; [|exact En]. now apply Hgroup.
Qed.

End Naming.

(** *** Every path but a repeated name *)

Section PartitionOrCollision.
Import TicketClusteringEngine.

Variable env : collaborators.

Hypothesis embeddings_rows :
  forall texts m,
    embeddings_create env texts = Ok m -> length m = length texts.
Hypothesis fit_transform_rows :
  forall texts m, fit_transform env texts = Ok m -> length m = length texts.
Hypothesis fit_predict_labels :
  forall k x labels, fit_predict env k x = Ok labels -> length labels = length x.

(** [cluster_tickets] returns a partition of the batch on the single
    ticket shortcut, on the lexical path, after the refinement and after
    an exception; the one way to lose tickets is the embedding path giving
    two clusters the same name, which leaves fewer entries than there were
    clusters. *)
Lemma cluster_tickets_partition_unless_renamed (tickets : list string)
  (self : t) :
  exists named,
    fst (cluster_tickets env tickets self) = Ok named
    /\ (is_partition (length tickets) named
        \/ (use_openai self = true
            /\ exists clusters,
                 is_partition (length tickets) clusters
                 /\ _generate_cluster_names env tickets clusters = Ok named
                 /\ (length named < length clusters)%nat)).
Proof.
  destruct (use_openai self) eqn:Eon.
  - destruct (Nat.eq_dec (length tickets) 1) as [H1 | H1].
    + unfold cluster_tickets. rewrite H1. cbn.
      eexists. split; [reflexivity | left; apply single_ticket_partition].
    + rewrite cluster_tickets_run by assumption. rewrite Eon.
      destruct (_cluster_with_openai env tickets self) as [[named|e] self']
        eqn:E; cbn [fst]; eexists; (split; [reflexivity |]).
      * destruct (@cluster_with_openai_clusters env embeddings_rows
                    fit_predict_labels tickets self self' named E)
          as [clusters (Hp & Hn & Hkeep)].
        pose proof (proj1 (generate_cluster_names_indices _ _ _ Hn)) as Hle.
        destruct (Nat.eq_dec (length named) (length clusters)) as [Heq | Hne];
          [left; now apply Hkeep |].
        right. split; [reflexivity |]. exists clusters.
        repeat split; try assumption. lia.
      * left. apply single_cluster_partition.
  - destruct (@cluster_tickets_lexical_partition env fit_transform_rows
                fit_predict_labels tickets self Eon) as [named [E Hp]].
    exists named. split; [exact E | now left].
Qed.

End PartitionOrCollision.

(** *** The repeated name *)

(** C1, on the embedding path with names that collide.  Three tickets,
    two clusters [0, 1] and [2], and a naming request that answers
    "Network Issues" for both, as in [test_openai_integration_success]:
    the second assignment to [named_clusters] replaces the first, and the
    tickets 0 and 1 are in no cluster of the result. *)
Theorem cluster_tickets_name_collision_loses_tickets :
  cluster_tickets Examples.one_name_for_all true Examples.three_tickets false
  = Ok [("Network Issues"%string, [2]%nat)]
  /\ ~ is_partition 3 [("Network Issues"%string, [2]%nat)].
Proof.
  split; [reflexivity |].
  unfold is_partition, all_indices. simpl. intros H.
  apply Permutation_length in H. discriminate.
Qed.

(* ================================================================== *)
(** * Part III: further properties of the code *)
(* ================================================================== *)

(** ** Normalization of embeddings *)

Section Normalization.
Import TicketVectorStore.
Local Open Scope R_scope.

Lemma norm_normalize_row (row : vector) :
  Np.norm row <> 0 -> Np.norm (normalize_row row) = 1.
Proof.
  intros H. apply norm_unit. unfold normalize_row.
  destruct (Req_dec_T (Np.norm row) 0) as [H0 | _]; [contradiction |].
  rewrite dot_scaled by assumption. rewrite norm_square.
  assert (Np.dot row row <> 0) by (rewrite <- norm_square; nra).
  now field.
Qed.

Lemma normalize_row_zero (row : vector) :
  Np.norm row = 0 -> normalize_row row = row.
Proof.
  intros H. unfold normalize_row.
  destruct (Req_dec_T (Np.norm row) 0) as [_ | H0]; [|contradiction].
  apply map_div_1.
Qed.

Lemma normalize_row_idempotent (row : vector) :
  normalize_row (normalize_row row) = normalize_row row.
Proof.
  destruct (Req_dec_T (Np.norm row) 0) as [H | H].
  - now rewrite !normalize_row_zero by (now rewrite ?normalize_row_zero).
  - apply normalize_row_unit.
    rewrite <- norm_square, (@norm_normalize_row row H). ring.
Qed.


(** X2.  [_normalize_embeddings] is idempotent: normalizing normalized
    embeddings changes nothing. *)
Theorem normalize_embeddings_idempotent (embeddings : matrix) :
  _normalize_embeddings (_normalize_embeddings embeddings)
  = _normalize_embeddings embeddings.
Proof.
  change (map normalize_row (map normalize_row embeddings)
          = map normalize_row embeddings).
  rewrite map_map. apply map_ext. intros row. apply normalize_row_idempotent.
Qed.

End Normalization.

(** ** Insertion by index type *)

Section InsertByType.
Import TicketVectorStore.

Variable trained_quantizer : matrix -> vector -> nat.

Lemma ivf_small_batch (dim : nat) (embeddings : matrix)
  (md : list ticket_metadata) :
  (length embeddings < 100)%nat ->
  store_embeddings trained_quantizer embeddings md (__init__ dim ivf)
  = (Ok false, __init__ dim ivf).
Proof.
  intros Hsmall.
  unfold store_embeddings, try_except, bind, get, put, ret, raise, lift,
    _initialize_index.
  destruct (length embeddings =? length md)%nat; cbn [negb]; [|reflexivity].
  rewrite length_normalize_embeddings.
  cbn [__init__ _initialize_index snd index_type is_trained set_is_trained
       set_index negb andb dimension metadata index].
  replace (100 <=? length embeddings)%nat with false
    by (symmetry; apply Nat.leb_gt; lia).
  reflexivity.
Qed.

(** X3.  A store created with the index type "ivf" refuses every batch of
    fewer than 100 vectors: [store_embeddings] returns [False] and the
    store stays as the constructor made it, empty and untrained, however
    many such batches are offered (the "fall back to flat index" branch
    initializes the same inverted file index again). *)
Theorem ivf_store_refuses_small_batches (dim : nat)
  (batches : list (matrix * list ticket_metadata))
  (embeddings : matrix) (md : list ticket_metadata)
  (Hsmall : Forall (fun b => (length (fst b) < 100)%nat) batches)
  (Hlast : (length embeddings < 100)%nat) :
  let st := inserts trained_quantizer batches (__init__ dim ivf) in
  st = __init__ dim ivf
  /\ store_embeddings trained_quantizer embeddings md st
     = (Ok false, __init__ dim ivf)
  /\ Faiss.ntotal (index st) = 0%nat.
Proof.
  cbv zeta.
  assert (E : inserts trained_quantizer batches (__init__ dim ivf)
              = __init__ dim ivf).
  { unfold inserts. induction Hsmall as [|[e m] bs Hb _ IH]; [reflexivity |].
    cbn [fold_left fst snd]. cbn [fst] in Hb.
    now rewrite (ivf_small_batch dim e m Hb). }
  rewrite E. split; [reflexivity |].
  split; [now apply ivf_small_batch | reflexivity].
Qed.

(** On a flat store the index is trained and has the dimension of the
    store. *)
Lemma flat_store_trained (dim : nat)
  (history : list (matrix * list ticket_metadata)) :
  let st := inserts trained_quantizer history (__init__ dim flat) in
  is_trained st = true /\ Faiss.d (index st) = dim
  /\ Faiss.index_trained (index st) = true /\ dimension st = dim
  /\ index_type st = flat.
Proof.
  cbv zeta. unfold inserts.
  assert (H0 : let st := __init__ dim flat in
               is_trained st = true /\ Faiss.d (index st) = dim
               /\ Faiss.index_trained (index st) = true /\ dimension st = dim
               /\ index_type st = flat)
    by (cbv zeta; repeat split).
  assert (Hc : consistent (__init__ dim flat)) by apply consistent_init.
  revert H0 Hc. generalize (__init__ dim flat).
  induction history as [|[e m] bs IH]; intros st H0 Hc; [exact H0 |].
  cbn [fold_left fst snd]. apply IH.
  - destruct (store_embeddings_step trained_quantizer e m Hc) as [[E _] | E];
      cbv zeta in E; rewrite E; cbn [snd]; [|exact H0].
    cbv zeta in H0. destruct H0 as (H1 & H2 & H3 & H4 & H5).
    unfold appended. cbn. repeat split; assumption.
  - now apply consistent_store_embeddings.
Qed.

(** A trained store accepts a batch exactly when the lengths agree and
    the index takes the normalized vectors. *)
Lemma trained_store_accepts (embeddings : matrix)
  (md : list ticket_metadata) (st : t) :
  is_trained st = true ->
  Faiss.index_trained (index st) = true ->
  let out := fst (store_embeddings trained_quantizer embeddings md st) in
  (out = Ok true
   <-> length embeddings = length md
       /\ Faiss.well_shaped (index st) (_normalize_embeddings embeddings)
          = true)
  /\ (out = Ok true \/ out = Ok false).
Proof.
  intros Htr Hit. cbv zeta.
  unfold store_embeddings, try_except, bind, get, put, ret, raise, lift.
  destruct (Nat.eqb_spec (length embeddings) (length md)) as [El | El];
    cbn [negb fst].
  - rewrite Htr. cbn [negb andb]. rewrite Htr.
    unfold Faiss.add. rewrite Hit. cbn [negb].
    destruct (Faiss.well_shaped (index st)
                (_normalize_embeddings embeddings)) eqn:Ews; cbn [negb fst].
    + split; [|now left]. split; [intros _ | reflexivity]. now split.
    + split; [|now right]. split; [discriminate |].
      intros [_ H]. discriminate.
  - split; [|now right]. split; [discriminate | tauto].
Qed.

Lemma well_shaped_normalized (ix : Faiss.index) (embeddings : matrix) :
  Faiss.well_shaped ix (_normalize_embeddings embeddings) = true
  <-> Forall (fun row => length row = Faiss.d ix) embeddings.
Proof.
  unfold Faiss.well_shaped. rewrite forallb_forall, Forall_forall.
  rewrite normalize_embeddings_rows. split.
  - intros H row Hin. apply Nat.eqb_eq.
    rewrite <- (H (normalize_row row)) by now apply in_map.
    unfold normalize_row. now rewrite length_map.
  - intros H nrow Hin. apply in_map_iff in Hin as [row [<- Hin]].
    unfold normalize_row. rewrite length_map. apply Nat.eqb_eq. auto.
Qed.

(** X4.  On a store with the flat index type, [store_embeddings] with a
    batch of at least one vector returns [True] exactly when there are as
    many metadata entries as vectors and every vector has the dimension of
    the store; in every other case it returns [False]. *)
Theorem flat_store_accepts_iff (dim : nat)
  (history : list (matrix * list ticket_metadata))
  (embeddings : matrix) (md : list ticket_metadata)
  (Hrows : embeddings <> []) :
  let st := inserts trained_quantizer history (__init__ dim flat) in
  let out := fst (store_embeddings trained_quantizer embeddings md st) in
  (out = Ok true
   <-> length embeddings = length md
       /\ Forall (fun row => length row = dim) embeddings)
  /\ (out = Ok true \/ out = Ok false).
Proof.
  cbv zeta.
  destruct (flat_store_trained dim history) as (Htr & Hd & Hit & _ & _).
  cbv zeta in Htr, Hd, Hit.
  destruct (@trained_store_accepts embeddings md _ Htr Hit) as [Hiff Hcases].
  cbv zeta in Hiff, Hcases. split; [|exact Hcases].
  rewrite Hiff, well_shaped_normalized, Hd. reflexivity.
Qed.

End InsertByType.

(** ** What a search reports *)

Section SearchHits.
Import TicketVectorStore.
Local Open Scope R_scope.

Variable trained_quantizer : matrix -> vector -> nat.

Lemma insert_desc_perm (h : Faiss.hit) (l : list Faiss.hit) :
  Permutation (Faiss.insert_desc h l) (h :: l).
Proof.
  induction l as [|h' r IH]; simpl; [reflexivity |].
  destruct (Rlt_dec (fst h) (fst h')); [|reflexivity].
  rewrite IH. apply perm_swap.
Qed.

Lemma sort_desc_perm (l : list Faiss.hit) : Permutation (Faiss.sort_desc l) l.
Proof.
  induction l as [|h l IH]; simpl; [reflexivity |].
  rewrite insert_desc_perm. now constructor.
Qed.

Lemma insert_asc_perm (h : Faiss.hit) (l : list Faiss.hit) :
  Permutation (Faiss.insert_asc h l) (h :: l).
Proof.
  induction l as [|h' r IH]; simpl; [reflexivity |].
  destruct (Rlt_dec (fst h') (fst h)); [|reflexivity].
  rewrite IH. apply perm_swap.
Qed.

Lemma sort_asc_perm (l : list Faiss.hit) : Permutation (Faiss.sort_asc l) l.
Proof.
  induction l as [|h l IH]; simpl; [reflexivity |].
  rewrite insert_asc_perm. now constructor.
Qed.

(** Either order of the hits is an arrangement of the hits. *)
Lemma best_first_perm (ix : Faiss.index) (l : list Faiss.hit) :
  Permutation (Faiss.best_first ix l) l.
Proof.
  unfold Faiss.best_first.
  destruct (Faiss.kind ix); [apply sort_desc_perm | apply sort_asc_perm].
Qed.

Lemma NoDup_map_filter (A B : Type) (f : A -> B) (g : A -> bool)
  (l : list A) :
  NoDup (map f l) -> NoDup (map f (filter g l)).
Proof.
  induction l as [|a l IH]; simpl; [auto |].
  intros H. inversion H as [|? ? Hn Hl]; subst.
  destruct (g a); [|auto]. simpl. constructor; [|auto].
  intros Hin. apply Hn. apply in_map_iff in Hin as [x [E Hx]].
  apply filter_In in Hx as [Hx _]. apply in_map_iff. eauto.
Qed.

Lemma NoDup_map_firstn (A B : Type) (f : A -> B) (n : nat) (l : list A) :
  NoDup (map f l) -> NoDup (map f (firstn n l)).
Proof.
  revert n. induction l as [|a l IH]; intros [|n]; simpl; auto using NoDup_nil.
  intros H. inversion H as [|? ? Hn Hl]; subst.
  constructor; [|auto].
  intros Hin. apply Hn. apply in_map_iff in Hin as [x [E Hx]].
  apply firstn_In in Hx. apply in_map_iff. eauto.
Qed.

Lemma in_combine_seq (A : Type) (l : list A) (s i : nat) (x : A) :
  In (i, x) (combine (seq s (length l)) l)
  <-> (s <= i)%nat /\ nth_error l (i - s) = Some x.
Proof.
  revert s. induction l as [|a l IH]; intros s; simpl.
  - split; [tauto |]. intros [_ H]. destruct (i - s)%nat; discriminate.
  - rewrite IH. split.
    + intros [[= <- <-] | [Hs Hn]].
      * split; [lia |]. now rewrite Nat.sub_diag.
      * split; [lia |]. replace (i - s)%nat with (S (i - S s)) by lia.
        exact Hn.
    + intros [Hs Hn]. destruct (Nat.eq_dec s i) as [<- | Hne].
      * rewrite Nat.sub_diag in Hn. injection Hn as <-. now left.
      * right. split; [lia |].
        replace (i - s)%nat with (S (i - S s)) in Hn by lia. exact Hn.
Qed.

(** The vectors that a search visits are stored vectors under their own
    labels, each label once. *)
Lemma visited_labels (ix : Faiss.index) (q : vector) :
  NoDup (map fst (Faiss.visited ix q))
  /\ Forall (fun p => nth_error (Faiss.xb ix) (fst p) = Some (snd p))
            (Faiss.visited ix q).
Proof.
  unfold Faiss.visited, Faiss.ntotal.
  set (all := combine (seq 0 (length (Faiss.xb ix))) (Faiss.xb ix)).
  assert (Hnd : NoDup (map fst all)).
  { unfold all. rewrite map_fst_combine by apply length_seq. apply seq_NoDup. }
  assert (Hall : Forall (fun p => nth_error (Faiss.xb ix) (fst p)
                                  = Some (snd p)) all).
  { apply Forall_forall. intros [i x] Hin. apply in_combine_seq in Hin.
    cbn [fst snd]. destruct Hin as [_ Hn]. now rewrite Nat.sub_0_r in Hn. }
  destruct (Faiss.kind ix); [now split |].
  split; [now apply NoDup_map_filter |].
  apply Forall_forall. intros p Hp. apply filter_In in Hp as [Hp _].
  rewrite Forall_forall in Hall. now apply Hall.
Qed.

(** The loop over the hits keeps, in their order, the hits that pass its
    test, each with the metadata at its label. *)
Lemma collect_results_hits (md : list ticket_metadata) (threshold : R)
  (hits : list Faiss.hit) (results : list similar_ticket) :
  collect_results md threshold hits = Ok results ->
  Forall2 (fun r h => similarity_score r = fst h
                      /\ getitem md (snd h) = Ok (similar_metadata r))
          results (filter (above_threshold threshold) hits).
Proof.
  revert results. induction hits as [|[score idx] rest IH]; intros results.
  - simpl. intros [= <-]. constructor.
  - cbn [collect_results filter]. unfold above_threshold at 1. cbn [fst snd].
    destruct (negb (idx =? -1)%Z
              && (if Rle_dec threshold score then true else false));
      [|apply IH].
    destruct (getitem md idx) as [m|e] eqn:Em; [|discriminate].
    destruct (collect_results md threshold rest) as [rs|e]; [|discriminate].
    intros [= <-]. constructor; [|now apply IH].
    split; [reflexivity | exact Em].
Qed.

Lemma getitem_of_nat (A : Type) (l : list A) (i : nat) :
  getitem l (Z.of_nat i)
  = match nth_error l i with Some a => Ok a | None => Raise IndexError end.
Proof.
  unfold getitem.
  assert (E : (Z.of_nat i <? 0)%Z = false) by (apply Z.ltb_ge; lia).
  rewrite E. cbv zeta. now rewrite E, Nat2Z.id.
Qed.

(** The loop does not fail when every label is a position of the metadata
    list. *)
Lemma collect_results_total (md : list ticket_metadata) (threshold : R)
  (hits : list Faiss.hit) :
  Forall (fun h => snd h = (-1)%Z
                   \/ exists i, snd h = Z.of_nat i /\ (i < length md)%nat)
         hits ->
  exists results, collect_results md threshold hits = Ok results.
Proof.
  induction 1 as [|[score idx] rest Hidx _ [rs IH]]; [now exists [] |].
  cbn [collect_results snd] in *.
  destruct Hidx as [-> | (i & -> & Hi)]; [now exists rs |].
  destruct (negb _ && _); [|now exists rs].
  rewrite getitem_of_nat, IH.
  destruct (nth_error md i) as [m|] eqn:En; [eauto |].
  apply nth_error_None in En. lia.
Qed.

(** The hits of one row that pass the test of the loop. *)
Lemma kept_hits (ix : Faiss.index) (k : nat) (q : vector) (threshold : R) :
  let scored :=
    map (fun p => (Faiss.score ix q (snd p), Z.of_nat (fst p)))
        (Faiss.visited ix q) in
  filter (above_threshold threshold) (Faiss.search_row ix k q)
  = filter (above_threshold threshold)
      (firstn k (Faiss.best_first ix scored)).
Proof.
  cbv zeta. unfold Faiss.search_row, Faiss.pad.
  now rewrite filter_app, above_threshold_padding, app_nil_r.
Qed.

Lemma NoDup_scored_labels (ix : Faiss.index) (q : vector) :
  NoDup (map snd
           (map (fun p => (Faiss.score ix q (snd p), Z.of_nat (fst p)))
                (Faiss.visited ix q))).
Proof.
  rewrite map_map. cbn [snd].
  rewrite <- (map_map fst Z.of_nat).
  apply Finite.Injective_map_NoDup; [|apply visited_labels].
  intros a b. apply Nat2Z.inj.
Qed.

Lemma length_firstn_le (A : Type) (n : nat) (l : list A) :
  (length (firstn n l) <= n)%nat.
Proof. rewrite length_firstn. lia. Qed.

Lemma length_filter_le (A : Type) (f : A -> bool) (l : list A) :
  (length (filter f l) <= length l)%nat.
Proof.
  induction l as [|a l IH]; simpl; [lia |]. destruct (f a); simpl; lia.
Qed.

(** X5.  The results of a search are distinct stored tickets: each result
    is the metadata at some position of the store together with the score
    that the index computes for the normalized query and the vector stored
    at that position (the inner product on a flat index, the squared
    Euclidean distance on an inverted file index; floating-point numbers
    read as real numbers), no position is reported twice, and there are at
    most [k] results (none when [k] is not positive). *)
Theorem search_similar_tickets_reports_stored_pairs (dim : nat)
  (ty : index_type_t) (history : list (matrix * list ticket_metadata))
  (query_embedding : vector) (k : Z) (threshold : R) :
  let st := inserts trained_quantizer history (__init__ dim ty) in
  exists (results : list similar_ticket) (positions : list nat),
    search_similar_tickets query_embedding k threshold st = (Ok results, st)
    /\ NoDup positions
    /\ (Z.of_nat (length results) <= Z.max 0 k)%Z
    /\ Forall2
         (fun r i =>
            nth_error (metadata st) i = Some (similar_metadata r)
            /\ exists x,
                 nth_error (Faiss.xb (index st)) i = Some x
                 /\ similarity_score r
                    = Faiss.score (index st) (normalize_row query_embedding) x)
         results positions.
Proof.
  intros st.
  assert (Hnil : exists (results : list similar_ticket) (positions : list nat),
             (Ok (@nil similar_ticket), st) = (Ok results, st)
             /\ NoDup positions
             /\ (Z.of_nat (length results) <= Z.max 0 k)%Z
             /\ Forall2
                  (fun r i =>
                     nth_error (metadata st) i = Some (similar_metadata r)
                     /\ exists x,
                          nth_error (Faiss.xb (index st)) i = Some x
                          /\ similarity_score r
                             = Faiss.score (index st)
                                 (normalize_row query_embedding) x)
                  results positions).
  { exists [], []. repeat split; [constructor | simpl; lia | constructor]. }
  unfold search_similar_tickets, try_except, bind, get, ret, lift.
  destruct (Faiss.ntotal (index st) =? 0)%nat; [exact Hnil |].
  change (_normalize_embeddings [query_embedding])
    with [normalize_row query_embedding].
  cbv zeta. set (q := normalize_row query_embedding) in *.
  destruct (Faiss.search (index st) [q] k) as [found|e] eqn:Es;
    [|exact Hnil].
  assert (Hk : (0 < k)%Z).
  { unfold Faiss.search in Es. destruct (negb _); [discriminate |].
    destruct (Z.leb_spec k 0); [discriminate | assumption]. }
  destruct (getitem found 0) as [row|e] eqn:Er; [|exact Hnil].
  destruct (collect_results (metadata st) threshold row)
    as [results|e] eqn:Ec; [|exact Hnil].
  apply collect_results_hits in Ec.
  rewrite (search_first_row _ _ _ Es Er), kept_hits in Ec.
  set (scored := map (fun p => (Faiss.score (index st) q (snd p),
                                Z.of_nat (fst p)))
                     (Faiss.visited (index st) q)) in *.
  set (kept := filter (above_threshold threshold)
                 (firstn (Z.to_nat k)
                    (Faiss.best_first (index st) scored))) in *.
  exists results, (map (fun h => Z.to_nat (snd h)) kept).
  split; [reflexivity |].
  assert (Hin : forall h, In h kept -> exists p,
               In p (Faiss.visited (index st) q)
               /\ h = (Faiss.score (index st) q (snd p), Z.of_nat (fst p))).
  { intros h Hh. apply filter_In in Hh as [Hh _].
    apply firstn_In in Hh.
    apply (Permutation_in _ (best_first_perm (index st) scored)) in Hh.
    apply in_map_iff in Hh as [p [<- Hp]]. eauto. }
  split; [|split].
  - rewrite <- (map_map snd Z.to_nat).
    apply Finite.Injective_map_NoDup_in.
    + intros a b Ha Hb E.
      apply in_map_iff in Ha as [ha [<- Ha]], Hb as [hb [<- Hb]].
      destruct (Hin _ Ha) as (pa & _ & ->), (Hin _ Hb) as (pb & _ & ->).
      cbn [snd] in *. rewrite !Nat2Z.id in E. now rewrite E.
    + apply NoDup_map_filter, NoDup_map_firstn.
      eapply Permutation_NoDup;
        [apply Permutation_map; symmetry; apply best_first_perm |].
      apply NoDup_scored_labels.
  - apply Forall2_length in Ec. rewrite Ec.
    pose proof (length_filter_le (above_threshold threshold)
                  (firstn (Z.to_nat k) (Faiss.best_first (index st) scored))).
    pose proof (length_firstn_le (Z.to_nat k)
                  (Faiss.best_first (index st) scored)).
    assert (length kept <= Z.to_nat k)%nat
      by exact (Nat.le_trans _ _ _ H H0).
    clear - H1 Hk. clearbody kept. unfold Faiss.hit in *. lia.
  - assert (Hall : forall h, In h kept -> In h kept) by auto.
    revert Ec Hall. generalize kept at 1 2 4. intros l Hl.
    induction Hl as [|r h rs hs [Hscore Hmd] _ IH]; intros Hall;
      [constructor |].
    cbn [map]. constructor; [|apply IH; intros; apply Hall; now right].
    destruct (Hin h (Hall h (or_introl eq_refl))) as (p & Hp & ->).
    cbn [fst snd] in *.
    rewrite Nat2Z.id. rewrite getitem_of_nat in Hmd.
    destruct (nth_error (metadata st) (fst p)) as [m|]; [|discriminate].
    injection Hmd as ->. split; [reflexivity |].
    exists (snd p). split; [|exact Hscore].
    destruct (visited_labels (index st) q) as [_ Hv].
    rewrite Forall_forall in Hv. now apply Hv.
Qed.

(** A search over a trained index with as many metadata entries as
    vectors, a query of the index's dimension and [k] at least the number
    of vectors reports every ticket that the index visits and scores at or
    above the threshold. *)
Lemma exhaustive_search_visited (st : t) (query_embedding : vector) (k : Z)
  (threshold : R) :
  Faiss.index_trained (index st) = true ->
  length (metadata st) = Faiss.ntotal (index st) ->
  length query_embedding = Faiss.d (index st) ->
  (Z.of_nat (Faiss.ntotal (index st)) <= k)%Z ->
  exists results,
    search_similar_tickets query_embedding k threshold st = (Ok results, st)
    /\ forall i x m,
         In (i, x)
            (Faiss.visited (index st) (normalize_row query_embedding)) ->
         nth_error (metadata st) i = Some m ->
         threshold
         <= Faiss.score (index st) (normalize_row query_embedding) x ->
         In (mk_similar m
               (Faiss.score (index st) (normalize_row query_embedding) x))
            results.
Proof.
  intros Hit Hlen Hq Hk.
  unfold search_similar_tickets, try_except, bind, get, ret, lift.
  destruct (Nat.eqb_spec (Faiss.ntotal (index st)) 0) as [E0 | E0].
  { exists []. split; [reflexivity |]. intros i x m Hx.
    apply visited_In in Hx. cbn [snd] in Hx.
    unfold Faiss.ntotal in E0. apply length_zero_iff_nil in E0.
    rewrite E0 in Hx. destruct Hx. }
  change (_normalize_embeddings [query_embedding])
    with [normalize_row query_embedding].
  cbv zeta. set (q := normalize_row query_embedding) in *.
  assert (Es : Faiss.search (index st) [q] k
               = Ok [Faiss.search_row (index st) (Z.to_nat k) q]).
  { unfold Faiss.search, Faiss.well_shaped. cbn [forallb].
    unfold q at 1, normalize_row. rewrite length_map, Hq, Nat.eqb_refl.
    cbn [andb negb].
    replace (k <=? 0)%Z with false by (symmetry; apply Z.leb_gt; lia).
    now rewrite Hit. }
  rewrite Es. cbn [getitem Z.ltb Z.compare length Z.to_nat nth_error].
  set (row := Faiss.search_row (index st) (Z.to_nat k) q).
  set (scored := map (fun p => (Faiss.score (index st) q (snd p),
                                Z.of_nat (fst p)))
                     (Faiss.visited (index st) q)).
  destruct (visited_labels (index st) q) as [_ Hlabels].
  rewrite Forall_forall in Hlabels.
  assert (Hshort : (length (Faiss.visited (index st) q)
                    <= Faiss.ntotal (index st))%nat).
  { unfold Faiss.visited, Faiss.ntotal.
    assert (Hall : length (combine (seq 0 (length (Faiss.xb (index st))))
                             (Faiss.xb (index st)))
                   = length (Faiss.xb (index st)))
      by (rewrite length_combine, length_seq; lia).
    destruct (Faiss.kind (index st)); [lia |].
    rewrite <- Hall at 2. apply length_filter_le. }
  assert (Hrow : row
                 = Faiss.pad (Faiss.worst (index st)) (Z.to_nat k)
                     (Faiss.best_first (index st) scored)).
  { unfold row, Faiss.search_row. fold scored. f_equal.
    apply firstn_all2.
    rewrite (Permutation_length (best_first_perm (index st) scored)).
    unfold scored. rewrite length_map. lia. }
  destruct (@collect_results_total (metadata st) threshold row)
    as [results Ec].
  { rewrite Hrow. unfold Faiss.pad. apply Forall_app. split.
    - apply Forall_forall. intros h Hh.
      apply (Permutation_in _ (best_first_perm (index st) scored)) in Hh.
      apply in_map_iff in Hh as [[i x] [<- Hp]].
      apply Hlabels in Hp. cbn [fst snd] in *.
      right. exists i. split; [reflexivity |].
      assert (nth_error (Faiss.xb (index st)) i <> None) by congruence.
      apply nth_error_Some in H. unfold Faiss.ntotal in Hlen. lia.
    - apply Forall_forall. intros h Hh. apply repeat_spec in Hh.
      subst h. now left. }
  rewrite Ec. exists results. split; [reflexivity |].
  intros i x m Hx Hm Hth.
  apply collect_results_hits in Ec.
  assert (Hkept : In (Faiss.score (index st) q x, Z.of_nat i)
                     (filter (above_threshold threshold) row)).
  { apply filter_In. split.
    - rewrite Hrow. unfold Faiss.pad. apply in_or_app. left.
      apply (Permutation_in _
               (Permutation_sym (best_first_perm (index st) scored))).
      unfold scored. apply in_map_iff. exists (i, x).
      split; [reflexivity | exact Hx].
    - unfold above_threshold. cbn [fst snd].
      destruct (Z.eqb_spec (Z.of_nat i) (-1)); [lia |].
      destruct (Rle_dec threshold (Faiss.score (index st) q x));
        [reflexivity | contradiction]. }
  unfold Faiss.hit in *.
  revert Ec Hkept. generalize (filter (above_threshold threshold) row).
  intros l Ec. induction Ec as [|r h rs hs [Hscore Hmd] _ IH]; [intros [] |].
  intros [-> | Hin]; [|right; now apply IH].
  left. cbn [fst snd] in *. rewrite getitem_of_nat, Hm in Hmd.
  injection Hmd as ->. destruct r as [m' s]. cbn in *. now subst s.
Qed.

(** On a flat index every stored vector is visited, and the score is the
    inner product. *)
Lemma exhaustive_search_on (st : t) (query_embedding : vector) (k : Z)
  (threshold : R) :
  Faiss.kind (index st) = Faiss.IndexFlatIP ->
  Faiss.index_trained (index st) = true ->
  length (metadata st) = Faiss.ntotal (index st) ->
  length query_embedding = Faiss.d (index st) ->
  (Z.of_nat (Faiss.ntotal (index st)) <= k)%Z ->
  exists results,
    search_similar_tickets query_embedding k threshold st = (Ok results, st)
    /\ forall i x m,
         nth_error (Faiss.xb (index st)) i = Some x ->
         nth_error (metadata st) i = Some m ->
         threshold <= Np.dot (normalize_row query_embedding) x ->
         In (mk_similar m (Np.dot (normalize_row query_embedding) x)) results.
Proof.
  intros Hkind Hit Hlen Hq Hk.
  destruct (@exhaustive_search_visited st query_embedding k threshold
              Hit Hlen Hq Hk) as [results [Es Hall]].
  exists results. split; [exact Es |].
  intros i x m Hx Hm Hth. specialize (Hall i x m).
  unfold Faiss.score, Faiss.visited, Faiss.ntotal in Hall.
  rewrite Hkind in Hall. apply Hall; [|exact Hm | exact Hth].
  apply in_combine_seq. split; [lia |]. now rewrite Nat.sub_0_r.
Qed.

(** X6.  On a store with the flat index type, a search with a query of the
    store's dimension and [k] at least the number of stored vectors is
    exhaustive: every stored ticket whose vector has an inner product with
    the normalized query of at least the threshold is among the results,
    with that score.  Floating-point numbers are read as real numbers: in
    a run the score is the [float32] rounding of the inner product, and a
    ticket whose inner product is within rounding of the threshold can
    fall on either side of it. *)
Theorem search_similar_tickets_exhaustive (dim : nat)
  (history : list (matrix * list ticket_metadata))
  (query_embedding : vector) (k : Z) (threshold : R)
  (Hq : length query_embedding = dim)
  (Hk : (Z.of_nat
           (Faiss.ntotal
              (index (inserts trained_quantizer history (__init__ dim flat))))
         <= k)%Z) :
  let st := inserts trained_quantizer history (__init__ dim flat) in
  exists results,
    search_similar_tickets query_embedding k threshold st = (Ok results, st)
    /\ forall i x m,
         nth_error (Faiss.xb (index st)) i = Some x ->
         nth_error (metadata st) i = Some m ->
         threshold <= Np.dot (normalize_row query_embedding) x ->
         In (mk_similar m (Np.dot (normalize_row query_embedding) x)) results.
Proof.
  intros st.
  destruct (flat_store_trained trained_quantizer dim history)
    as (_ & Hd & Hit & _ & Hty).
  assert (Hc : consistent st)
    by (apply consistent_inserts, consistent_init).
  destruct Hc as (_ & _ & Hkind & _ & Hlen).
  cbv zeta in Hd, Hit, Hty. fold st in Hd, Hit, Hty, Hk.
  rewrite Hty in Hkind.
  apply exhaustive_search_on; try assumption. now rewrite Hd.
Qed.

End SearchHits.

Lemma flat_store_accepts_iff_witness :
  let tq := fun (_ : matrix) (_ : vector) => 0%nat in
  let st := TicketVectorStore.inserts tq []
              (TicketVectorStore.__init__ 2 TicketVectorStore.flat) in
  [[1; 0]]%R <> []
  /\ (fst (TicketVectorStore.store_embeddings tq [[1; 0]]%R
             [Examples.vpn_down] st) = Ok true
      <-> length [[1; 0]]%R = length [Examples.vpn_down]
          /\ Forall (fun row => length row = 2%nat) [[1; 0]]%R).
Proof.
  cbv zeta.
  assert (Hrows : [[1; 0]]%R <> []) by discriminate.
  split; [exact Hrows |].
  exact (proj1 (@flat_store_accepts_iff (fun _ _ => 0%nat) 2 []
                  [[1; 0]]%R [Examples.vpn_down] Hrows)).
Defined.

Lemma ivf_store_refuses_small_batches_witness :
  let tq := fun (_ : matrix) (_ : vector) => 0%nat in
  let fresh := TicketVectorStore.__init__ 2 TicketVectorStore.ivf in
  let batches := [([[1; 0]]%R, [Examples.vpn_down])] in
  Forall (fun b => (length (fst b) < 100)%nat) batches
  /\ (length [[0; 1]]%R < 100)%nat
  /\ TicketVectorStore.inserts tq batches fresh = fresh
  /\ TicketVectorStore.store_embeddings tq [[0; 1]]%R [Examples.printer_jam]
       (TicketVectorStore.inserts tq batches fresh)
     = (Ok false, fresh).
Proof.
  cbv zeta.
  assert (Hsmall : Forall
                     (fun b : matrix
                              * list TicketVectorStore.ticket_metadata =>
                        (length (fst b) < 100)%nat)
                     [([[1; 0]]%R, [Examples.vpn_down])])
    by (repeat constructor; simpl; lia).
  assert (Hlast : (length [[0; 1]]%R < 100)%nat) by (simpl; lia).
  split; [exact Hsmall |]. split; [exact Hlast |].
  destruct (@ivf_store_refuses_small_batches (fun _ _ => 0%nat) 2
              [([[1; 0]]%R, [Examples.vpn_down])] [[0; 1]]%R
              [Examples.printer_jam] Hsmall Hlast) as (H1 & H2 & _).
  split; [exact H1 | exact H2].
Defined.

Lemma search_similar_tickets_exhaustive_witness :
  let tq := fun (_ : matrix) (_ : vector) => 0%nat in
  let history :=
    [([[1; 0]; [0; 1]]%R, [Examples.vpn_down; Examples.printer_jam])] in
  let st :=
    TicketVectorStore.inserts tq history
      (TicketVectorStore.__init__ 2 TicketVectorStore.flat) in
  length [1; 0]%R = 2%nat
  /\ (Z.of_nat (Faiss.ntotal (TicketVectorStore.index st)) <= 2)%Z
  /\ exists results,
       TicketVectorStore.search_similar_tickets [1; 0]%R 2 (1 / 2)%R st
       = (Ok results, st)
       /\ forall i x m,
            nth_error (Faiss.xb (TicketVectorStore.index st)) i = Some x ->
            nth_error (TicketVectorStore.metadata st) i = Some m ->
            (1 / 2 <= Np.dot (TicketVectorStore.normalize_row [1; 0]) x)%R ->
            In (TicketVectorStore.mk_similar m
                  (Np.dot (TicketVectorStore.normalize_row [1; 0]%R) x))
               results.
Proof.
  cbv zeta.
  assert (Hk : (Z.of_nat
                  (Faiss.ntotal
                     (TicketVectorStore.index
                        (TicketVectorStore.inserts (fun _ _ => 0%nat)
                           [([[1; 0]; [0; 1]]%R,
                             [Examples.vpn_down; Examples.printer_jam])]
                           (TicketVectorStore.__init__ 2
                              TicketVectorStore.flat)))) <= 2)%Z).
  { unfold TicketVectorStore.inserts. cbn [fold_left fst snd].
    rewrite store_two_axes. cbn. lia. }
  split; [reflexivity |]. split; [exact Hk |].
  exact (@search_similar_tickets_exhaustive (fun _ _ => 0%nat) 2
           [([[1; 0]; [0; 1]]%R, [Examples.vpn_down; Examples.printer_jam])]
           [1; 0]%R 2%Z (1 / 2)%R eq_refl Hk).
Defined.

(** ** The statistics of a cluster *)

Section Representatives.
Import TicketVectorStore.
Local Open Scope R_scope.

Lemma take_rows_in_range (embeddings : matrix) (cluster_indices : list nat) :
  Forall (fun i => (i < length embeddings)%nat) cluster_indices ->
  take_rows embeddings cluster_indices
  = Ok (map (fun i => nth i embeddings []) cluster_indices).
Proof.
  induction 1 as [|i rest Hi _ IH]; [reflexivity |].
  cbn [take_rows map]. rewrite IH.
  destruct (nth_error embeddings i) as [row|] eqn:En.
  - now rewrite (nth_error_nth _ _ _ En).
  - apply nth_error_None in En. lia.
Qed.

Lemma take_rows_out_of_range (embeddings : matrix)
  (cluster_indices : list nat) :
  Exists (fun i => (length embeddings <= i)%nat) cluster_indices ->
  take_rows embeddings cluster_indices = Raise IndexError.
Proof.
  induction 1 as [i rest Hi | i rest _ IH]; cbn [take_rows].
  - apply nth_error_None in Hi. now rewrite Hi.
  - rewrite IH. now destruct (nth_error embeddings i).
Qed.

Lemma in_range_or_not (n : nat) (l : list nat) :
  Forall (fun i => (i < n)%nat) l \/ Exists (fun i => (n <= i)%nat) l.
Proof.
  induction l as [|i l [IH | IH]]; [left; constructor | |].
  - destruct (Nat.lt_ge_cases i n); [left | right]; now constructor.
  - right. now constructor.
Qed.


Lemma first_nan_spec (l : list (option R)) :
  match Np.first_nan l with
  | Some i => nth_error l i = Some None
  | None => Forall (fun o => o <> None) l
  end.
Proof.
  induction l as [|[x|] r IH]; cbn [Np.first_nan]; [constructor | |reflexivity].
  destruct (Np.first_nan r); cbn [option_map nth_error]; [exact IH |].
  constructor; [discriminate | exact IH].
Qed.

Lemma argmax_from_spec (l pre : list R) (best : nat) (best_val : R) :
  nth_error pre best = Some best_val ->
  Forall (fun y => y <= best_val) pre ->
  exists v,
    nth_error (pre ++ l) (Np.argmax_from best best_val (length pre) l)
    = Some v
    /\ Forall (fun y => y <= v) (pre ++ l).
Proof.
  revert pre best best_val.
  induction l as [|x r IH]; intros pre best best_val Hb Hle; cbn.
  - exists best_val. rewrite app_nil_r. now split.
  - replace (pre ++ x :: r) with ((pre ++ [x]) ++ r)
      by now rewrite <- app_assoc.
    replace (S (length pre)) with (length (pre ++ [x]))
      by (rewrite length_app; simpl; lia).
    destruct (Rlt_dec best_val x) as [Hlt | Hge].
    + apply IH.
      * rewrite nth_error_app2, Nat.sub_diag by lia. reflexivity.
      * apply Forall_app. split; [|constructor; [lra | constructor]].
        eapply Forall_impl; [|exact Hle]. cbv beta. intros; lra.
    + apply IH.
      * rewrite nth_error_app1; [exact Hb |].
        apply nth_error_Some. congruence.
      * apply Forall_app.
        split; [exact Hle | constructor; [lra | constructor]].
Qed.

(** [np.argmax] on a non-empty list: the position of a NaN when there is
    one, else a position that holds the largest value. *)
Lemma argmax_spec (l : list (option R)) :
  l <> [] ->
  match nth_error l (Np.argmax l) with
  | Some None => True
  | Some (Some v) => Forall (fun o => exists y, o = Some y /\ y <= v) l
  | None => False
  end.
Proof.
  intros Hne. unfold Np.argmax.
  pose proof (first_nan_spec l) as Hnan.
  destruct (Np.first_nan l) as [i|]; [now rewrite Hnan |].
  destruct l as [|o r]; [congruence |]. clear Hne.
  set (unwrap := fun o : option R => match o with Some x => x | None => 0 end).
  cbn [map].
  destruct (@argmax_from_spec (map unwrap r) [unwrap o] 0%nat (unwrap o)
              eq_refl) as (v & Hv & Hmax); [constructor; [lra | constructor] |].
  cbn [length app] in Hv, Hmax.
  change (unwrap o :: map unwrap r) with (map unwrap (o :: r)) in Hv, Hmax.
  rewrite nth_error_map in Hv.
  destruct (nth_error (o :: r) _) as [[y|]|] eqn:En; cbn in Hv;
    try discriminate.
  - injection Hv as <-. rewrite Forall_forall in *. intros [z|] Hz.
    + exists z. split; [reflexivity |].
      apply Hmax. apply in_map_iff. now exists (Some z).
    + now destruct (Hnan None Hz).
  - apply nth_error_In in En. rewrite Forall_forall in Hnan.
    now destruct (Hnan None En).
Qed.

Lemma argmax_bound (l : list (option R)) :
  l <> [] -> (Np.argmax l < length l)%nat.
Proof.
  intros Hne. pose proof (@argmax_spec l Hne) as H.
  apply nth_error_Some. now destruct (nth_error l (Np.argmax l)).
Qed.

(** X8.  For a non-empty cluster whose indices are rows of the embeddings,
    [get_cluster_representatives] returns the statistics of exactly those
    rows: the size is the number of indices, the centroid and the cohesion
    are those of the selected rows, and the representative is one of the
    indices of the cluster. *)
Theorem get_cluster_representatives_stats (cluster_indices : list nat)
  (embeddings : matrix)
  (Hne : cluster_indices <> [])
  (Hin : Forall (fun i => (i < length embeddings)%nat) cluster_indices) :
  let rows := map (fun i => nth i embeddings []) cluster_indices in
  exists stats,
    get_cluster_representatives cluster_indices embeddings = Some stats
    /\ size stats = length cluster_indices
    /\ centroid stats = Np.mean_axis0 rows
    /\ cohesion_score stats = _calculate_cluster_cohesion rows
    /\ In (representative_ticket_idx stats) cluster_indices.
Proof.
  cbv zeta. unfold get_cluster_representatives.
  rewrite (@take_rows_in_range _ _ Hin).
  destruct cluster_indices as [|i rest]; [congruence |].
  eexists. split; [reflexivity |]. cbn [size centroid cohesion_score
                                        representative_ticket_idx].
  repeat split. apply nth_In.
  set (sims := map _ (map _ (i :: rest))).
  replace (length (i :: rest)) with (length sims)
    by (unfold sims; now rewrite !length_map).
  apply argmax_bound. discriminate.
Qed.


End Representatives.

Lemma get_cluster_representatives_stats_witness :
  let embeddings := [[1; 0]; [0; 1]]%R in
  [0; 1]%nat <> []
  /\ Forall (fun i => (i < length embeddings)%nat) [0; 1]%nat
  /\ exists stats,
       TicketVectorStore.get_cluster_representatives [0; 1]%nat embeddings
       = Some stats
       /\ TicketVectorStore.size stats = 2%nat
       /\ In (TicketVectorStore.representative_ticket_idx stats) [0; 1]%nat.
Proof.
  cbv zeta.
  assert (Hne : [0; 1]%nat <> []) by discriminate.
  assert (Hin : Forall (fun i => (i < length [[1; 0]; [0; 1]]%R)%nat)
                  [0; 1]%nat) by (repeat constructor).
  split; [exact Hne |]. split; [exact Hin |].
  destruct (@get_cluster_representatives_stats _ _ Hne Hin)
    as (stats & E & Hsize & _ & _ & Hrep).
  exists stats. split; [exact E |]. split; [exact Hsize | exact Hrep].
Defined.


(** ** Cohesion and the order of the tickets *)

Section CohesionOrder.
Import TicketVectorStore.
Local Open Scope R_scope.

Lemma pairs_symmetric_perm (A B : Type) (f : A * A -> list B)
  (l l' : list A) :
  (forall a b, f (a, b) = f (b, a)) ->
  Permutation l l' ->
  Permutation (flat_map f (pairs l)) (flat_map f (pairs l')).
Proof.
  intros Hsym. induction 1 as [|x l l' Hl IH|x y l|l l' l'' _ IH1 _ IH2].
  - reflexivity.
  - cbn [pairs]. rewrite !flat_map_app.
    apply Permutation_app; [|exact IH].
    apply Permutation_flat_map, Permutation_map, Hl.
  - cbn [pairs map]. rewrite !flat_map_app. cbn [flat_map].
    rewrite (Hsym y x), <- !app_assoc.
    apply Permutation_app_head. rewrite !app_assoc.
    apply Permutation_app_tail, Permutation_app_comm.
  - now transitivity (flat_map f (pairs l')).
Qed.

Lemma cosine_similarity_comm (u v : vector) :
  cosine_similarity u v = cosine_similarity v u.
Proof.
  unfold cosine_similarity. cbv zeta.
  now rewrite (Rmult_comm (Np.norm u)), (dot_comm u).
Qed.

Lemma positive_cosines_perm (a b : matrix) :
  Permutation a b -> Permutation (positive_cosines a) (positive_cosines b).
Proof.
  intros H. unfold positive_cosines, pairwise_cosines.
  rewrite !flat_map_concat_map, !map_map, <- !flat_map_concat_map.
  apply pairs_symmetric_perm; [|exact H].
  intros u v. cbn [fst snd]. now rewrite cosine_similarity_comm.
Qed.

Lemma sum_perm (l l' : list R) : Permutation l l' -> Np.sum l = Np.sum l'.
Proof.
  induction 1 as [| | |l l' l'' _ IH1 _ IH2]; simpl; lra.
Qed.

(** X10.  The cohesion of a cluster does not depend on the order of its
    vectors (the floating-point numbers read as real numbers): two
    arrangements of the same vectors have the same cohesion score. *)
Theorem cluster_cohesion_order_independent (a b : matrix)
  (Hperm : Permutation a b) :
  _calculate_cluster_cohesion a = _calculate_cluster_cohesion b.
Proof.
  rewrite !cohesion_equation, (Permutation_length Hperm).
  destruct (length b <=? 1)%nat; [reflexivity |].
  pose proof (positive_cosines_perm Hperm) as Hp.
  destruct (positive_cosines a) as [|x l] eqn:Ea.
  - apply Permutation_nil in Hp. now rewrite Hp.
  - destruct (positive_cosines b) as [|y l'] eqn:Eb.
    + symmetry in Hp. apply Permutation_nil in Hp. discriminate.
    + unfold Np.mean.
      now rewrite (sum_perm Hp), (Permutation_length Hp).
Qed.

End CohesionOrder.

Lemma cluster_cohesion_order_independent_witness :
  TicketVectorStore._calculate_cluster_cohesion [[1; 0]; [0; 1]; [1; 1]]%R
  = TicketVectorStore._calculate_cluster_cohesion
      [[0; 1]; [1; 0]; [1; 1]]%R.
Proof.
  apply cluster_cohesion_order_independent. apply perm_swap.
Defined.

(** ** The grouping loop *)

Section GroupingLoop.
Import TicketClusteringEngine.

Lemma dict_get_set_other (k k' : nat) (v : list nat) (d : clusters_by_label) :
  k <> k' ->
  Dict.get Nat.eqb k (Dict.set Nat.eqb k' v d) = Dict.get Nat.eqb k d.
Proof.
  intros Hne. induction d as [|[k0 v0] d IH]; simpl.
  - destruct (Nat.eqb_spec k k'); [contradiction | reflexivity].
  - destruct (Nat.eqb_spec k' k0) as [-> | Hne0]; simpl.
    + destruct (Nat.eqb_spec k k0); [contradiction | reflexivity].
    + now rewrite IH.
Qed.

(** One round of the loop appends the position to the list of its label
    and leaves the other lists alone. *)
Lemma group_step_get (clusters : clusters_by_label) (i label k : nat) :
  let clusters1 :=
    if Dict.mem Nat.eqb label clusters then clusters
    else Dict.set Nat.eqb label [] clusters in
  Dict.get Nat.eqb k
    match Dict.get Nat.eqb label clusters1 with
    | Some indices => Dict.set Nat.eqb label (indices ++ [i]) clusters1
    | None => clusters1
    end
  = if (label =? k)%nat
    then Some (match Dict.get Nat.eqb k clusters with
               | Some indices => indices ++ [i]
               | None => [i]
               end)
    else Dict.get Nat.eqb k clusters.
Proof.
  cbv zeta. unfold Dict.mem.
  destruct (Nat.eqb_spec label k) as [-> | Hne].
  - destruct (Dict.get Nat.eqb k clusters) as [l|] eqn:E.
    + rewrite E. apply dict_get_set, Nat.eqb_refl.
    + rewrite dict_get_set by apply Nat.eqb_refl.
      apply dict_get_set, Nat.eqb_refl.
  - destruct (Dict.get Nat.eqb label clusters) as [l|] eqn:E.
    + rewrite E. apply dict_get_set_other. congruence.
    + rewrite dict_get_set by apply Nat.eqb_refl.
      rewrite !dict_get_set_other by congruence. reflexivity.
Qed.

Lemma group_fold_get (items : list (nat * nat)) (clusters : clusters_by_label)
  (k : nat) :
  Dict.get Nat.eqb k
    (fold_left
       (fun clusters il =>
          let '(i, label) := il in
          let clusters :=
            if Dict.mem Nat.eqb label clusters then clusters
            else Dict.set Nat.eqb label [] clusters in
          match Dict.get Nat.eqb label clusters with
          | Some indices => Dict.set Nat.eqb label (indices ++ [i]) clusters
          | None => clusters
          end)
       items clusters)
  = match Dict.get Nat.eqb k clusters,
          map fst (filter (fun il => (snd il =? k)%nat) items) with
    | None, [] => None
    | None, found => Some found
    | Some indices, found => Some (indices ++ found)
    end.
Proof.
  revert clusters. induction items as [|[i label] items IH]; intros clusters.
  - simpl. destruct (Dict.get Nat.eqb k clusters); [|reflexivity].
    now rewrite app_nil_r.
  - cbn [fold_left filter snd]. rewrite IH, group_step_get.
    destruct (Nat.eqb_spec label k) as [-> | Hne]; [|reflexivity].
    cbn [map fst].
    destruct (Dict.get Nat.eqb k clusters) as [l|].
    + now rewrite <- app_assoc.
    + reflexivity.
Qed.

Lemma positions_of_In (label : nat) (cluster_labels : list nat) :
  In label cluster_labels <-> positions_of label cluster_labels <> [].
Proof.
  unfold positions_of.
  set (items := combine (seq 0 (length cluster_labels)) cluster_labels).
  split.
  - intros Hin. apply In_nth_error in Hin as [i Hi].
    assert (Hitem : In (i, label) items).
    { unfold items. apply in_combine_seq. split; [lia |].
      now rewrite Nat.sub_0_r. }
    intros Hnil.
    assert (Hf : In (i, label) (filter (fun il => (snd il =? label)%nat) items))
      by (apply filter_In; split; [exact Hitem | apply Nat.eqb_refl]).
    apply (in_map fst) in Hf. rewrite Hnil in Hf. exact Hf.
  - intros Hne.
    destruct (filter (fun il => (snd il =? label)%nat) items)
      as [|[i l] rest] eqn:E; [contradiction |].
    assert (Hf : In (i, l) (filter (fun il => (snd il =? label)%nat) items))
      by (rewrite E; now left).
    apply filter_In in Hf as [Hitem Hl]. cbn [snd] in Hl.
    apply Nat.eqb_eq in Hl. subst l.
    unfold items in Hitem. now apply in_combine_r in Hitem.
Qed.

(** X11.  The grouping loop of the two clustering paths makes one cluster
    for each label that occurs, and the list of a label holds exactly the
    positions at which the label occurs, in increasing order; no cluster is
    empty and no label that does not occur has a cluster. *)
Theorem group_by_label_positions (cluster_labels : list nat) (label : nat) :
  NoDup (map fst (group_by_label cluster_labels))
  /\ Dict.get Nat.eqb label (group_by_label cluster_labels)
     = (if existsb (Nat.eqb label) cluster_labels
        then Some (positions_of label cluster_labels)
        else None)
  /\ (In label cluster_labels <-> positions_of label cluster_labels <> [])
  /\ StronglySorted lt (positions_of label cluster_labels).
Proof.
  split; [apply group_by_label_keys |].
  split; [|split; [apply positions_of_In |]].
  - unfold group_by_label. rewrite group_fold_get. cbn [Dict.get].
    fold (positions_of label cluster_labels).
    destruct (existsb (Nat.eqb label) cluster_labels) eqn:Ex.
    + apply existsb_exists in Ex as [l [Hin El]].
      apply Nat.eqb_eq in El. subst l.
      apply positions_of_In in Hin.
      now destruct (positions_of label cluster_labels).
    + destruct (positions_of label cluster_labels) eqn:Ep; [reflexivity |].
      assert (Hin : In label cluster_labels)
        by (apply positions_of_In; rewrite Ep; discriminate).
      assert (existsb (Nat.eqb label) cluster_labels = true)
        by (apply existsb_exists; exists label; split;
            [exact Hin | apply Nat.eqb_refl]).
      congruence.
  - unfold positions_of.
    generalize (length cluster_labels) 0%nat. intros n s.
    revert n s. induction cluster_labels as [|l ls IH]; intros [|n] s;
      cbn [seq combine filter map]; try constructor.
    cbn [snd]. destruct (l =? label)%nat; [|apply IH].
    cbn [map fst]. constructor; [apply IH |].
    apply Forall_forall. intros i Hi.
    apply in_map_iff in Hi as [[i' l'] [<- Hi]].
    apply filter_In in Hi as [Hi _].
    apply in_combine_l, in_seq in Hi. cbn [fst]. lia.
Qed.

End GroupingLoop.

(** ** Rule-based names *)

Section RuleBasedNames.
Import TicketClusteringEngine.
Local Open Scope string_scope.
Local Open Scope list_scope.

Lemma getitems_in_range (A : Type) (l : list A) (indices : list nat) :
  Forall (fun i => (i < length l)%nat) indices ->
  exists selected, getitems l indices = Ok selected.
Proof.
  induction 1 as [|i rest Hi _ [sel IH]]; [now exists [] |].
  cbn [getitems]. rewrite IH.
  destruct (nth_error l i) as [a|] eqn:En; [eauto |].
  apply nth_error_None in En. lia.
Qed.


Lemma named_get_None_not_key (name : string) (named : named_clusters) :
  Dict.get String.eqb name named = None -> ~ In name (map fst named).
Proof.
  induction named as [|[k v] named IH]; simpl; [tauto |].
  destruct (String.eqb_spec name k) as [-> | Hne]; [discriminate |].
  intros H [Hk | Hin]; [congruence | now apply IH].
Qed.

(** The name that the uniqueness loop settles on is one of the candidates
    it tries. *)
Lemma unique_name_is_candidate (named : named_clusters)
  (original_name : string) (fuel j : nat) :
  exists j',
    unique_name fuel named original_name (candidate original_name j) (S j)
    = candidate original_name j'
    /\ (j <= j' <= j + fuel)%nat.
Proof.
  revert j. induction fuel as [|fuel IH]; intros j; cbn [unique_name].
  - exists j. split; [now destruct (Dict.mem _ _ _) | lia].
  - destruct (Dict.mem String.eqb (candidate original_name j) named).
    + destruct (IH (S j)) as (j' & E & Hj). exists j'. split; [exact E | lia].
    + exists j. split; [reflexivity | lia].
Qed.

(** The categories that a cluster can be named after. *)
Lemma best_matching_category_known (cluster_text : string) :
  In (best_matching_category cluster_text)
     (general_issues :: map fst category_keywords).
Proof.
  unfold best_matching_category.
  generalize category_keywords. intros cats.
  assert (H : forall (l : list (string * list string)) best,
             let out :=
               fold_left
                 (fun best ck =>
                    let score := keyword_score cluster_text (snd ck) in
                    if (snd best <? score)%nat then (fst ck, score) else best)
                 l best in
             fst out = fst best \/ In (fst out) (map fst l)).
  { induction l as [|ck l IH]; intros best; cbn [fold_left map];
      [now left |].
    cbv zeta. destruct (IH (let score := keyword_score cluster_text (snd ck) in
                            if (snd best <? score)%nat
                            then (fst ck, score) else best)) as [E | Hin];
      cbv zeta in *.
    - destruct (snd best <? _)%nat; cbn [fst] in E.
      + right. left. now symmetry.
      + now left.
    - right. now right. }
  destruct (H cats (general_issues, 0%nat)) as [E | Hin]; cbv zeta in *.
  - left. now symmetry.
  - now right.
Qed.

Lemma rule_based_names_loop_shape (tickets : list string)
  (items : list (nat * list nat)) (named : named_clusters) :
  Forall (fun c => Forall (fun i => (i < length tickets)%nat) (snd c)) items ->
  NoDup (map fst named) ->
  exists added,
    rule_based_names_loop tickets items named = Ok (named ++ added)
    /\ map snd added = map snd items
    /\ NoDup (map fst (named ++ added))
    /\ Forall (fun name =>
                 exists category j,
                   In category (general_issues :: map fst category_keywords)
                   /\ name = candidate category j
                   /\ (j < length named + length items)%nat)
              (map fst added).
Proof.
  intros Hin. revert named.
  induction Hin as [|[cluster_id ticket_indices] items Hc _ IH];
    intros named Hnd.
  - exists []. rewrite app_nil_r. repeat split; [assumption | constructor].
  - cbn [rule_based_names_loop]. cbn [snd] in Hc.
    destruct (getitems_in_range tickets Hc) as [selected ->].
    cbv zeta.
    set (text := string_of_list_ascii _).
    set (original_name := best_matching_category text).
    set (name := unique_name _ _ _ _ _).
    assert (Hfresh : Dict.get String.eqb name named = None)
      by apply unique_name_fresh.
    rewrite (dict_set_fresh String.eqb _ _ _ Hfresh).
    destruct (IH (named ++ [(name, ticket_indices)]))
      as (added & E & Hs & Hk & Hn).
    { rewrite map_app. cbn [map fst]. apply NoDup_app; [assumption | |].
      - repeat constructor. simpl. tauto.
      - intros k Hk [<- | []]. now apply (named_get_None_not_key _ _ Hfresh). }
    exists ((name, ticket_indices) :: added).
    rewrite <- app_assoc in E, Hk. cbn [app] in E, Hk.
    split; [exact E |]. split; [cbn [map snd]; now rewrite Hs |].
    split; [exact Hk |].
    cbn [map fst]. constructor.
    + destruct (unique_name_is_candidate named original_name (length named) 0)
        as (j & Ej & Hj).
      exists original_name, j. split; [apply best_matching_category_known |].
      split; [exact Ej |]. cbn [length]. lia.
    + eapply Forall_impl; [|exact Hn]. cbv beta.
      intros n (category & j & Hcat & -> & Hj).
      exists category, j. repeat split; [assumption |].
      rewrite length_app in Hj. cbn [length] in *. lia.
Qed.

(** X12.  For clusters whose indices are positions of tickets,
    [_generate_rule_based_names] returns one entry for each cluster, in the
    order of the clusters and with their index lists unchanged, under names
    that are pairwise distinct. *)
Theorem generate_rule_based_names_keeps_clusters (tickets : list string)
  (clusters : clusters_by_label)
  (Hin : Forall (fun c => Forall (fun i => (i < length tickets)%nat) (snd c))
                clusters) :
  exists named,
    _generate_rule_based_names tickets clusters = Ok named
    /\ map snd named = map snd clusters
    /\ NoDup (map fst named).
Proof.
  destruct (@rule_based_names_loop_shape tickets clusters [] Hin)
    as (added & E & Hs & Hk & _); [constructor |].
  exists added. cbn [app] in *. now repeat split.
Qed.

(** X13.  Every name that [_generate_rule_based_names] gives is one of the
    eight category names or "General Issues", either as it is or followed
    by a space and a counter between 1 and the number of clusters minus
    one. *)
Theorem generate_rule_based_names_from_categories (tickets : list string)
  (clusters : clusters_by_label)
  (Hin : Forall (fun c => Forall (fun i => (i < length tickets)%nat) (snd c))
                clusters) :
  exists named,
    _generate_rule_based_names tickets clusters = Ok named
    /\ Forall
         (fun name =>
            exists category,
              In category (general_issues :: map fst category_keywords)
              /\ (name = category
                  \/ exists counter,
                       (1 <= counter < length clusters)%nat
                       /\ name
                          = (category ++ " " ++ str_of_nat counter)%string))
         (map fst named).
Proof.
  destruct (@rule_based_names_loop_shape tickets clusters [] Hin)
    as (added & E & _ & _ & Hn); [constructor |].
  exists added. cbn [app] in *. split; [exact E |].
  eapply Forall_impl; [|exact Hn]. cbv beta.
  intros name (category & j & Hcat & -> & Hj). cbn [length Nat.add] in Hj.
  exists category. split; [exact Hcat |].
  destruct j as [|j]; [now left |].
  right. exists (S j). split; [lia | reflexivity].
Qed.


End RuleBasedNames.

(** ** The shape of the refined clusters *)

Section RefinementShape.
Import TicketVectorStore TicketClusteringEngine.

Lemma representative_is_row (cluster_indices : list nat)
  (embeddings : matrix) (stats : cluster_stats) :
  get_cluster_representatives cluster_indices embeddings = Some stats ->
  (representative_ticket_idx stats < length embeddings)%nat.
Proof.
  unfold get_cluster_representatives.
  destruct cluster_indices as [|i rest]; [discriminate |].
  destruct (in_range_or_not (length embeddings) (i :: rest)) as [Hin | Hout].
  - rewrite (@take_rows_in_range _ _ Hin). cbv zeta.
    set (sims := map _ (map _ (i :: rest))).
    assert (Hlt : (Np.argmax sims < length (i :: rest))%nat).
    { replace (length (i :: rest)) with (length sims)
        by (unfold sims; now rewrite !length_map).
      apply argmax_bound. discriminate. }
    intros H. injection H as <-.
    change (nth (Np.argmax sims) (i :: rest) 0 < length embeddings)%nat.
    rewrite Forall_forall in Hin. apply Hin. now apply nth_In.
  - now rewrite (@take_rows_out_of_range _ _ Hout).
Qed.

(** No round of the refinement raises. *)
Lemma enhance_cluster_ok (vs : TicketVectorStore.t) (tickets : list string)
  (embeddings : matrix) (cluster_id : nat) (enhanced : clusters_by_label) :
  fst (enhance_cluster vs tickets embeddings cluster_id enhanced) = Ok tt.
Proof.
  unfold enhance_cluster, bind, get, put, ret, lift.
  destruct (_ <? 2)%nat; [reflexivity |].
  destruct (get_cluster_representatives _ _) as [stats|] eqn:Es;
    [|reflexivity].
  apply representative_is_row in Es.
  rewrite getitem_of_nat.
  destruct (nth_error embeddings _) as [row|] eqn:En;
    [|apply nth_error_None in En; lia].
  destruct (search_similar_tickets_total vs row
              (Z.min 10 (Z.of_nat (length tickets))) (8 / 10)%R)
    as [results ->].
  reflexivity.
Qed.

Lemma enhance_loop_ok (vs : TicketVectorStore.t) (tickets : list string)
  (embeddings : matrix) (cluster_ids : list nat)
  (enhanced : clusters_by_label) :
  fst (enhance_loop vs tickets embeddings cluster_ids enhanced) = Ok tt.
Proof.
  revert enhanced. induction cluster_ids as [|cid rest IH]; intros enhanced;
    [reflexivity |].
  cbn [enhance_loop]. unfold bind.
  pose proof (enhance_cluster_ok vs tickets embeddings cid enhanced) as H.
  destruct (enhance_cluster vs tickets embeddings cid enhanced)
    as [[[]|e] enhanced1]; cbn [fst] in H; [apply IH | discriminate].
Qed.

Lemma enhance_clusters_filtered (vs : TicketVectorStore.t)
  (tickets : list string) (clusters : clusters_by_label)
  (embeddings : matrix) :
  _enhance_clusters_with_similarity vs tickets clusters embeddings
  = filter (fun item => match snd item with [] => false | _ => true end)
      (snd (enhance_loop vs tickets embeddings (map fst clusters) clusters)).
Proof.
  unfold _enhance_clusters_with_similarity.
  pose proof (enhance_loop_ok vs tickets embeddings (map fst clusters)
                clusters) as H.
  destruct (enhance_loop vs tickets embeddings (map fst clusters) clusters)
    as [[u|e] enhanced]; cbn [fst snd] in *; [reflexivity | discriminate].
Qed.

Lemma mem_key (k : nat) (d : clusters_by_label) :
  In k (map fst d) -> Dict.mem Nat.eqb k d = true.
Proof.
  unfold Dict.mem. intros Hin.
  destruct (Dict.get Nat.eqb k d) eqn:E; [reflexivity |].
  now apply get_None_not_key in E.
Qed.

Lemma keys_set_key (k : nat) (v : list nat) (d : clusters_by_label) :
  In k (map fst d) -> map fst (Dict.set Nat.eqb k v d) = map fst d.
Proof. intros H. now rewrite keys_set, mem_key. Qed.

Lemma move_similar_ticket_keys (cluster_id : nat)
  (enhanced : clusters_by_label) (similar : similar_ticket) :
  In cluster_id (map fst enhanced) ->
  map fst (move_similar_ticket cluster_id enhanced similar)
  = map fst enhanced.
Proof.
  intros Hkey. unfold move_similar_ticket.
  destruct (_ && _); [|reflexivity].
  destruct (find _ enhanced) as [[current indices]|] eqn:Ef; [|reflexivity].
  destruct (length indices <=? 2)%nat; [|reflexivity].
  apply find_some in Ef as [Hin _].
  assert (Hcur : In current (map fst enhanced))
    by (apply in_map_iff; now exists (current, indices)).
  rewrite keys_set_key; rewrite keys_set_key; auto.
Qed.

Lemma enhance_cluster_keys (vs : TicketVectorStore.t) (tickets : list string)
  (embeddings : matrix) (cluster_id : nat) (enhanced : clusters_by_label) :
  map fst (snd (enhance_cluster vs tickets embeddings cluster_id enhanced))
  = map fst enhanced.
Proof.
  unfold enhance_cluster, bind, get, put, ret, lift.
  destruct (_ <? 2)%nat eqn:Elen; [reflexivity |].
  destruct (get_cluster_representatives _ _); [|reflexivity].
  destruct (getitem embeddings _); [|reflexivity].
  destruct (fst (search_similar_tickets _ _ _ vs)) as [similar|e];
    [|reflexivity].
  cbn [snd].
  assert (Hkey : In cluster_id (map fst enhanced)).
  { unfold indices_of in Elen.
    destruct (Dict.get Nat.eqb cluster_id enhanced) as [l|] eqn:E;
      [|discriminate].
    clear - E. induction enhanced as [|[k v] d IH]; [discriminate |].
    simpl in *.
    destruct (Nat.eqb_spec cluster_id k); [now left | right; auto]. }
  clear Elen. revert enhanced Hkey.
  induction similar as [|s rest IH]; intros enhanced Hkey; [reflexivity |].
  cbn [fold_left].
  rewrite IH by (now rewrite move_similar_ticket_keys).
  now apply move_similar_ticket_keys.
Qed.

Lemma enhance_loop_keys (vs : TicketVectorStore.t) (tickets : list string)
  (embeddings : matrix) (cluster_ids : list nat)
  (enhanced : clusters_by_label) :
  map fst (snd (enhance_loop vs tickets embeddings cluster_ids enhanced))
  = map fst enhanced.
Proof.
  revert enhanced. induction cluster_ids as [|cid rest IH]; intros enhanced;
    [reflexivity |].
  cbn [enhance_loop]. unfold bind.
  pose proof (enhance_cluster_keys vs tickets embeddings cid enhanced) as H.
  destruct (enhance_cluster vs tickets embeddings cid enhanced)
    as [[u|e] enhanced1]; cbn [snd] in *; [|exact H].
  now rewrite IH.
Qed.

(** X15.  The similarity refinement regroups the tickets and loses none:
    for clusters with distinct labels, the result holds every ticket index
    exactly as often as the clusters it was given, has no empty cluster,
    and its labels are labels of the given clusters, in their order. *)
Theorem enhance_clusters_regroups (vs : TicketVectorStore.t)
  (tickets : list string) (clusters : clusters_by_label)
  (embeddings : matrix) (Hkeys : NoDup (map fst clusters)) :
  let enhanced :=
    _enhance_clusters_with_similarity vs tickets clusters embeddings in
  Permutation (all_indices enhanced) (all_indices clusters)
  /\ Forall (fun item => snd item <> []) enhanced
  /\ exists keep : nat -> bool,
       map fst enhanced = filter keep (map fst clusters).
Proof.
  cbv zeta. split; [now apply enhance_clusters_keeps_indices |].
  rewrite enhance_clusters_filtered.
  set (moved := snd (enhance_loop vs tickets embeddings (map fst clusters)
                       clusters)).
  assert (Hk : map fst moved = map fst clusters) by apply enhance_loop_keys.
  assert (Hnd : NoDup (map fst moved)) by now rewrite Hk.
  split.
  - apply Forall_forall. intros [k l] Hin.
    apply filter_In in Hin as [_ Hne]. cbn [snd] in *.
    now destruct l.
  - exists (fun k => match Dict.get Nat.eqb k moved with
                     | Some (_ :: _) => true
                     | _ => false
                     end).
    rewrite <- Hk. clear Hk.
    assert (Hsub : forall d,
               (forall k l, In (k, l) d ->
                            Dict.get Nat.eqb k moved = Some l) ->
               map fst
                 (filter (fun item => match snd item with
                                      | [] => false
                                      | _ => true
                                      end) d)
               = filter (fun k => match Dict.get Nat.eqb k moved with
                                  | Some (_ :: _) => true
                                  | _ => false
                                  end) (map fst d)).
    { induction d as [|[k l] d IH]; intros Hget; [reflexivity |].
      cbn [filter map fst snd].
      rewrite (Hget k l) by now left.
      destruct l as [|i l]; cbn [map fst]; rewrite IH; auto;
        intros k' l' Hin; apply Hget; now right. }
    apply Hsub. intros k l. now apply NoDup_keys_get.
Qed.

Lemma dict_get_filter (k : nat) (v : list nat) (f : nat * list nat -> bool)
  (d : clusters_by_label) :
  Dict.get Nat.eqb k d = Some v -> f (k, v) = true ->
  Dict.get Nat.eqb k (filter f d) = Some v.
Proof.
  intros Hget Hf. induction d as [|[k' v'] d IH]; [discriminate |].
  cbn [Dict.get filter] in *.
  destruct (Nat.eqb_spec k k') as [<- | Hne].
  - injection Hget as ->. rewrite Hf. cbn. now rewrite Nat.eqb_refl.
  - destruct (f (k', v')); [|auto]. cbn.
    destruct (Nat.eqb_spec k k'); [contradiction | auto].
Qed.

(** A cluster of three or more tickets only grows in one move. *)
Lemma move_similar_ticket_grows (cluster_id k : nat) (l joined : list nat)
  (enhanced : clusters_by_label) (similar : similar_ticket) :
  NoDup (map fst enhanced) ->
  (3 <= length l)%nat ->
  Dict.get Nat.eqb k enhanced = Some (l ++ joined) ->
  exists joined',
    Dict.get Nat.eqb k (move_similar_ticket cluster_id enhanced similar)
    = Some (l ++ joined').
Proof.
  intros Hnd Hlen Hget. unfold move_similar_ticket.
  destruct (_ && _); [|eauto].
  destruct (find _ enhanced) as [[current indices]|] eqn:Ef; [|eauto].
  destruct (Nat.leb_spec (length indices) 2) as [Hsmall | Hbig]; [|eauto].
  apply find_some in Ef as [Hin _].
  pose proof (@NoDup_keys_get current indices enhanced Hnd Hin) as Hcur.
  assert (Hne : k <> current).
  { intros ->. rewrite Hcur in Hget. injection Hget as ->.
    rewrite length_app in Hsmall. lia. }
  set (enhanced1 := Dict.set Nat.eqb current _ enhanced).
  assert (Hget1 : Dict.get Nat.eqb k enhanced1 = Some (l ++ joined))
    by (unfold enhanced1; now rewrite dict_get_set_other).
  destruct (Nat.eq_dec k cluster_id) as [<- | Hother].
  - rewrite dict_get_set by apply Nat.eqb_refl.
    unfold indices_of. rewrite Hget1, <- app_assoc. eauto.
  - rewrite dict_get_set_other by assumption. eauto.
Qed.

Lemma enhance_cluster_grows (vs : TicketVectorStore.t)
  (tickets : list string) (embeddings : matrix) (cluster_id k : nat)
  (l joined : list nat) (enhanced : clusters_by_label) :
  NoDup (map fst enhanced) ->
  (3 <= length l)%nat ->
  Dict.get Nat.eqb k enhanced = Some (l ++ joined) ->
  exists joined',
    Dict.get Nat.eqb k
      (snd (enhance_cluster vs tickets embeddings cluster_id enhanced))
    = Some (l ++ joined').
Proof.
  intros Hnd Hlen Hget.
  unfold enhance_cluster, bind, get, put, ret, lift.
  destruct (_ <? 2)%nat; [eauto |].
  destruct (get_cluster_representatives _ _); [|eauto].
  destruct (getitem embeddings _); [|eauto].
  destruct (fst (search_similar_tickets _ _ _ vs)) as [similar|e]; [|eauto].
  cbn [snd]. revert enhanced joined Hnd Hget.
  induction similar as [|s rest IH]; intros enhanced joined Hnd Hget;
    [eauto |].
  cbn [fold_left].
  destruct (@move_similar_ticket_grows cluster_id k l joined enhanced s
              Hnd Hlen Hget) as [joined1 H1].
  apply (IH _ joined1); [|exact H1].
  now apply move_similar_ticket_keeps.
Qed.

(** X16.  The similarity refinement never takes a ticket out of a cluster
    of three or more: such a cluster is still there afterwards, under its
    label, with its tickets in their order, followed by the tickets that
    joined it. *)
Theorem enhance_clusters_keeps_large_clusters (vs : TicketVectorStore.t)
  (tickets : list string) (clusters : clusters_by_label)
  (embeddings : matrix) (label : nat) (members : list nat)
  (Hkeys : NoDup (map fst clusters))
  (Hget : Dict.get Nat.eqb label clusters = Some members)
  (Hlarge : (3 <= length members)%nat) :
  exists joined,
    Dict.get Nat.eqb label
      (_enhance_clusters_with_similarity vs tickets clusters embeddings)
    = Some (members ++ joined).
Proof.
  rewrite enhance_clusters_filtered.
  assert (H : forall cluster_ids enhanced joined,
             NoDup (map fst enhanced) ->
             Dict.get Nat.eqb label enhanced = Some (members ++ joined) ->
             exists joined',
               Dict.get Nat.eqb label
                 (snd (enhance_loop vs tickets embeddings cluster_ids
                         enhanced))
               = Some (members ++ joined')).
  { induction cluster_ids as [|cid rest IH]; intros enhanced joined Hnd Hg;
      [eauto |].
    cbn [enhance_loop]. unfold bind.
    destruct (@enhance_cluster_grows vs tickets embeddings cid label members
                joined enhanced Hnd Hlarge Hg) as [joined1 H1].
    destruct (@enhance_cluster_keeps vs tickets embeddings cid enhanced Hnd)
      as [Hnd1 _]. cbv zeta in Hnd1.
    destruct (enhance_cluster vs tickets embeddings cid enhanced)
      as [[u|e] enhanced1]; cbn [snd] in *; [|eauto].
    now apply (IH _ joined1). }
  destruct (H (map fst clusters) clusters [] Hkeys) as [joined Hj];
    [now rewrite app_nil_r |].
  exists joined. apply dict_get_filter; [exact Hj |].
  cbn [snd]. destruct members; [simpl in Hlarge; lia | reflexivity].
Qed.

End RefinementShape.

Lemma generate_rule_based_names_keeps_clusters_witness :
  let clusters := [(0, [0; 1]); (1, [2])]%nat in
  Forall (fun c => Forall (fun i => (i < length Examples.three_tickets)%nat)
                          (snd c)) clusters
  /\ exists named,
       TicketClusteringEngine._generate_rule_based_names
         Examples.three_tickets clusters = Ok named
       /\ map snd named = map snd clusters
       /\ NoDup (map fst named).
Proof.
  cbv zeta.
  assert (Hin : Forall
                  (fun c : nat * list nat =>
                     Forall (fun i => (i < length Examples.three_tickets)%nat)
                            (snd c))
                  [(0, [0; 1]); (1, [2])]%nat)
    by (repeat constructor).
  split; [exact Hin |].
  exact (@generate_rule_based_names_keeps_clusters Examples.three_tickets
           [(0, [0; 1]); (1, [2])]%nat Hin).
Defined.

Lemma generate_rule_based_names_from_categories_witness :
  let clusters := [(0, [0; 1]); (1, [2])]%nat in
  Forall (fun c => Forall (fun i => (i < length Examples.three_tickets)%nat)
                          (snd c)) clusters
  /\ exists named,
       TicketClusteringEngine._generate_rule_based_names
         Examples.three_tickets clusters = Ok named
       /\ Forall
            (fun name =>
               exists category,
                 In category
                    (TicketClusteringEngine.general_issues
                     :: map fst TicketClusteringEngine.category_keywords)
                 /\ (name = category
                     \/ exists counter,
                          (1 <= counter < length clusters)%nat
                          /\ name
                             = (category ++ " " ++ str_of_nat counter)%string))
            (map fst named).
Proof.
  cbv zeta.
  assert (Hin : Forall
                  (fun c : nat * list nat =>
                     Forall (fun i => (i < length Examples.three_tickets)%nat)
                            (snd c))
                  [(0, [0; 1]); (1, [2])]%nat)
    by (repeat constructor).
  split; [exact Hin |].
  exact (@generate_rule_based_names_from_categories Examples.three_tickets
           [(0, [0; 1]); (1, [2])]%nat Hin).
Defined.


Lemma enhance_clusters_regroups_witness :
  let clusters := [(0, [0; 1]); (1, [2])]%nat in
  let embeddings := [[1; 0]; [1; 0]; [0; 1]]%R in
  let enhanced :=
    TicketClusteringEngine._enhance_clusters_with_similarity
      Examples.two_axes Examples.three_tickets clusters embeddings in
  NoDup (map fst clusters)
  /\ Permutation (all_indices enhanced) (all_indices clusters)
  /\ Forall (fun item => snd item <> []) enhanced.
Proof.
  cbv zeta.
  assert (Hkeys : NoDup (map fst [(0, [0; 1]); (1, [2])]%nat)).
  { simpl. repeat constructor; simpl; intuition discriminate. }
  split; [exact Hkeys |].
  destruct (@enhance_clusters_regroups Examples.two_axes
              Examples.three_tickets [(0, [0; 1]); (1, [2])]%nat
              [[1; 0]; [1; 0]; [0; 1]]%R Hkeys) as (Hp & Hne & _).
  split; [exact Hp | exact Hne].
Defined.

Lemma enhance_clusters_keeps_large_clusters_witness :
  let clusters := [(0, [0; 1; 2]); (1, [3])]%nat in
  let embeddings := [[1; 0]; [1; 0]; [1; 0]; [0; 1]]%R in
  NoDup (map fst clusters)
  /\ Dict.get Nat.eqb 0%nat clusters = Some [0; 1; 2]%nat
  /\ (3 <= length [0; 1; 2]%nat)%nat
  /\ exists joined,
       Dict.get Nat.eqb 0%nat
         (TicketClusteringEngine._enhance_clusters_with_similarity
            Examples.two_axes Examples.three_tickets clusters embeddings)
       = Some ([0; 1; 2]%nat ++ joined).
Proof.
  cbv zeta.
  assert (Hkeys : NoDup (map fst [(0, [0; 1; 2]); (1, [3])]%nat)).
  { simpl. repeat constructor; simpl; intuition discriminate. }
  assert (Hget : Dict.get Nat.eqb 0%nat [(0, [0; 1; 2]); (1, [3])]%nat
                 = Some [0; 1; 2]%nat) by reflexivity.
  assert (Hlarge : (3 <= length [0; 1; 2]%nat)%nat) by (simpl; lia).
  split; [exact Hkeys |]. split; [exact Hget |]. split; [exact Hlarge |].
  exact (@enhance_clusters_keeps_large_clusters Examples.two_axes
           Examples.three_tickets [(0, [0; 1; 2]); (1, [3])]%nat
           [[1; 0]; [1; 0]; [1; 0]; [0; 1]]%R 0%nat [0; 1; 2]%nat
           Hkeys Hget Hlarge).
Defined.

(** ** Names on the embedding path when the naming request fails *)

Section FallbackNames.
Import TicketClusteringEngine.
Local Open Scope string_scope.
Local Open Scope list_scope.

Variable env : collaborators.

Lemma fallback_name_injective (a b : nat) :
  ("Issue Category " ++ str_of_nat (a + 1))%string
  = ("Issue Category " ++ str_of_nat (b + 1))%string ->
  a = b.
Proof.
  intros H. apply append_cancel in H. apply str_of_nat_injective in H. lia.
Qed.

(** X17.  When the naming request fails for every cluster,
    [_generate_cluster_names] names each cluster "Issue Category" followed
    by its label plus one; for clusters with distinct labels, whose first
    five indices are positions of tickets, it returns every cluster with
    its index list, in order. *)
Theorem generate_cluster_names_fallback (tickets : list string)
  (clusters : clusters_by_label)
  (Hfail : forall sample,
             exists e, _ask_openai_for_cluster_name env sample = Raise e)
  (Hkeys : NoDup (map fst clusters))
  (Hin : Forall (fun c => Forall (fun i => (i < length tickets)%nat)
                                 (firstn 5 (snd c))) clusters) :
  _generate_cluster_names env tickets clusters
  = Ok (map (fun c =>
               (("Issue Category " ++ str_of_nat (fst c + 1))%string, snd c))
            clusters).
Proof.
  unfold _generate_cluster_names.
  set (name := fun c : nat * list nat =>
                 (("Issue Category " ++ str_of_nat (fst c + 1))%string,
                  snd c)).
  assert (H : forall items done,
             NoDup (map fst (done ++ items)) ->
             Forall (fun c => Forall (fun i => (i < length tickets)%nat)
                                     (firstn 5 (snd c))) items ->
             cluster_names_loop env tickets items (map name done)
             = Ok (map name (done ++ items))).
  { induction items as [|[cluster_id ticket_indices] items IH];
      intros done Hnd Hr.
    - now rewrite app_nil_r.
    - inversion Hr as [|? ? Hhere Hrest]; subst. cbn [snd] in Hhere.
      cbn [cluster_names_loop].
      destruct (getitems_in_range tickets Hhere) as [sample ->].
      destruct (Hfail sample) as [e ->].
      rewrite dict_set_fresh.
      + replace (map name done
                 ++ [(("Issue Category "
                       ++ str_of_nat (cluster_id + 1))%string,
                      ticket_indices)])
          with (map name (done ++ [(cluster_id, ticket_indices)]))
          by (now rewrite map_app).
        rewrite IH; [now rewrite <- app_assoc | |assumption].
        now rewrite <- app_assoc.
      + destruct (Dict.get String.eqb _ (map name done)) eqn:Eg;
          [|reflexivity].
        exfalso.
        assert (Hkey : In ("Issue Category "
                           ++ str_of_nat (cluster_id + 1))%string
                          (map fst (map name done))).
        { apply dict_mem_In. unfold Dict.mem. now rewrite Eg. }
        rewrite map_map in Hkey.
        apply in_map_iff in Hkey as [[k members] [E Hk]].
        cbn [name fst] in E. apply fallback_name_injective in E. subst k.
        rewrite map_app in Hnd. apply NoDup_remove_2 in Hnd.
        apply Hnd. apply in_or_app. left.
        apply in_map_iff. now exists (cluster_id, members). }
  apply (H clusters []); assumption.
Qed.

End FallbackNames.

Lemma generate_cluster_names_fallback_witness :
  let clusters := [(0, [0; 1]); (1, [2])]%nat in
  (forall sample,
     exists e,
       _ask_openai_for_cluster_name Examples.provider_down sample = Raise e)
  /\ NoDup (map fst clusters)
  /\ Forall (fun c => Forall (fun i => (i < length Examples.three_tickets)%nat)
                             (firstn 5 (snd c))) clusters
  /\ TicketClusteringEngine._generate_cluster_names Examples.provider_down
       Examples.three_tickets clusters
     = Ok [("Issue Category 1"%string, [0; 1]%nat);
           ("Issue Category 2"%string, [2]%nat)].
Proof.
  cbv zeta.
  assert (Hfail : forall sample,
             exists e,
               _ask_openai_for_cluster_name Examples.provider_down sample
               = Raise e)
    by (intros sample; eexists; reflexivity).
  assert (Hkeys : NoDup (map fst [(0, [0; 1]); (1, [2])]%nat)).
  { simpl. repeat constructor; simpl; intuition discriminate. }
  assert (Hin : Forall
                  (fun c : nat * list nat =>
                     Forall (fun i => (i < length Examples.three_tickets)%nat)
                            (firstn 5 (snd c)))
                  [(0, [0; 1]); (1, [2])]%nat)
    by (repeat constructor).
  split; [exact Hfail |]. split; [exact Hkeys |]. split; [exact Hin |].
  exact (@generate_cluster_names_fallback Examples.provider_down
           Examples.three_tickets [(0, [0; 1]); (1, [2])]%nat
           Hfail Hkeys Hin).
Defined.

(** ** The clusters of a whole batch *)

Section BatchClusters.

Variable env : collaborators.

(** What the provider and scikit-learn promise: one row per text, one
    label per row. *)
Hypothesis embeddings_rows :
  forall texts m,
    embeddings_create env texts = Ok m -> length m = length texts.
Hypothesis fit_transform_rows :
  forall texts m, fit_transform env texts = Ok m -> length m = length texts.
Hypothesis fit_predict_labels :
  forall k x labels,
    fit_predict env k x = Ok labels -> length labels = length x.

Lemma partition_in_range (K : Type) (n : nat) (clusters : Dict.t K (list nat)) :
  is_partition n clusters ->
  Forall (fun c => Forall (fun i => (i < n)%nat) (snd c)) clusters.
Proof.
  unfold is_partition, all_indices. intros Hp.
  apply Forall_forall. intros c Hc. apply Forall_forall. intros i Hi.
  assert (Hall : In i (concat (map snd clusters))).
  { apply in_concat. exists (snd c). split; [now apply in_map | exact Hi]. }
  apply (Permutation_in _ Hp), in_seq in Hall. lia.
Qed.

(** X18.  Without a provider client, [cluster_tickets] returns a partition
    of the batch under pairwise distinct names: every position of the batch
    is in exactly one cluster, whether the result comes from the single
    ticket shortcut, from the lexical path or from the single cluster after
    an exception. *)
Theorem cluster_tickets_lexical_partition_distinct_names
  (tickets : list string) (use_vector_store : bool) :
  exists named,
    cluster_tickets env false tickets use_vector_store = Ok named
    /\ is_partition (length tickets) named
    /\ NoDup (map fst named).
Proof.
  unfold cluster_tickets.
  set (self := TicketClusteringEngine.__init__ false use_vector_store).
  assert (Hone : forall (name : string) (l : list nat),
             NoDup (map fst [(name, l)]))
    by (intros; simpl; constructor; [simpl; tauto | constructor]).
  destruct (Nat.eq_dec (length tickets) 1) as [H1 | H1].
  - unfold TicketClusteringEngine.cluster_tickets. rewrite H1. cbn.
    eexists. split; [reflexivity |].
    split; [apply single_ticket_partition | apply Hone].
  - rewrite cluster_tickets_run by assumption.
    change (TicketClusteringEngine.use_openai self) with false. cbv iota.
    destruct (TicketClusteringEngine._cluster_with_sklearn env tickets self)
      as [[named|e] self'] eqn:E; cbn [fst]; eexists; (split; [reflexivity |]).
    + pose proof (@cluster_with_sklearn_partition env fit_transform_rows
                    fit_predict_labels tickets self self' named E) as Hp.
      split; [exact Hp |].
      revert E.
      unfold TicketClusteringEngine._cluster_with_sklearn, bind, lift, ret.
      destruct (fit_transform env _) as [m|e] eqn:Em; [|discriminate].
      destruct (fit_predict env _ m) as [labels|e] eqn:El; [|discriminate].
      destruct (TicketClusteringEngine._generate_rule_based_names tickets
                  (TicketClusteringEngine.group_by_label labels))
        as [named0|e] eqn:En; [|discriminate].
      intros [= <- _].
      apply fit_transform_rows in Em. apply fit_predict_labels in El.
      rewrite length_map in Em.
      assert (Hin : Forall (fun c => Forall (fun i => (i < length tickets)%nat)
                                            (snd c))
                           (TicketClusteringEngine.group_by_label labels)).
      { apply partition_in_range. rewrite <- Em, <- El.
        apply group_by_label_partition. }
      destruct (@rule_based_names_loop_shape tickets
                  (TicketClusteringEngine.group_by_label labels) [] Hin)
        as (added & Ea & _ & Hnd & _); [constructor |].
      unfold TicketClusteringEngine._generate_rule_based_names in En.
      rewrite Ea in En.
      injection En as <-. exact Hnd.
    + split; [apply single_cluster_partition | apply Hone].
Qed.

(** X19.  [cluster_tickets] always returns, and it loses tickets in one
    way only: its result is a partition of the batch unless the embedding
    path gave one name to two clusters of a partition, which leaves fewer
    entries than there were clusters. *)
Theorem cluster_tickets_loses_tickets_only_by_renaming
  (tickets : list string) (client_ok use_vector_store : bool) :
  exists named,
    cluster_tickets env client_ok tickets use_vector_store = Ok named
    /\ (is_partition (length tickets) named
        \/ (client_ok = true
            /\ exists clusters,
                 is_partition (length tickets) clusters
                 /\ TicketClusteringEngine._generate_cluster_names env tickets
                      clusters = Ok named
                 /\ (length named < length clusters)%nat)).
Proof.
  unfold cluster_tickets.
  destruct (@cluster_tickets_partition_unless_renamed env embeddings_rows
              fit_transform_rows fit_predict_labels tickets
              (TicketClusteringEngine.__init__ client_ok use_vector_store))
    as (named & E & H).
  exists named. split; [exact E |].
  destruct H as [Hp | [Hon Hrest]]; [now left | right].
  split; [exact Hon | exact Hrest].
Qed.

End BatchClusters.

Lemma local_only_promises :
  (forall texts m,
     embeddings_create Examples.local_only texts = Ok m ->
     length m = length texts)
  /\ (forall texts m,
        fit_transform Examples.local_only texts = Ok m ->
        length m = length texts)
  /\ (forall k x labels,
        fit_predict Examples.local_only k x = Ok labels ->
        length labels = length x).
Proof.
  split; [discriminate |].
  split; cbn; intros; match goal with
                      | H : Ok _ = Ok _ |- _ => injection H as <-
                      end; apply length_map.
Qed.

Lemma cluster_tickets_lexical_partition_distinct_names_witness :
  exists named,
    cluster_tickets Examples.local_only false Examples.three_tickets true
    = Ok named
    /\ is_partition 3 named
    /\ NoDup (map fst named).
Proof.
  destruct local_only_promises as (_ & Ht & Hp).
  exact (@cluster_tickets_lexical_partition_distinct_names
           Examples.local_only Ht Hp Examples.three_tickets true).
Defined.

Lemma provider_up_promises :
  (forall texts m,
     embeddings_create Examples.provider_up texts = Ok m ->
     length m = length texts)
  /\ (forall texts m,
        fit_transform Examples.provider_up texts = Ok m ->
        length m = length texts)
  /\ (forall k x labels,
        fit_predict Examples.provider_up k x = Ok labels ->
        length labels = length x).
Proof.
  split; [|split]; cbn; intros;
    match goal with
    | H : Ok _ = Ok _ |- _ => injection H as <-
    end; rewrite length_map; [reflexivity | reflexivity | apply length_seq].
Qed.

Lemma cluster_tickets_loses_tickets_only_by_renaming_witness :
  cluster_tickets Examples.provider_up true Examples.three_tickets false
  = Ok [("VPN connection fails on Windows 10"%string, [0; 2]%nat);
        ("Cannot connect to VPN from home"%string, [1]%nat)]
  /\ exists named,
    cluster_tickets Examples.provider_up true Examples.three_tickets false
    = Ok named
    /\ (is_partition 3 named
        \/ (true = true
            /\ exists clusters,
                 is_partition 3 clusters
                 /\ TicketClusteringEngine._generate_cluster_names
                      Examples.provider_up Examples.three_tickets clusters
                    = Ok named
                 /\ (length named < length clusters)%nat)).
Proof.
  split; [vm_compute; reflexivity |].
  destruct provider_up_promises as (He & Ht & Hp).
  exact (@cluster_tickets_loses_tickets_only_by_renaming
           Examples.provider_up He Ht Hp Examples.three_tickets true false).
Defined.

(** ** Similar tickets of a batch *)

Section SimilarInBatch.
Import TicketVectorStore.
Local Open Scope R_scope.

Variable env : collaborators.

Lemma batch_metadata (tickets : list string) :
  Forall (TicketClusteringEngine.of_batch tickets)
    (map (fun it => mk_metadata (fst it) (snd it))
         (combine (seq 0 (length tickets)) tickets)).
Proof.
  apply Forall_map, Forall_forall. intros [i ticket] Hin.
  apply in_combine_seq in Hin as [_ Hn]. rewrite Nat.sub_0_r in Hn.
  exact Hn.
Qed.

(** The store of the engine after one insertion into a fresh store. *)
Lemma first_insertion (tickets : list string) (embeddings : matrix) :
  let vs :=
    snd (store_embeddings (trained_quantizer env) embeddings
           (map (fun it => mk_metadata (fst it) (snd it))
                (combine (seq 0 (length tickets)) tickets))
           (create_vector_store 1536 flat)) in
  Faiss.kind (index vs) = Faiss.IndexFlatIP
  /\ normalized_index vs
  /\ Forall (TicketClusteringEngine.of_batch tickets) (metadata vs).
Proof.
  cbv zeta. unfold create_vector_store.
  destruct (@store_embeddings_step (trained_quantizer env) embeddings
              (map (fun it => mk_metadata (fst it) (snd it))
                   (combine (seq 0 (length tickets)) tickets))
              (__init__ 1536 flat) (consistent_init 1536 flat))
    as [[E _] | E]; cbv zeta in E; rewrite E; cbn [snd].
  - split; [reflexivity |]. split.
    + unfold normalized_index, appended. cbn. apply normalized_rows.
    + unfold appended. cbn. apply batch_metadata.
  - split; [reflexivity |]. split; constructor.
Qed.

(** The engine after [cluster_tickets] on a new engine: its store, when it
    has one, is a flat store that holds normalized vectors and tickets of
    the batch only. *)
Lemma cluster_tickets_engine (tickets : list string) (client_ok : bool) :
  let out :=
    TicketClusteringEngine.cluster_tickets env tickets
      (TicketClusteringEngine.__init__ client_ok true) in
  (exists named, fst out = Ok named)
  /\ match TicketClusteringEngine.vector_store (snd out) with
     | None => True
     | Some vs =>
         Faiss.kind (index vs) = Faiss.IndexFlatIP
         /\ normalized_index vs
         /\ Forall (TicketClusteringEngine.of_batch tickets) (metadata vs)
     end.
Proof.
  cbv zeta.
  set (self := TicketClusteringEngine.__init__ client_ok true).
  assert (Hfresh : match TicketClusteringEngine.vector_store self with
                   | None => True
                   | Some vs =>
                       Faiss.kind (index vs) = Faiss.IndexFlatIP
                       /\ normalized_index vs
                       /\ Forall (TicketClusteringEngine.of_batch tickets)
                                 (metadata vs)
                   end).
  { unfold self, TicketClusteringEngine.__init__.
    cbn [TicketClusteringEngine.vector_store andb].
    destruct client_ok; [|exact I].
    split; [reflexivity |]. split; constructor. }
  destruct (Nat.eq_dec (length tickets) 1) as [H1 | H1].
  - unfold TicketClusteringEngine.cluster_tickets. rewrite H1.
    cbn [Nat.eqb ret fst snd]. split; [eauto | exact Hfresh].
  - rewrite cluster_tickets_run by assumption.
    destruct (TicketClusteringEngine.use_openai self) eqn:Eon.
    + assert (Hpath : match TicketClusteringEngine.vector_store
                              (snd (TicketClusteringEngine._cluster_with_openai
                                      env tickets self)) with
                      | None => True
                      | Some vs =>
                          Faiss.kind (index vs) = Faiss.IndexFlatIP
                          /\ normalized_index vs
                          /\ Forall (TicketClusteringEngine.of_batch tickets)
                                    (metadata vs)
                      end).
      { unfold TicketClusteringEngine._cluster_with_openai, bind, get, ret,
          lift.
        rewrite generate_embeddings_run.
        destruct (embeddings_create env _) as [embeddings|e];
          [|exact Hfresh].
        unfold self, TicketClusteringEngine.__init__ in Eon |- *.
        cbn [TicketClusteringEngine.use_openai] in Eon. subst client_ok.
        cbn [andb TicketClusteringEngine.vector_store].
        unfold TicketClusteringEngine.on_store.
        pose proof (first_insertion tickets embeddings) as Hins.
        cbv zeta in Hins.
        destruct (store_embeddings _ _ _ _) as [[b|e] vs'];
          cbn [snd TicketClusteringEngine.vector_store] in *;
          [|exact Hins].
        destruct (fit_predict env _ embeddings) as [labels|e];
          cbn [snd TicketClusteringEngine.vector_store]; [|exact Hins].
        destruct (TicketClusteringEngine._generate_cluster_names env tickets _)
          as [named|e]; cbn [snd TicketClusteringEngine.vector_store];
          exact Hins. }
      destruct (TicketClusteringEngine._cluster_with_openai env tickets self)
        as [[named|e] self']; cbn [fst snd] in *;
        (split; [eauto | exact Hpath]).
    + assert (Hpath : snd (TicketClusteringEngine._cluster_with_sklearn
                             env tickets self) = self).
      { unfold TicketClusteringEngine._cluster_with_sklearn, bind, ret, lift.
        destruct (fit_transform env _); [|reflexivity].
        destruct (fit_predict env _ _); [|reflexivity].
        now destruct (TicketClusteringEngine._generate_rule_based_names _ _). }
      destruct (TicketClusteringEngine._cluster_with_sklearn env tickets self)
        as [[named|e] self']; cbn [fst snd] in *; subst self';
        (split; [eauto | exact Hfresh]).
Qed.

(** X20.  The module-level [find_similar_tickets] never raises, and every
    result it returns is a ticket of the batch it was given: the ticket
    index is a position of the batch, the description is the ticket at that
    position, and the score is at least the threshold 0.5; the results come
    by descending score. *)
Theorem find_similar_tickets_reports_batch_tickets (client_ok : bool)
  (query_ticket : string) (tickets : list string) (k : Z) :
  exists results,
    find_similar_tickets env client_ok query_ticket tickets k = Ok results
    /\ Forall
         (fun r =>
            nth_error tickets (ticket_index (similar_metadata r))
            = Some (description (similar_metadata r))
            /\ 5 / 10 <= similarity_score r)
         results
    /\ descending (map similarity_score results).
Proof.
  unfold find_similar_tickets.
  destruct (cluster_tickets_engine tickets client_ok) as [[named E] Hstore].
  cbv zeta in E, Hstore.
  destruct (TicketClusteringEngine.cluster_tickets env tickets _)
    as [[named0|e] engine]; cbn [fst snd] in *; [clear E | discriminate].
  assert (Hnil : exists results : list similar_ticket,
             Ok (@nil similar_ticket) = Ok results
             /\ Forall
                  (fun r =>
                     nth_error tickets (ticket_index (similar_metadata r))
                     = Some (description (similar_metadata r))
                     /\ 5 / 10 <= similarity_score r)
                  results
             /\ descending (map similarity_score results)).
  { exists []. repeat split; constructor. }
  unfold TicketClusteringEngine.find_similar_tickets, bind, get, ret.
  destruct (TicketClusteringEngine.vector_store engine) as [vs|] eqn:Evs;
    [|exact Hnil].
  destruct (TicketClusteringEngine.use_openai engine); cbn [negb];
    [|exact Hnil].
  unfold try_except, bind, get, lift, ret.
  rewrite generate_embeddings_run.
  destruct (embeddings_create env _) as [embeddings|e]; [|exact Hnil].
  destruct (getitem embeddings 0) as [query_embedding|e]; [|exact Hnil].
  rewrite Evs. unfold TicketClusteringEngine.on_store.
  destruct Hstore as (Hflat & Hnorm & Hmd).
  destruct (@search_similar_tickets_in vs query_embedding k (5 / 10)
              Hflat Hnorm)
    as (results & Es & Hres & Hsorted & _).
  rewrite Es. cbn [fst]. exists results.
  split; [reflexivity |]. split; [|exact Hsorted].
  rewrite Forall_forall in *. intros r Hr.
  destruct (Hres r Hr) as (_ & Hth & Hin).
  split; [apply (Hmd _ Hin) | exact Hth].
Qed.

End SimilarInBatch.

(** ** Cluster insights *)

Section Insights.
Import TicketVectorStore.
Local Open Scope R_scope.

Variable env : collaborators.

Lemma cohesion_bounds (selected : matrix) :
  0 <= _calculate_cluster_cohesion selected <= 1.
Proof.
  rewrite cohesion_equation. destruct (length selected <=? 1)%nat; [lra |].
  pose proof (positive_cosines_bounded selected) as Hb.
  destruct (positive_cosines selected) as [|x l] eqn:El; [lra |].
  apply mean_bounded; [discriminate |].
  eapply Forall_impl; [|exact Hb]. cbv beta. intros; lra.
Qed.

Lemma representatives_facts (cluster_indices : list nat)
  (embeddings : matrix) (stats : cluster_stats) :
  get_cluster_representatives cluster_indices embeddings = Some stats ->
  size stats = length cluster_indices
  /\ In (representative_ticket_idx stats) cluster_indices
  /\ 0 <= cohesion_score stats <= 1.
Proof.
  unfold get_cluster_representatives.
  destruct cluster_indices as [|i rest]; [discriminate |].
  destruct (take_rows embeddings (i :: rest)) as [rows|e] eqn:Er;
    [|discriminate].
  cbv zeta. set (sims := map _ rows).
  assert (Hrows : length rows = length (i :: rest)).
  { clear sims. revert rows Er. generalize (i :: rest). intros l.
    induction l as [|j l IH]; intros rows; cbn [take_rows].
    - now intros [= <-].
    - destruct (nth_error embeddings j); [|discriminate].
      destruct (take_rows embeddings l) as [rows'|e']; [|discriminate].
      intros [= <-]. cbn [length]. now rewrite (IH rows'). }
  assert (Hlt : (Np.argmax sims < length (i :: rest))%nat).
  { rewrite <- Hrows. replace (length rows) with (length sims)
      by (unfold sims; now rewrite length_map).
    apply argmax_bound. unfold sims. destruct rows; [discriminate Hrows |].
    discriminate. }
  intros H. injection H as <-.
  split; [reflexivity |]. split; [|apply cohesion_bounds].
  change (In (nth (Np.argmax sims) (i :: rest) 0%nat) (i :: rest)).
  now apply nth_In.
Qed.

(** What an entry of the insights says about the clusters. *)
Lemma insights_loop_entries (tickets : list string) (embeddings : matrix)
  (clusters items : list (string * list nat))
  (insights out : Dict.t string TicketClusteringEngine.cluster_insight)
  (P : string * TicketClusteringEngine.cluster_insight -> Prop) :
  (forall name ticket_indices insight,
     In (name, ticket_indices) clusters ->
     TicketClusteringEngine.insight_size insight = length ticket_indices ->
     0 <= TicketClusteringEngine.insight_cohesion_score insight ->
     ((length ticket_indices < 2)%nat ->
      TicketClusteringEngine.insight_cohesion_score insight = 1) ->
     match ticket_indices with
     | [] => TicketClusteringEngine.representative_ticket insight
             = EmptyString
     | _ => exists i,
              In i ticket_indices
              /\ nth_error tickets i
                 = Some (TicketClusteringEngine.representative_ticket insight)
     end ->
     P (name, insight)) ->
  incl items clusters ->
  Forall P insights ->
  TicketClusteringEngine.insights_loop tickets embeddings items insights
  = Ok out ->
  Forall P out.
Proof.
  intros HP. revert insights.
  assert (Hset : forall name insight
                        (d : Dict.t string
                               TicketClusteringEngine.cluster_insight),
             P (name, insight) -> Forall P d ->
             Forall P (Dict.set String.eqb name insight d)).
  { intros name insight d Hnew. induction 1 as [|[k v] d Hk Hd IH];
      cbn [Dict.set]; [repeat constructor; assumption |].
    destruct (String.eqb name k); constructor; assumption. }
  assert (Hat : forall i ticket,
             TicketClusteringEngine.ticket_at tickets i = Ok ticket ->
             nth_error tickets i = Some ticket).
  { unfold TicketClusteringEngine.ticket_at. intros i ticket.
    destruct (nth_error tickets i); [now intros [= ->] | discriminate]. }
  induction items as [|[name ticket_indices] items IH];
    intros insights Hincl Hins; cbn [TicketClusteringEngine.insights_loop].
  - now intros [= <-].
  - assert (Hitem : In (name, ticket_indices) clusters)
      by (apply Hincl; now left).
    assert (Hrest : incl items clusters)
      by (intros x Hx; apply Hincl; now right).
    destruct (Nat.ltb_spec (length ticket_indices) 2) as [Hfew | Hmany].
    + destruct ticket_indices as [|i rest].
      * apply IH; [exact Hrest |]. apply Hset; [|exact Hins].
        apply (HP name []); cbn; try reflexivity; [assumption | lra].
      * destruct (TicketClusteringEngine.ticket_at tickets i) as [rep|e]
          eqn:Ea; [|discriminate].
        apply IH; [exact Hrest |]. apply Hset; [|exact Hins].
        apply (HP name (i :: rest)); cbn -[In];
          [assumption | reflexivity | lra | reflexivity |].
        exists i. split; [now left | now apply Hat].
    + destruct (get_cluster_representatives ticket_indices embeddings)
        as [stats|] eqn:Es.
      * cbv zeta.
        destruct (TicketClusteringEngine.ticket_at tickets _) as [rep|e]
          eqn:Ea; [|discriminate].
        apply representatives_facts in Es as (Hsize & Hrep & Hcoh).
        apply IH; [exact Hrest |]. apply Hset; [|exact Hins].
        apply (HP name ticket_indices); cbn -[In];
          [assumption | assumption | lra | lia |].
        destruct ticket_indices as [|i rest]; [destruct Hrep |].
        exists (representative_ticket_idx stats).
        split; [exact Hrep | now apply Hat].
      * destruct ticket_indices as [|i rest]; [simpl in Hmany; lia |].
        destruct (TicketClusteringEngine.ticket_at tickets i) as [rep|e]
          eqn:Ea; [|discriminate].
        apply IH; [exact Hrest |]. apply Hset; [|exact Hins].
        cbn [length] in Hmany.
        apply (HP name (i :: rest)); cbn -[In];
          [assumption | reflexivity | lra | lia |].
        exists i. split; [now left | now apply Hat].
Qed.

(** X21.  [get_cluster_insights] never raises, and returns no insights
    without a provider client.  Every entry it returns describes a cluster
    of that name: the size is the number of its tickets, the cohesion score
    is not negative and is 1 for a cluster of fewer than two tickets, and
    the representative ticket is the text of one of the tickets of the
    cluster (the empty text for a cluster without tickets). *)
Theorem get_cluster_insights_describes_clusters (client_ok : bool)
  (tickets : list string) (clusters : named_clusters) :
  exists insights,
    get_cluster_insights env client_ok tickets clusters = Ok insights
    /\ (client_ok = false -> insights = [])
    /\ Forall
         (fun entry =>
            exists ticket_indices,
              In (fst entry, ticket_indices) clusters
              /\ TicketClusteringEngine.insight_size (snd entry)
                 = length ticket_indices
              /\ 0 <= TicketClusteringEngine.insight_cohesion_score
                        (snd entry)
              /\ ((length ticket_indices < 2)%nat ->
                  TicketClusteringEngine.insight_cohesion_score (snd entry)
                  = 1)
              /\ match ticket_indices with
                 | [] => TicketClusteringEngine.representative_ticket
                           (snd entry) = EmptyString
                 | _ => exists i,
                          In i ticket_indices
                          /\ nth_error tickets i
                             = Some
                                 (TicketClusteringEngine.representative_ticket
                                    (snd entry))
                 end)
         insights.
Proof.
  unfold get_cluster_insights, TicketClusteringEngine.get_cluster_insights,
    TicketClusteringEngine.__init__, bind, get, ret.
  cbn [TicketClusteringEngine.vector_store andb fst].
  destruct client_ok.
  - unfold try_except, bind, lift, ret.
    rewrite generate_embeddings_run.
    destruct (embeddings_create env _) as [embeddings|e];
      [|exists []; split; [reflexivity |]; split;
        [discriminate | constructor]].
    destruct (TicketClusteringEngine.insights_loop tickets embeddings
                clusters []) as [insights|e] eqn:El;
      [|exists []; split; [reflexivity |]; split;
        [discriminate | constructor]].
    exists insights. cbn [fst]. split; [reflexivity |].
    split; [discriminate |].
    eapply insights_loop_entries;
      [|apply incl_refl | constructor | exact El].
    intros name ticket_indices insight Hin Hsize Hcoh Hone Hrep.
    exists ticket_indices. cbn [fst snd].
    split; [exact Hin |]. split; [exact Hsize |]. split; [exact Hcoh |].
    split; [exact Hone | exact Hrep].
  - exists []. repeat split; constructor.
Qed.

Lemma insights_keys_set (name : string)
  (insight : TicketClusteringEngine.cluster_insight)
  (d : Dict.t string TicketClusteringEngine.cluster_insight) :
  ~ In name (map fst d) ->
  map fst (Dict.set String.eqb name insight d) = map fst d ++ [name].
Proof.
  induction d as [|[k v] d IH]; cbn [Dict.set map fst]; [reflexivity |].
  intros Hn. destruct (String.eqb_spec name k) as [-> | Hne].
  - exfalso. apply Hn. now left.
  - cbn [map fst app]. rewrite IH; [reflexivity |].
    intros Hin. apply Hn. now right.
Qed.

(** X22.  With a vector store, embeddings for the batch, distinct cluster
    names and indices that are positions of tickets,
    [get_cluster_insights] returns exactly one entry for each cluster, in
    the order of the clusters. *)
Theorem get_cluster_insights_covers_clusters (tickets : list string)
  (clusters : named_clusters) (embeddings : matrix)
  (Hemb : embeddings_create env (map _preprocess_ticket tickets)
          = Ok embeddings)
  (Hkeys : NoDup (map fst clusters))
  (Hin : Forall (fun c => Forall (fun i => (i < length tickets)%nat) (snd c))
                clusters) :
  exists insights,
    get_cluster_insights env true tickets clusters = Ok insights
    /\ map fst insights = map fst clusters.
Proof.
  unfold get_cluster_insights, TicketClusteringEngine.get_cluster_insights,
    TicketClusteringEngine.__init__, bind, get, ret.
  cbn [TicketClusteringEngine.vector_store andb fst].
  unfold try_except, bind, lift, ret.
  rewrite generate_embeddings_run, Hemb.
  assert (Hat : forall i, (i < length tickets)%nat ->
                          exists ticket,
                            TicketClusteringEngine.ticket_at tickets i
                            = Ok ticket).
  { intros i Hi. unfold TicketClusteringEngine.ticket_at.
    destruct (nth_error tickets i) eqn:En; [eauto |].
    apply nth_error_None in En. lia. }
  assert (H : forall items insights,
             NoDup (map fst insights ++ map fst items) ->
             Forall (fun c => Forall (fun i => (i < length tickets)%nat)
                                     (snd c)) items ->
             exists out,
               TicketClusteringEngine.insights_loop tickets embeddings items
                 insights = Ok out
               /\ map fst out = map fst insights ++ map fst items).
  { induction items as [|[name ticket_indices] items IH];
      intros insights Hnd Hr; cbn [TicketClusteringEngine.insights_loop].
    - exists insights. now rewrite app_nil_r.
    - inversion Hr as [|? ? Hhere Hrest]; subst. cbn [snd] in Hhere.
      cbn [map fst] in Hnd.
      assert (Hfresh : ~ In name (map fst insights)).
      { apply NoDup_remove_2 in Hnd. intros Hk. apply Hnd.
        apply in_or_app. now left. }
      assert (Hnext : forall insight,
                 exists out,
                   TicketClusteringEngine.insights_loop tickets embeddings
                     items (Dict.set String.eqb name insight insights)
                   = Ok out
                   /\ map fst out
                      = map fst insights ++ name :: map fst items).
      { intros insight.
        destruct (IH (Dict.set String.eqb name insight insights))
          as (out & Eo & Hk); [|exact Hrest |].
        - rewrite insights_keys_set by assumption.
          rewrite <- app_assoc. exact Hnd.
        - exists out. split; [exact Eo |].
          rewrite Hk, insights_keys_set by assumption.
          now rewrite <- app_assoc. }
      destruct (length ticket_indices <? 2)%nat eqn:Elen.
      + destruct ticket_indices as [|i rest]; [apply Hnext |].
        inversion Hhere as [|? ? Hi _]; subst.
        destruct (Hat i Hi) as [ticket ->]. apply Hnext.
      + destruct (get_cluster_representatives ticket_indices embeddings)
          as [stats|] eqn:Es.
        * cbv zeta. apply representatives_facts in Es as (_ & Hrep & _).
          rewrite Forall_forall in Hhere.
          destruct (Hat _ (Hhere _ Hrep)) as [ticket ->]. apply Hnext.
        * destruct ticket_indices as [|i rest]; [discriminate Elen |].
          inversion Hhere as [|? ? Hi _]; subst.
          destruct (Hat i Hi) as [ticket ->]. apply Hnext. }
  destruct (H clusters []) as (out & Eo & Hk); [exact Hkeys | exact Hin |].
  rewrite Eo. exists out. split; [reflexivity | exact Hk].
Qed.

End Insights.

Lemma get_cluster_insights_covers_clusters_witness :
  let clusters :=
    [("Network Issues"%string, [0; 1]%nat); ("Email Issues"%string, [2]%nat)]
  in
  embeddings_create Examples.one_name_for_all
    (map _preprocess_ticket Examples.three_tickets)
  = Ok [[1; 0]; [1; 0]; [0; 1]]%R
  /\ NoDup (map fst clusters)
  /\ Forall (fun c => Forall (fun i => (i < length Examples.three_tickets)%nat)
                             (snd c)) clusters
  /\ exists insights,
       get_cluster_insights Examples.one_name_for_all true
         Examples.three_tickets clusters = Ok insights
       /\ map fst insights = map fst clusters.
Proof.
  cbv zeta.
  assert (Hemb : embeddings_create Examples.one_name_for_all
                   (map _preprocess_ticket Examples.three_tickets)
                 = Ok [[1; 0]; [1; 0]; [0; 1]]%R) by reflexivity.
  assert (Hkeys : NoDup (map fst [("Network Issues"%string, [0; 1]%nat);
                                  ("Email Issues"%string, [2]%nat)])).
  { simpl. constructor; [simpl; intuition discriminate |].
    constructor; [simpl; tauto | constructor]. }
  assert (Hin : Forall
                  (fun c : string * list nat =>
                     Forall (fun i => (i < length Examples.three_tickets)%nat)
                            (snd c))
                  [("Network Issues"%string, [0; 1]%nat);
                   ("Email Issues"%string, [2]%nat)])
    by (repeat constructor).
  split; [exact Hemb |]. split; [exact Hkeys |]. split; [exact Hin |].
  exact (@get_cluster_insights_covers_clusters Examples.one_name_for_all
           Examples.three_tickets _ _ Hemb Hkeys Hin).
Defined.

(** ** The validators of the request and of the response *)

Section Validators.
Local Open Scope string_scope.
Local Open Scope list_scope.

Lemma lstrip_start (s : Text.str) :
  Text.lstrip s = []
  \/ exists c r, Text.lstrip s = c :: r /\ Text.isspace c = false.
Proof.
  induction s as [|c s IH]; [now left |].
  cbn [Text.lstrip]. destruct (Text.isspace c) eqn:E; [exact IH |].
  right. now exists c, s.
Qed.

Lemma lstrip_idempotent (s : Text.str) :
  Text.lstrip (Text.lstrip s) = Text.lstrip s.
Proof.
  destruct (lstrip_start s) as [-> | (c & r & -> & Hc)]; [reflexivity |].
  now apply lstrip_head.
Qed.

Lemma lstrip_snoc (u : Text.str) (c : ascii) :
  Text.isspace c = false -> exists v, Text.lstrip (u ++ [c]) = v ++ [c].
Proof.
  intros Hc. induction u as [|a u IH]; cbn [app Text.lstrip].
  - rewrite Hc. now exists [].
  - destruct (Text.isspace a); [exact IH |]. now exists (a :: u).
Qed.

Lemma strip_idempotent (s : Text.str) :
  Text.strip (Text.strip s) = Text.strip s.
Proof.
  unfold Text.strip.
  assert (H : Text.lstrip (Text.rstrip (Text.lstrip s))
              = Text.rstrip (Text.lstrip s)).
  { destruct (lstrip_start s) as [-> | (c & r & -> & Hc)]; [reflexivity |].
    unfold Text.rstrip. cbn [rev].
    destruct (@lstrip_snoc (rev r) c Hc) as [v ->].
    rewrite rev_app_distr. cbn [rev app]. now apply lstrip_head. }
  rewrite H. unfold Text.rstrip.
  now rewrite rev_involutive, lstrip_idempotent.
Qed.

Lemma models_strip_idempotent (s : string) :
  Models.strip (Models.strip s) = Models.strip s.
Proof.
  unfold Models.strip.
  now rewrite list_ascii_of_string_of_list_ascii, strip_idempotent.
Qed.

Lemma blank_strip (s : string) :
  Models.blank s = true <-> Models.strip s = "".
Proof.
  unfold Models.blank. destruct s as [|c s]; [split; reflexivity |].
  destruct (Models.strip (String c s)); split; congruence.
Qed.

Lemma blank_short (s : string) :
  Models.blank s = true -> String.length (Models.strip s) = 0%nat.
Proof. intros H. apply blank_strip in H. now rewrite H. Qed.

(** *** The tickets of a request *)

Lemma check_tickets_spec (v : list string) (i : nat) :
  (Models.check_tickets i v = Ok tt
   /\ Forall (fun t => (5 <= String.length (Models.strip t) <= 500)%nat) v)
  \/ ((exists msg, Models.check_tickets i v = Raise (ValueError msg))
      /\ ~ Forall (fun t => (5 <= String.length (Models.strip t) <= 500)%nat)
                  v).
Proof.
  revert i. induction v as [|t v IH]; intros i; [left; now split |].
  cbn [Models.check_tickets].
  destruct (Models.blank t) eqn:Eb.
  { right. split; [eauto |]. intros H. inversion H as [|? ? Ht _]; subst.
    apply blank_short in Eb. lia. }
  destruct (Nat.ltb_spec (String.length (Models.strip t)) 5) as [Hs | Hs].
  { right. split; [eauto |]. intros H. inversion H as [|? ? Ht _]; subst.
    lia. }
  destruct (Nat.ltb_spec 500 (String.length (Models.strip t))) as [Hl | Hl].
  { right. split; [eauto |]. intros H. inversion H as [|? ? Ht _]; subst.
    lia. }
  destruct (IH (S i)) as [[E Hv] | [E Hv]].
  - left. split; [exact E |]. constructor; [lia | exact Hv].
  - right. split; [exact E |]. intros H. inversion H; subst. now apply Hv.
Qed.

(** X23.  [TicketRequest.validate_tickets] accepts exactly the non-empty
    lists in which every ticket has between 5 and 500 characters after
    stripping, and returns the stripped tickets; it rejects every other
    list with a [ValueError], and validating what it returned gives the
    same list again. *)
Theorem validate_tickets_accepts_iff (v : list string) :
  (Models.validate_tickets v = Ok (map Models.strip v)
   <-> v <> []
       /\ Forall (fun t => (5 <= String.length (Models.strip t) <= 500)%nat)
                 v)
  /\ (forall out,
        Models.validate_tickets v = Ok out ->
        out = map Models.strip v /\ Models.validate_tickets out = Ok out)
  /\ (forall e,
        Models.validate_tickets v = Raise e -> exists msg, e = ValueError msg).
Proof.
  assert (Hagain : forall l,
             Forall (fun t => (5 <= String.length (Models.strip t) <= 500)%nat)
                    l ->
             Forall (fun t => (5 <= String.length (Models.strip t) <= 500)%nat)
                    (map Models.strip l)).
  { intros l Hl. apply Forall_map. eapply Forall_impl; [|exact Hl].
    cbv beta. intros t Ht. now rewrite models_strip_idempotent. }
  destruct v as [|t v].
  { cbn. split; [split; [discriminate | intros [H _]; congruence] |].
    split; [discriminate | intros e [= <-]; eauto]. }
  unfold Models.validate_tickets.
  destruct (check_tickets_spec (t :: v) 0) as [[E Hv] | [[msg E] Hv]];
    rewrite E.
  - split; [split; [intros _; split; [discriminate | exact Hv]
                   | reflexivity] |].
    split; [|discriminate].
    intros out [= <-]. split; [reflexivity |].
    cbn [map].
    destruct (check_tickets_spec (map Models.strip (t :: v)) 0)
      as [[E' _] | [_ Hbad]]; [|now apply Hagain in Hv].
    cbn [map] in E'. rewrite E'. f_equal.
    change (map Models.strip (map Models.strip (t :: v))
            = map Models.strip (t :: v)).
    rewrite map_map. apply map_ext. apply models_strip_idempotent.
  - split; [split; [discriminate | intros [_ H]; contradiction] |].
    split; [discriminate | intros e [= <-]; eauto].
Qed.

(** *** The clusters of a response *)

Lemma check_names_spec (names : list string) :
  (Models.check_names names = Ok tt
   /\ Forall (fun name => Models.blank name = false
                          /\ (String.length (Models.strip name) <= 50)%nat)
             names)
  \/ ((exists msg, Models.check_names names = Raise (ValueError msg))
      /\ ~ Forall (fun name => Models.blank name = false
                               /\ (String.length (Models.strip name) <= 50)%nat)
                  names).
Proof.
  induction names as [|name names IH]; [left; now split |].
  cbn [Models.check_names].
  destruct (Models.blank name) eqn:Eb.
  { right. split; [eauto |]. intros H. inversion H as [|? ? [Hn _] _]; subst.
    congruence. }
  destruct (Nat.ltb_spec 50 (String.length (Models.strip name))) as [Hl | Hl].
  { right. split; [eauto |]. intros H. inversion H as [|? ? [_ Hn] _]; subst.
    lia. }
  destruct IH as [[E Hv] | [E Hv]].
  - left. split; [exact E |]. constructor; [split; [exact Eb | lia] |].
    exact Hv.
  - right. split; [exact E |]. intros H. inversion H; subst. now apply Hv.
Qed.

Lemma existsb_Z_In (x : Z) (l : list Z) :
  existsb (Z.eqb x) l = true <-> In x l.
Proof.
  rewrite existsb_exists. split.
  - intros [y [Hy E]]. apply Z.eqb_eq in E. now subst.
  - intros H. exists x. split; [exact H | apply Z.eqb_refl].
Qed.

Lemma check_indices_spec (cluster_name : string) (indices seen : list Z) :
  (Models.check_indices cluster_name indices seen = Ok (seen ++ indices)
   /\ Forall (fun idx => (0 <= idx)%Z) indices
   /\ (NoDup seen -> NoDup (seen ++ indices)))
  \/ ((exists msg,
         Models.check_indices cluster_name indices seen
         = Raise (ValueError msg))
      /\ ~ (Forall (fun idx => (0 <= idx)%Z) indices
            /\ NoDup (seen ++ indices))).
Proof.
  revert seen. induction indices as [|idx rest IH]; intros seen.
  - left. cbn. rewrite app_nil_r. repeat split; auto.
  - cbn [Models.check_indices].
    destruct (Z.ltb_spec idx 0) as [Hneg | Hpos].
    { right. split; [eauto |]. intros [H _].
      inversion H; subst. lia. }
    destruct (existsb (Z.eqb idx) seen) eqn:Ex.
    { right. split; [eauto |]. intros [_ H].
      apply existsb_Z_In in Ex. apply NoDup_remove_2 in H.
      apply H. apply in_or_app. now left. }
    assert (Hnew : ~ In idx seen).
    { intros Hin. apply existsb_Z_In in Hin. congruence. }
    destruct (IH (seen ++ [idx])) as [(E & Hv & Hnd) | [E Hbad]];
      rewrite <- app_assoc in *; cbn [app] in *.
    + left. split; [exact E |]. split; [now constructor |].
      intros Hs. apply Hnd. apply NoDup_app; [assumption | | ].
      * constructor; [simpl; tauto | constructor].
      * intros x Hx [<- | []]. contradiction.
    + right. split; [exact E |]. intros [Hall Hnd]. apply Hbad.
      inversion Hall; subst. split; assumption.
Qed.

Lemma check_items_spec (items : list (string * list Z)) (seen : list Z) :
  NoDup seen ->
  (Models.check_items items seen = Ok tt
   /\ Forall (fun c => snd c <> []) items
   /\ Forall (fun idx => (0 <= idx)%Z) (concat (map snd items))
   /\ NoDup (seen ++ concat (map snd items)))
  \/ ((exists msg, Models.check_items items seen = Raise (ValueError msg))
      /\ ~ (Forall (fun c => snd c <> []) items
            /\ Forall (fun idx => (0 <= idx)%Z) (concat (map snd items))
            /\ NoDup (seen ++ concat (map snd items)))).
Proof.
  revert seen. induction items as [|[name indices] items IH]; intros seen Hs.
  - left. cbn. rewrite app_nil_r. repeat split; auto.
  - cbn [Models.check_items map snd concat].
    destruct indices as [|idx rest].
    { right. split; [eauto |]. intros [H _]. inversion H; subst.
      cbn in *. congruence. }
    set (indices := idx :: rest) in *.
    destruct (check_indices_spec name indices seen)
      as [(E & Hv & Hnd) | [[msg E] Hbad]]; rewrite E.
    + destruct (IH (seen ++ indices) (Hnd Hs))
        as [(E' & Hne & Hpos & Hall) | [E' Hbad]];
        rewrite <- app_assoc in *.
      * left. split; [exact E' |].
        split; [constructor; [discriminate | exact Hne] |].
        split; [apply Forall_app; now split | exact Hall].
      * right. split; [exact E' |]. intros (Hne & Hpos & Hall).
        apply Hbad. inversion Hne; subst.
        apply Forall_app in Hpos as [_ Hpos]. now repeat split.
    + right. split; [eauto |]. intros (_ & Hpos & Hall). apply Hbad.
      apply Forall_app in Hpos as [Hpos _]. split; [exact Hpos |].
      rewrite app_assoc in Hall. now apply NoDup_app_remove_r in Hall.
Qed.

(** X24.  [ClusterResult.validate_clusters] returns the clusters it was
    given, unchanged, exactly when there are between 1 and 10 of them,
    every name is not blank and has at most 50 characters after stripping,
    no cluster is empty, no index is negative and no index occurs twice;
    otherwise it raises a [ValueError]. *)
Theorem validate_clusters_accepts_iff (v : Models.clusters_t) :
  (Models.validate_clusters v = Ok v
   <-> (1 <= length v <= 10)%nat
       /\ Forall (fun name =>
                    Models.blank name = false
                    /\ (String.length (Models.strip name) <= 50)%nat)
                 (map fst v)
       /\ Forall (fun c => snd c <> []) v
       /\ Forall (fun idx => (0 <= idx)%Z) (concat (map snd v))
       /\ NoDup (concat (map snd v)))
  /\ (Models.validate_clusters v = Ok v
      \/ exists msg, Models.validate_clusters v = Raise (ValueError msg)).
Proof.
  destruct v as [|c v].
  { cbn. split; [|right; eauto].
    split; [discriminate | intros [H _]; lia]. }
  unfold Models.validate_clusters.
  set (w := c :: v).
  destruct (Nat.ltb_spec 10 (length w)) as [Hmany | Hfew].
  { split; [|right; eauto]. split; [discriminate | intros [H _]; lia]. }
  destruct (check_names_spec (map fst w)) as [[En Hn] | [[msg En] Hn]];
    rewrite En.
  - destruct (@check_items_spec w [] (NoDup_nil Z))
      as [(Ei & Hne & Hpos & Hnd) | [[msg Ei] Hbad]]; rewrite Ei.
    + split; [|now left]. split; [intros _ | reflexivity].
      cbn [app] in Hnd. repeat split; try assumption.
      unfold w. cbn [length]. lia.
    + split; [|right; eauto]. split; [discriminate |].
      intros (_ & _ & Hne & Hpos & Hnd). exfalso. apply Hbad.
      cbn [app]. now repeat split.
  - split; [|right; eauto]. split; [discriminate |].
    intros (_ & Hnames & _). contradiction.
Qed.

End Validators.

(** ** The clusters of the lexical path as a response *)

Section LexicalResponse.
Local Open Scope string_scope.
Local Open Scope list_scope.

Variable env : collaborators.

(** What scikit-learn promises: one row per text, one label per row, and
    labels below the number of clusters asked for. *)
Hypothesis fit_transform_rows :
  forall texts m, fit_transform env texts = Ok m -> length m = length texts.
Hypothesis fit_predict_labels :
  forall k x labels,
    fit_predict env k x = Ok labels -> length labels = length x.
Hypothesis fit_predict_range :
  forall k x labels,
    (0 < k)%Z -> fit_predict env k x = Ok labels ->
    Forall (fun label => (Z.of_nat label < k)%Z) labels.

Lemma cluster_count_bounds (n : Z) : (1 <= _determine_cluster_count n <= 10)%Z.
Proof.
  unfold _determine_cluster_count.
  destruct (Z.leb_spec n 2); [lia |].
  destruct (Z.leb_spec n 5); [lia |].
  destruct (Z.leb_spec n 10); [lia |].
  destruct (Z.leb_spec n 20); [|destruct (Z.leb_spec n 50)].
  - assert (3 <= n / 3)%Z by (apply Z.div_le_lower_bound; lia). lia.
  - assert (4 <= n / 5)%Z by (apply Z.div_le_lower_bound; lia). lia.
  - assert (6 <= n / 8)%Z by (apply Z.div_le_lower_bound; lia). lia.
Qed.

Lemma validate_clusters_accepts (v : Models.clusters_t) :
  (1 <= length v <= 10)%nat ->
  Forall (fun name =>
            Models.blank name = false
            /\ (String.length (Models.strip name) <= 50)%nat)
         (map fst v) ->
  Forall (fun c => snd c <> []) v ->
  Forall (fun idx => (0 <= idx)%Z) (concat (map snd v)) ->
  NoDup (concat (map snd v)) ->
  Models.validate_clusters v = Ok v.
Proof.
  intros Hlen Hnames Hne Hpos Hnd.
  unfold Models.validate_clusters.
  destruct v as [|c v]; [simpl in Hlen; lia |].
  set (w := c :: v) in *.
  destruct (Nat.ltb_spec 10 (length w)); [lia |].
  destruct (check_names_spec (map fst w)) as [[-> _] | [_ Hbad]];
    [|contradiction].
  destruct (@check_items_spec w [] (NoDup_nil Z)) as [[-> _] | [_ Hbad]];
    [reflexivity |].
  exfalso. apply Hbad. cbn [app]. now repeat split.
Qed.

(** Every name that the rule-based naming can give to one of at most ten
    clusters passes the checks of the response model. *)
Lemma candidate_names_valid :
  forallb
    (fun category =>
       forallb
         (fun j =>
            negb (Models.blank (TicketClusteringEngine.candidate category j))
            && (String.length
                  (Models.strip (TicketClusteringEngine.candidate category j))
                <=? 50)%nat)
         (seq 0 10))
    (TicketClusteringEngine.general_issues
     :: map fst TicketClusteringEngine.category_keywords)
  = true.
Proof. vm_compute. reflexivity. Qed.

Lemma candidate_name_valid (category : string) (j : nat) :
  In category (TicketClusteringEngine.general_issues
               :: map fst TicketClusteringEngine.category_keywords) ->
  (j < 10)%nat ->
  Models.blank (TicketClusteringEngine.candidate category j) = false
  /\ (String.length
        (Models.strip (TicketClusteringEngine.candidate category j)) <= 50)%nat.
Proof.
  intros Hc Hj. pose proof candidate_names_valid as H.
  rewrite forallb_forall in H. specialize (H category Hc).
  rewrite forallb_forall in H.
  assert (Hs : In j (seq 0 10)) by (apply in_seq; lia).
  specialize (H j Hs). apply andb_true_iff in H as [Hb Hl].
  apply negb_true_iff in Hb. apply Nat.leb_le in Hl. now split.
Qed.

(** The clusters of the grouping loop: none is empty and every label is a
    label of the array. *)
Lemma group_by_label_entries (cluster_labels : list nat) :
  Forall (fun c => snd c <> [] /\ In (fst c) cluster_labels)
         (TicketClusteringEngine.group_by_label cluster_labels).
Proof.
  apply Forall_forall. intros [k l] Hin. cbn [fst snd].
  pose proof (@NoDup_keys_get k l _ (group_by_label_keys cluster_labels) Hin)
    as Hget.
  unfold TicketClusteringEngine.group_by_label in Hget.
  rewrite group_fold_get in Hget. cbn [Dict.get] in Hget.
  fold (TicketClusteringEngine.positions_of k cluster_labels) in Hget.
  destruct (TicketClusteringEngine.positions_of k cluster_labels) eqn:Ep;
    [discriminate |].
  injection Hget as <-. split; [discriminate |].
  apply positions_of_In. rewrite Ep. discriminate.
Qed.

Lemma response_indices (named : named_clusters) :
  concat (map snd (Models.response_clusters named))
  = map Z.of_nat (all_indices named).
Proof.
  unfold Models.response_clusters, all_indices.
  rewrite map_map. cbn [snd].
  induction named as [|c named IH]; [reflexivity |].
  cbn [map concat]. now rewrite map_app, IH.
Qed.

(** A partition under valid names, with no empty cluster and at most ten
    clusters, passes the validation of the response. *)
Lemma partition_passes (n : nat) (named : named_clusters) :
  is_partition n named ->
  (1 <= length named <= 10)%nat ->
  Forall (fun name =>
            Models.blank name = false
            /\ (String.length (Models.strip name) <= 50)%nat)
         (map fst named) ->
  Forall (fun c => snd c <> []) named ->
  Models.validate_clusters (Models.response_clusters named)
  = Ok (Models.response_clusters named).
Proof.
  intros Hp Hlen Hnames Hne. apply validate_clusters_accepts.
  - unfold Models.response_clusters. now rewrite length_map.
  - unfold Models.response_clusters. now rewrite map_map.
  - unfold Models.response_clusters. apply Forall_map.
    eapply Forall_impl; [|exact Hne]. cbv beta. intros [k l] H. cbn in *.
    destruct l; [congruence | discriminate].
  - rewrite response_indices. apply Forall_map, Forall_forall. intros; lia.
  - rewrite response_indices.
    apply Finite.Injective_map_NoDup; [intros a b; apply Nat2Z.inj |].
    unfold is_partition in Hp.
    apply (Permutation_NoDup (Permutation_sym Hp)), seq_NoDup.
Qed.

(** X25.  Without a provider client, the clusters that [cluster_tickets]
    returns for a batch of at least one ticket pass
    [ClusterResult.validate_clusters]: at most ten clusters, valid names,
    no empty cluster and no index twice (k-means returning one label below
    the requested number of clusters for each row). *)
Theorem lexical_clusters_pass_validation (tickets : list string)
  (use_vector_store : bool) (Hne : tickets <> []) :
  exists named,
    cluster_tickets env false tickets use_vector_store = Ok named
    /\ Models.validate_clusters (Models.response_clusters named)
       = Ok (Models.response_clusters named).
Proof.
  unfold cluster_tickets.
  set (self := TicketClusteringEngine.__init__ false use_vector_store).
  assert (Hn : (1 <= length tickets)%nat)
    by (destruct tickets; [congruence | simpl; lia]).
  assert (Hgeneral : Forall
                       (fun name =>
                          Models.blank name = false
                          /\ (String.length (Models.strip name) <= 50)%nat)
                       [TicketClusteringEngine.general_issues])
    by (constructor; [split; [reflexivity | vm_compute; lia] | constructor]).
  destruct (Nat.eq_dec (length tickets) 1) as [H1 | H1].
  - unfold TicketClusteringEngine.cluster_tickets. rewrite H1. cbn.
    eexists. split; [reflexivity |]. reflexivity.
  - rewrite cluster_tickets_run by assumption.
    change (TicketClusteringEngine.use_openai self) with false. cbv iota.
    destruct (TicketClusteringEngine._cluster_with_sklearn env tickets self)
      as [[named|e] self'] eqn:E; cbn [fst]; eexists;
      (split; [reflexivity |]).
    + pose proof (@cluster_with_sklearn_partition env fit_transform_rows
                    fit_predict_labels tickets self self' named E) as Hp.
      revert E.
      unfold TicketClusteringEngine._cluster_with_sklearn, bind, lift, ret.
      destruct (fit_transform env _) as [m|e] eqn:Em; [|discriminate].
      destruct (fit_predict env _ m) as [labels|e] eqn:El; [|discriminate].
      destruct (TicketClusteringEngine._generate_rule_based_names tickets
                  (TicketClusteringEngine.group_by_label labels))
        as [named0|e] eqn:En; [|discriminate].
      intros [= <- _].
      pose proof (cluster_count_bounds (Z.of_nat (length tickets))) as Hk.
      apply fit_predict_range in El as Hrange; [|lia].
      apply fit_transform_rows in Em. apply fit_predict_labels in El.
      rewrite length_map in Em.
      set (clusters := TicketClusteringEngine.group_by_label labels) in *.
      assert (Hpart : is_partition (length tickets) clusters).
      { unfold clusters. rewrite <- Em, <- El.
        apply group_by_label_partition. }
      pose proof (group_by_label_entries labels) as Hentries.
      fold clusters in Hentries.
      assert (Hfew : (length clusters <= 10)%nat).
      { assert (Hincl : incl (map fst clusters) (seq 0 10)).
        { intros k Hin. apply in_map_iff in Hin as [[k' l] [<- Hin]].
          rewrite Forall_forall in Hentries, Hrange.
          destruct (Hentries _ Hin) as [_ Hlabel]. cbn [fst] in *.
          specialize (Hrange _ Hlabel). cbv beta in Hrange.
          apply in_seq. lia. }
        apply NoDup_incl_length in Hincl; [|apply group_by_label_keys].
        now rewrite length_map, length_seq in Hincl. }
      destruct (@rule_based_names_loop_shape tickets clusters []
                  (partition_in_range Hpart))
        as (added & Ea & Hs & _ & Hnames); [constructor |].
      unfold TicketClusteringEngine._generate_rule_based_names in En.
      rewrite Ea in En. cbn [app] in En. injection En as <-.
      assert (Hlen : length added = length clusters)
        by (rewrite <- (length_map snd added), Hs; apply length_map).
      apply (partition_passes Hp).
      * rewrite Hlen. split; [|exact Hfew].
        destruct clusters as [|c cs]; [|simpl; lia].
        unfold is_partition, all_indices in Hpart. cbn in Hpart.
        apply Permutation_length in Hpart. rewrite length_seq in Hpart.
        simpl in Hpart. lia.
      * eapply Forall_impl; [|exact Hnames]. cbv beta.
        intros name (category & j & Hc & -> & Hj). cbn [length Nat.add] in Hj.
        apply candidate_name_valid; [exact Hc | lia].
      * assert (Hsnd : Forall (fun l : list nat => l <> []) (map snd added)).
        { rewrite Hs. apply Forall_map.
          eapply Forall_impl; [|exact Hentries]. cbv beta. tauto. }
        now rewrite Forall_map in Hsnd.
    + apply (@partition_passes (length tickets)).
      * apply single_cluster_partition.
      * cbn. lia.
      * exact Hgeneral.
      * constructor; [|constructor]. cbn [snd].
        destruct (length tickets); [lia | discriminate].
Qed.

End LexicalResponse.

Lemma local_only_range :
  forall k x labels,
    (0 < k)%Z -> fit_predict Examples.local_only k x = Ok labels ->
    Forall (fun label => (Z.of_nat label < k)%Z) labels.
Proof.
  cbn. intros k x labels Hk [= <-].
  apply Forall_map, Forall_forall. intros; cbn; lia.
Qed.

Lemma lexical_clusters_pass_validation_witness :
  Examples.three_tickets <> []
  /\ exists named,
       cluster_tickets Examples.local_only false Examples.three_tickets true
       = Ok named
       /\ Models.validate_clusters (Models.response_clusters named)
          = Ok (Models.response_clusters named).
Proof.
  assert (Hne : Examples.three_tickets <> []) by discriminate.
  split; [exact Hne |].
  destruct local_only_promises as (_ & Ht & Hp).
  exact (@lexical_clusters_pass_validation Examples.local_only Ht Hp
           local_only_range Examples.three_tickets true Hne).
Defined.

(** ** The cluster count and the size of the batch *)

(** X26.  [_determine_cluster_count] never asks for more clusters than
    there are tickets, and a larger batch never gets fewer clusters than a
    smaller one. *)
Theorem determine_cluster_count_monotone (m n : Z)
  (Hm : (1 <= m)%Z) (Hmn : (m <= n)%Z) :
  (_determine_cluster_count m <= _determine_cluster_count n)%Z
  /\ (_determine_cluster_count n <= n)%Z.
Proof.
  unfold _determine_cluster_count.
  repeat match goal with
         | |- context [(?a <=? ?b)%Z] => destruct (Z.leb_spec a b)
         end;
    try lia;
    repeat match goal with
           | |- context [(?a / ?b)%Z] =>
               let q := fresh "q" in
               let Hq := fresh "Hq" in
               pose proof (Z.div_mod a b ltac:(lia)) as Hq;
               pose proof (Z.mod_pos_bound a b ltac:(lia));
               set (q := (a / b)%Z) in *; clearbody q
           end;
    lia.
Qed.

Lemma determine_cluster_count_monotone_witness :
  (1 <= 20)%Z /\ (20 <= 21)%Z
  /\ (_determine_cluster_count 20 <= _determine_cluster_count 21)%Z
  /\ (_determine_cluster_count 21 <= 21)%Z.
Proof.
  assert (Hm : (1 <= 20)%Z) by lia.
  assert (Hmn : (20 <= 21)%Z) by lia.
  split; [exact Hm |]. split; [exact Hmn |].
  exact (determine_cluster_count_monotone Hm Hmn).
Defined.

(** ** Storing and finding again *)

Section RoundTrip.
Import TicketVectorStore.
Local Open Scope R_scope.

Variable trained_quantizer : matrix -> vector -> nat.

Lemma dot_normalized_self (row : vector) :
  Np.norm row <> 0 ->
  Np.dot (normalize_row row) (normalize_row row) = 1.
Proof.
  intros H. rewrite <- norm_square, (@norm_normalize_row row H). ring.
Qed.

(** X27.  What is stored is found again: after [store_embeddings] has
    returned [True] on a store with the flat index type, a search with one
    of the stored vectors, if it is not zero, with a threshold of at most 1
    and [k] at least the number of stored vectors, returns the metadata
    entry stored with that vector, with the score 1.  Floating-point
    numbers are read as real numbers: in a run the score is 1 up to
    [float32] rounding (1.0000001 or 0.99999994), so a threshold within
    rounding of 1 can leave the ticket out. *)
Theorem stored_ticket_is_found (dim : nat)
  (history : list (matrix * list ticket_metadata))
  (embeddings : matrix) (md : list ticket_metadata)
  (st' : t) (i : nat) (row : vector) (m : ticket_metadata)
  (k : Z) (threshold : R)
  (Hstore : store_embeddings trained_quantizer embeddings md
              (inserts trained_quantizer history (__init__ dim flat))
            = (Ok true, st'))
  (Hrow : nth_error embeddings i = Some row)
  (Hm : nth_error md i = Some m)
  (Hnz : Np.norm row <> 0)
  (Hk : (Z.of_nat (Faiss.ntotal (index st')) <= k)%Z)
  (Hth : threshold <= 1) :
  exists results,
    search_similar_tickets row k threshold st' = (Ok results, st')
    /\ In (mk_similar m 1) results.
Proof.
  set (st := inserts trained_quantizer history (__init__ dim flat)) in *.
  destruct (flat_store_trained trained_quantizer dim history)
    as (Htr & Hd & Hit & _ & Hty).
  cbv zeta in Htr, Hd, Hit, Hty. fold st in Htr, Hd, Hit, Hty.
  assert (Hc : consistent st)
    by (apply consistent_inserts, consistent_init).
  destruct (@trained_store_accepts trained_quantizer embeddings md st Htr Hit)
    as [Hiff _]. cbv zeta in Hiff. rewrite Hstore in Hiff. cbn [fst] in Hiff.
  destruct (proj1 Hiff eq_refl) as [Hlen Hshape].
  apply well_shaped_normalized in Hshape.
  destruct (@store_embeddings_step trained_quantizer embeddings md st Hc)
    as [[E _] | E]; cbv zeta in E; rewrite Hstore in E;
    [|discriminate].
  injection E as ->.
  destruct Hc as (_ & _ & Hkind & _ & Hmeta). rewrite Hty in Hkind.
  clearbody st.
  assert (Hdim : length row = dim).
  { rewrite Forall_forall in Hshape. rewrite <- Hd.
    apply Hshape. eapply nth_error_In, Hrow. }
  destruct (@exhaustive_search_on
              (appended trained_quantizer (_normalize_embeddings embeddings)
                 md st) row k threshold)
    as (results & Es & Hall); cbn [index appended Faiss.kind
                                   Faiss.index_trained Faiss.d metadata];
    try assumption; try reflexivity.
  - unfold Faiss.ntotal in *. cbn [Faiss.xb].
    rewrite !length_app, length_normalize_embeddings, Hmeta, Hlen.
    reflexivity.
  - now rewrite Hd.
  - exists results. split; [exact Es |].
    rewrite <- (@dot_normalized_self row Hnz).
    apply (Hall (length (Faiss.xb (index st)) + i)%nat).
    + cbn [index appended Faiss.xb].
      rewrite nth_error_app2 by lia.
      replace (length (Faiss.xb (index st)) + i
               - length (Faiss.xb (index st)))%nat with i by lia.
      rewrite normalize_embeddings_rows, nth_error_map, Hrow. reflexivity.
    + cbn [metadata appended]. unfold Faiss.ntotal in Hmeta.
      rewrite nth_error_app2 by lia.
      replace (length (Faiss.xb (index st)) + i - length (metadata st))%nat
        with i by lia.
      exact Hm.
    + rewrite (@dot_normalized_self row Hnz). exact Hth.
Qed.

End RoundTrip.

Lemma stored_ticket_is_found_witness :
  let tq := fun (_ : matrix) (_ : vector) => 0%nat in
  TicketVectorStore.store_embeddings tq [[1; 0]; [0; 1]]%R
    [Examples.vpn_down; Examples.printer_jam]
    (TicketVectorStore.inserts tq []
       (TicketVectorStore.__init__ 2 TicketVectorStore.flat))
  = (Ok true, Examples.two_axes)
  /\ nth_error [[1; 0]; [0; 1]]%R 0 = Some [1; 0]%R
  /\ nth_error [Examples.vpn_down; Examples.printer_jam] 0
     = Some Examples.vpn_down
  /\ Np.norm [1; 0]%R <> 0%R
  /\ (Z.of_nat (Faiss.ntotal (TicketVectorStore.index Examples.two_axes))
      <= 2)%Z
  /\ (1 / 2 <= 1)%R
  /\ exists results,
       TicketVectorStore.search_similar_tickets [1; 0]%R 2 (1 / 2)%R
         Examples.two_axes = (Ok results, Examples.two_axes)
       /\ In (TicketVectorStore.mk_similar Examples.vpn_down 1%R) results.
Proof.
  cbv zeta.
  assert (Hstore : TicketVectorStore.store_embeddings (fun _ _ => 0%nat)
                     [[1; 0]; [0; 1]]%R
                     [Examples.vpn_down; Examples.printer_jam]
                     (TicketVectorStore.inserts (fun _ _ => 0%nat) []
                        (TicketVectorStore.__init__ 2 TicketVectorStore.flat))
                   = (Ok true, Examples.two_axes))
    by apply store_two_axes.
  assert (Hrow : nth_error [[1; 0]; [0; 1]]%R 0 = Some [1; 0]%R)
    by reflexivity.
  assert (Hm : nth_error [Examples.vpn_down; Examples.printer_jam] 0
               = Some Examples.vpn_down) by reflexivity.
  assert (Hnz : Np.norm [1; 0]%R <> 0%R).
  { rewrite (@norm_unit [1; 0]%R) by (simpl; ring). lra. }
  assert (Hk : (Z.of_nat
                  (Faiss.ntotal (TicketVectorStore.index Examples.two_axes))
                <= 2)%Z) by (cbn; lia).
  assert (Hth : (1 / 2 <= 1)%R) by lra.
  split; [exact Hstore |]. split; [exact Hrow |]. split; [exact Hm |].
  split; [exact Hnz |]. split; [exact Hk |]. split; [exact Hth |].
  exact (@stored_ticket_is_found (fun _ _ => 0%nat) 2 []
           [[1; 0]; [0; 1]]%R [Examples.vpn_down; Examples.printer_jam]
           Examples.two_axes 0%nat [1; 0]%R Examples.vpn_down 2%Z (1 / 2)%R
           Hstore Hrow Hm Hnz Hk Hth).
Defined.

(** ** The inverted file index *)

Section InvertedFile.
Import TicketVectorStore.
Local Open Scope R_scope.

Variable trained_quantizer : matrix -> vector -> nat.






End InvertedFile.

